(** * WsClient: a reconnecting WebSocket client with pub/sub dispatch and
    acknowledged sends.

    Shallow embedding of the class [WsClient] (constructor, [connect],
    [_connectOnce] with its four transport handlers, [disconnect], [send],
    [on], [off], [_emit], [_startHeartbeat], [_stopHeartbeat]) as functions
    of a state-and-exception monad over an explicit [World]: the fields of
    the client object together with the parts of the JavaScript host the
    client talks to (sockets, timers, promises, subscriber callbacks,
    console). *)

From Stdlib Require Import QArith Qminmax.
From Stdlib Require Import DecimalString DecimalN.
From stdpp Require Import gmap strings list fin_maps.

Local Open Scope string_scope.
Local Open Scope list_scope.

(** ** JavaScript numbers

    The client only multiplies delays, takes minima of them, tests them for
    truthiness and writes numeric literals.  The development is parametric
    in these operations, so every general statement holds for IEEE doubles
    as well as for exact arithmetic. *)

Class JsNumber (num : Type) := {
  num_lit : Q -> num;              (* a numeric literal of the source *)
  num_mul : num -> num -> num;     (* [a * b] *)
  num_min : num -> num -> num;     (* [Math.min(a, b)] *)
  num_truthy : num -> bool         (* false for 0 and NaN *)
}.

(** Exact rational arithmetic; it agrees with the doubles of the host
    wherever the double operations are exact, as on the integer delays of
    the scenarios below. *)
#[export] Instance Q_JsNumber : JsNumber Q := {
  num_lit q := q;
  num_mul := Qmult;
  num_min := Qmin;
  num_truthy q := negb (Qeq_bool q 0)
}.

(** [String(n)] for a non-negative integer counter. *)
Definition String_of_N (n : N) : string :=
  NilEmpty.string_of_uint (N.to_uint n).

(** Identities of host objects. *)
Abbreviation cb_id := nat.          (* identity of a subscriber callback *)
Abbreviation sock_id := nat.        (* identity of a [WebSocket] object *)
Abbreviation promise_id := nat.     (* identity of a deferred promise *)
Abbreviation timer_id := positive.  (* timer handles are integers > 0 *)
Abbreviation loc := nat.            (* identity of a caller-owned object *)

Section Client.

Context {num : Type} `{JsNumber num}.

(** ** Values *)

#[local] Set Warnings "-register-all".

Inductive jsval : Type :=
  | JUndefined
  | JNull
  | JBool (b : bool)
  | JNum (n : num)
  | JStr (s : string)
  | JArr (items : list jsval)
  | JObj (fields : list (string * jsval))
  | JErr (name message : string).    (* an [Error] object or a host event *)

(** The own properties of an object, in insertion order. *)
Definition props := list (string * jsval).

(** [o[k]]: the property, or [undefined]. *)
Fixpoint obj_get (k : string) (o : props) : jsval :=
  match o with
  | [] => JUndefined
  | (k', v) :: rest => if String.eqb k k' then v else obj_get k rest
  end.

(** [o[k] = v]: overwrite in place if the key exists, append otherwise. *)
Fixpoint obj_set (k : string) (v : jsval) (o : props) : props :=
  match o with
  | [] => [(k, v)]
  | (k', v') :: rest =>
      if String.eqb k k' then (k', v) :: rest else (k', v') :: obj_set k v rest
  end.

(** JavaScript truthiness. *)
Definition truthy (v : jsval) : bool :=
  match v with
  | JUndefined | JNull => false
  | JBool b => b
  | JNum n => num_truthy n
  | JStr s => negb (String.eqb s "")
  | JArr _ | JObj _ | JErr _ _ => true
  end.

(** [v === "s"] for a string literal. *)
Definition strict_eq_str (v : jsval) (s : string) : bool :=
  match v with
  | JStr s' => String.eqb s' s
  | _ => false
  end.

Definition Error (message : string) : jsval := JErr "Error" message.

(** ** The wire

    A frame on the wire is text.  The text is represented by what
    [JSON.parse] makes of it: either it is not JSON, or it denotes a value.
    [JSON.stringify(v)] is the text denoting [v]. *)

Inductive wire : Type :=
  | Malformed (text : string)
  | WellFormed (v : jsval).

Definition JSON_stringify (v : jsval) : wire := WellFormed v.

Definition SyntaxError (text : string) : jsval := JErr "SyntaxError" text.
Definition TypeError (message : string) : jsval := JErr "TypeError" message.

(** ** Host objects *)

Inductive readyState := CONNECTING | OPEN | CLOSING | CLOSED.

Record WebSocket := {
  sock_url : string;
  sock_state : readyState;
  sock_sent : list wire             (* frames handed to the transport *)
}.

(** What a timer runs when it fires: the three closures the client passes
    to [setTimeout] and [setInterval]. *)
Inductive timer_action :=
  | ReconnectTimer                                   (* [() => this._connectOnce()] *)
  | AckTimeoutTimer (request_id : string) (p : promise_id)
  | HeartbeatTimer.

Record timer := {
  t_action : timer_action;
  t_delay : num;
  t_repeat : bool                   (* [setInterval] rather than [setTimeout] *)
}.

Inductive promise_state :=
  | Pending
  | Fulfilled (v : jsval)
  | Rejected (e : jsval).

(** The promise a call returns: already settled ([Promise.resolve],
    [Promise.reject]) or an entry of the world's table of deferred ones. *)
Inductive promise :=
  | Settled (st : promise_state)
  | Deferred (p : promise_id).

(** The object stored in [_pendingAcks]: its [resolve] closure captures the
    timer and the promise's own [resolve]. *)
Record resolver := {
  res_timer : timer_id;
  res_promise : promise_id
}.


(** ** The client object *)

Record WsClient := {
  url : string;
  ws : option sock_id;                       (* [null] is [None] *)
  _listeners : gmap string (list cb_id);     (* eventType -> Set(callback) *)
  _anyListeners : list cb_id;                (* Set(callback) *)
  _nextRequestId : N;
  _pendingAcks : gmap string resolver;
  _reconnectDelay : num;
  _maxReconnectDelay : num;
  _backoffFactor : num;
  _heartbeatInterval : num;
  _heartbeatTimer : option timer_id;
  _shouldReconnect : bool
}.

(** Assignments to the fields the methods write. *)
Definition set_ws (v : option sock_id) (c : WsClient) : WsClient :=
  {| url := url c; ws := v; _listeners := _listeners c;
     _anyListeners := _anyListeners c; _nextRequestId := _nextRequestId c;
     _pendingAcks := _pendingAcks c; _reconnectDelay := _reconnectDelay c;
     _maxReconnectDelay := _maxReconnectDelay c;
     _backoffFactor := _backoffFactor c;
     _heartbeatInterval := _heartbeatInterval c;
     _heartbeatTimer := _heartbeatTimer c;
     _shouldReconnect := _shouldReconnect c |}.

Definition set_listeners (v : gmap string (list cb_id)) (c : WsClient) : WsClient :=
  {| url := url c; ws := ws c; _listeners := v;
     _anyListeners := _anyListeners c; _nextRequestId := _nextRequestId c;
     _pendingAcks := _pendingAcks c; _reconnectDelay := _reconnectDelay c;
     _maxReconnectDelay := _maxReconnectDelay c;
     _backoffFactor := _backoffFactor c;
     _heartbeatInterval := _heartbeatInterval c;
     _heartbeatTimer := _heartbeatTimer c;
     _shouldReconnect := _shouldReconnect c |}.

Definition set_anyListeners (v : list cb_id) (c : WsClient) : WsClient :=
  {| url := url c; ws := ws c; _listeners := _listeners c;
     _anyListeners := v; _nextRequestId := _nextRequestId c;
     _pendingAcks := _pendingAcks c; _reconnectDelay := _reconnectDelay c;
     _maxReconnectDelay := _maxReconnectDelay c;
     _backoffFactor := _backoffFactor c;
     _heartbeatInterval := _heartbeatInterval c;
     _heartbeatTimer := _heartbeatTimer c;
     _shouldReconnect := _shouldReconnect c |}.

Definition set_nextRequestId (v : N) (c : WsClient) : WsClient :=
  {| url := url c; ws := ws c; _listeners := _listeners c;
     _anyListeners := _anyListeners c; _nextRequestId := v;
     _pendingAcks := _pendingAcks c; _reconnectDelay := _reconnectDelay c;
     _maxReconnectDelay := _maxReconnectDelay c;
     _backoffFactor := _backoffFactor c;
     _heartbeatInterval := _heartbeatInterval c;
     _heartbeatTimer := _heartbeatTimer c;
     _shouldReconnect := _shouldReconnect c |}.

Definition set_pendingAcks (v : gmap string resolver) (c : WsClient) : WsClient :=
  {| url := url c; ws := ws c; _listeners := _listeners c;
     _anyListeners := _anyListeners c; _nextRequestId := _nextRequestId c;
     _pendingAcks := v; _reconnectDelay := _reconnectDelay c;
     _maxReconnectDelay := _maxReconnectDelay c;
     _backoffFactor := _backoffFactor c;
     _heartbeatInterval := _heartbeatInterval c;
     _heartbeatTimer := _heartbeatTimer c;
     _shouldReconnect := _shouldReconnect c |}.

Definition set_reconnectDelay (v : num) (c : WsClient) : WsClient :=
  {| url := url c; ws := ws c; _listeners := _listeners c;
     _anyListeners := _anyListeners c; _nextRequestId := _nextRequestId c;
     _pendingAcks := _pendingAcks c; _reconnectDelay := v;
     _maxReconnectDelay := _maxReconnectDelay c;
     _backoffFactor := _backoffFactor c;
     _heartbeatInterval := _heartbeatInterval c;
     _heartbeatTimer := _heartbeatTimer c;
     _shouldReconnect := _shouldReconnect c |}.

Definition set_heartbeatTimer (v : option timer_id) (c : WsClient) : WsClient :=
  {| url := url c; ws := ws c; _listeners := _listeners c;
     _anyListeners := _anyListeners c; _nextRequestId := _nextRequestId c;
     _pendingAcks := _pendingAcks c; _reconnectDelay := _reconnectDelay c;
     _maxReconnectDelay := _maxReconnectDelay c;
     _backoffFactor := _backoffFactor c;
     _heartbeatInterval := _heartbeatInterval c;
     _heartbeatTimer := v;
     _shouldReconnect := _shouldReconnect c |}.

Definition set_shouldReconnect (v : bool) (c : WsClient) : WsClient :=
  {| url := url c; ws := ws c; _listeners := _listeners c;
     _anyListeners := _anyListeners c; _nextRequestId := _nextRequestId c;
     _pendingAcks := _pendingAcks c; _reconnectDelay := _reconnectDelay c;
     _maxReconnectDelay := _maxReconnectDelay c;
     _backoffFactor := _backoffFactor c;
     _heartbeatInterval := _heartbeatInterval c;
     _heartbeatTimer := _heartbeatTimer c;
     _shouldReconnect := v |}.

(** The options object of the constructor; an absent option is [None]. *)
Record client_opts := {
  reconnectDelay : option num;
  maxReconnectDelay : option num;
  backoffFactor : option num;
  heartbeatInterval : option num
}.

(** [opt || dflt] on an optional number. *)
Definition or_default (opt : option num) (dflt : Q) : num :=
  match opt with
  | Some n => if num_truthy n then n else num_lit dflt
  | None => num_lit dflt
  end.

Definition constructor (u : string) (opts : client_opts) : WsClient :=
  {| url := u;
     ws := None;
     _listeners := ∅;
     _anyListeners := [];
     _nextRequestId := 1%N;
     _pendingAcks := ∅;
     _reconnectDelay := or_default (reconnectDelay opts) 1000;
     _maxReconnectDelay := or_default (maxReconnectDelay opts) 30000;
     _backoffFactor := or_default (backoffFactor opts) 1.6;
     _heartbeatInterval := or_default (heartbeatInterval opts) 20000;
     _heartbeatTimer := None;
     _shouldReconnect := true |}.

(** ** The world: the client and the host around it *)

Record World := {
  this : WsClient;
  sockets : list WebSocket;           (* every [WebSocket] ever constructed *)
  timers : gmap timer_id timer;       (* the live timers *)
  next_timer : timer_id;              (* the handle the next timer gets *)
  promises : list promise_state;      (* the deferred promises *)
  heap : gmap loc props;              (* objects owned by the callers *)
  console : list (string * jsval);    (* [console.error] output *)
  (* Two observation logs, which the client never reads: *)
  calls : list (cb_id * list jsval);  (* every callback invocation, in order *)
  emitted : list (jsval * jsval * jsval)  (* the arguments of every [_emit] *)
}.

Definition update_this (f : WsClient -> WsClient) (w : World) : World :=
  {| this := f (this w); sockets := sockets w; timers := timers w;
     next_timer := next_timer w; promises := promises w; heap := heap w;
     calls := calls w; console := console w; emitted := emitted w |}.

Definition set_sockets (v : list WebSocket) (w : World) : World :=
  {| this := this w; sockets := v; timers := timers w;
     next_timer := next_timer w; promises := promises w; heap := heap w;
     calls := calls w; console := console w; emitted := emitted w |}.

Definition set_timers (v : gmap timer_id timer) (n : timer_id) (w : World) : World :=
  {| this := this w; sockets := sockets w; timers := v;
     next_timer := n; promises := promises w; heap := heap w;
     calls := calls w; console := console w; emitted := emitted w |}.

Definition set_promises (v : list promise_state) (w : World) : World :=
  {| this := this w; sockets := sockets w; timers := timers w;
     next_timer := next_timer w; promises := v; heap := heap w;
     calls := calls w; console := console w; emitted := emitted w |}.

Definition set_calls (v : list (cb_id * list jsval)) (w : World) : World :=
  {| this := this w; sockets := sockets w; timers := timers w;
     next_timer := next_timer w; promises := promises w; heap := heap w;
     calls := v; console := console w; emitted := emitted w |}.

Definition set_console (v : list (string * jsval)) (w : World) : World :=
  {| this := this w; sockets := sockets w; timers := timers w;
     next_timer := next_timer w; promises := promises w; heap := heap w;
     calls := calls w; console := v; emitted := emitted w |}.

Definition set_emitted (v : list (jsval * jsval * jsval)) (w : World) : World :=
  {| this := this w; sockets := sockets w; timers := timers w;
     next_timer := next_timer w; promises := promises w; heap := heap w;
     calls := calls w; console := console w; emitted := v |}.

(** A fresh page: the client just constructed, no socket, timer or promise
    yet, and the objects [h] the callers own. *)
Definition new_world (u : string) (opts : client_opts) (h : gmap loc props) : World :=
  {| this := constructor u opts; sockets := []; timers := ∅;
     next_timer := 1%positive; promises := []; heap := h;
     calls := []; console := []; emitted := [] |}.

(** ** Computations: state and exceptions *)

Inductive completion (A : Type) : Type :=
  | Normal (a : A)
  | Throw (e : jsval).
Arguments Normal {A} a.
Arguments Throw {A} e.

Definition JS (A : Type) : Type := World -> World * completion A.

Definition ret {A} (a : A) : JS A := fun w => (w, Normal a).

Definition bind {A B} (m : JS A) (k : A -> JS B) : JS B :=
  fun w => match m w with
           | (w', Normal a) => k a w'
           | (w', Throw e) => (w', Throw e)
           end.

Definition throw {A} (e : jsval) : JS A := fun w => (w, Throw e).

(** [try { m } catch (e) { handler(e) }] *)
Definition try_catch {A} (m : JS A) (handler : jsval -> JS A) : JS A :=
  fun w => match m w with
           | (w', Normal a) => (w', Normal a)
           | (w', Throw e) => handler e w'
           end.

Definition gets {A} (f : World -> A) : JS A := fun w => (w, Normal (f w)).
Definition modify (f : World -> World) : JS unit := fun w => (f w, Normal tt).

Notation "x <- m ;; k" := (bind m (fun x => k))
  (at level 100, m at next level, right associativity).
Notation "m ;; k" := (bind m (fun _ => k))
  (at level 100, right associativity).

(** [for (const x of l) body(x)] over a snapshot [l]. *)
Fixpoint for_each {A} (l : list A) (body : A -> JS unit) : JS unit :=
  match l with
  | [] => ret tt
  | x :: rest => body x ;; for_each rest body
  end.

(** ** Host primitives *)

(** [new WebSocket(url)]: a new socket, connecting. *)
Definition new_WebSocket (u : string) : JS sock_id :=
  fun w =>
    (set_sockets (sockets w ++ [{| sock_url := u; sock_state := CONNECTING;
                                   sock_sent := [] |}]) w,
     Normal (length (sockets w))).

Definition readyState_of (s : sock_id) (w : World) : option readyState :=
  sock_state <$> sockets w !! s.

Definition set_readyState (s : sock_id) (st : readyState) (w : World) : World :=
  match sockets w !! s with
  | Some sk =>
      set_sockets (<[s := {| sock_url := sock_url sk; sock_state := st;
                             sock_sent := sock_sent sk |}]> (sockets w)) w
  | None => w
  end.

(** [socket.send(data)]: throws while connecting, transmits when open, and
    discards the data when closing or closed. *)
Definition WebSocket_send (s : sock_id) (data : wire) : JS unit :=
  fun w =>
    match sockets w !! s with
    | Some sk =>
        match sock_state sk with
        | CONNECTING => (w, Throw (JErr "InvalidStateError" "Still in CONNECTING state"))
        | OPEN =>
            (set_sockets (<[s := {| sock_url := sock_url sk; sock_state := OPEN;
                                    sock_sent := sock_sent sk ++ [data] |}]>
                            (sockets w)) w,
             Normal tt)
        | CLOSING | CLOSED => (w, Normal tt)
        end
    | None => (w, Normal tt)
    end.

(** [socket.close()]: starts the closing handshake; the close event comes
    later, from the host. *)
Definition WebSocket_close (s : sock_id) : JS unit :=
  fun w =>
    match readyState_of s w with
    | Some CONNECTING | Some OPEN => (set_readyState s CLOSING w, Normal tt)
    | _ => (w, Normal tt)
    end.

(** [setTimeout] and [setInterval]: register a timer under a fresh handle. *)
Definition add_timer (a : timer_action) (delay : num) (repeat : bool) : JS timer_id :=
  fun w =>
    (set_timers (<[next_timer w := {| t_action := a; t_delay := delay;
                                      t_repeat := repeat |}]> (timers w))
                (Pos.succ (next_timer w)) w,
     Normal (next_timer w)).

Definition setTimeout (a : timer_action) (delay : num) : JS timer_id :=
  add_timer a delay false.

Definition setInterval (a : timer_action) (delay : num) : JS timer_id :=
  add_timer a delay true.

(** [clearTimeout] and [clearInterval]. *)
Definition clearTimeout (t : timer_id) : JS unit :=
  modify (fun w => set_timers (delete t (timers w)) (next_timer w) w).

Definition clearInterval (t : timer_id) : JS unit := clearTimeout t.

(** The executor of [new Promise(...)] starts with a pending promise. *)
Definition new_Promise : JS promise_id :=
  fun w => (set_promises (promises w ++ [Pending]) w, Normal (length (promises w))).

(** The [resolve] and [reject] functions of a promise: the first call
    settles it, later calls do nothing. *)
Definition settle (p : promise_id) (st : promise_state) : JS unit :=
  modify (fun w =>
    match promises w !! p with
    | Some Pending => set_promises (<[p := st]> (promises w)) w
    | _ => w
    end).

Definition console_error (label : string) (e : jsval) : JS unit :=
  modify (fun w => set_console (console w ++ [(label, e)]) w).

(** Subscriber callbacks are code of the callers.  The model records each
    invocation with its arguments and lets the callback return or throw;
    what it does may depend on its arguments and on everything it can see.
    Callbacks that call back into the client while a dispatch is running
    are outside the model. *)
Variable outcome : cb_id -> list jsval -> World -> option jsval.

Definition invoke (cb : cb_id) (args : list jsval) : JS unit :=
  fun w =>
    let w' := set_calls (calls w ++ [(cb, args)]) w in
    match outcome cb args w with
    | Some e => (w', Throw e)
    | None => (w', Normal tt)
    end.

(** ** Methods of [WsClient] *)

(** [this._listeners.get(eventType)]: the keys are strings, so any other
    value finds nothing. *)
Definition listeners_get (eventType : jsval) (c : WsClient) : option (list cb_id) :=
  match eventType with
  | JStr s => _listeners c !! s
  | _ => None
  end.

(** [this._pendingAcks.get(request_id)]: likewise. *)
Definition pendingAcks_get (request_id : jsval) (c : WsClient) : option resolver :=
  match request_id with
  | JStr s => _pendingAcks c !! s
  | _ => None
  end.

Definition pendingAcks_delete (request_id : jsval) : JS unit :=
  match request_id with
  | JStr s => modify (update_this (fun c => set_pendingAcks (delete s (_pendingAcks c)) c))
  | _ => ret tt
  end.

(** [set.add(cb)] and [set.delete(cb)] on a set kept in insertion order. *)
Definition Set_add (cb : cb_id) (s : list cb_id) : list cb_id :=
  if bool_decide (cb ∈ s) then s else s ++ [cb].

Definition Set_delete (cb : cb_id) (s : list cb_id) : list cb_id :=
  filter (fun x => x ≠ cb) s.

(** [_emit(eventType, payload, full)].  The first line records the call in
    the observation log; the rest is the method: a guarded pass over a
    snapshot of the subscribers of the type, then one over a snapshot of
    the wildcard subscribers. *)
Definition _emit (eventType payload full : jsval) : JS unit :=
  modify (fun w => set_emitted (emitted w ++ [(eventType, payload, full)]) w) ;;
  s <- gets (fun w => listeners_get eventType (this w)) ;;
  match s with
  | Some s =>
      for_each s (fun cb =>
        try_catch (invoke cb [payload; full])
                  (fun e => console_error "listener error" e))
  | None => ret tt
  end ;;
  any <- gets (fun w => _anyListeners (this w)) ;;
  for_each any (fun cb =>
    try_catch (invoke cb [eventType; payload; full])
              (fun e => console_error "any-listener error" e)).

Definition _stopHeartbeat : JS unit :=
  t <- gets (fun w => _heartbeatTimer (this w)) ;;
  match t with
  | Some t =>
      clearInterval t ;;
      modify (update_this (set_heartbeatTimer None))
  | None => ret tt
  end.

Definition _startHeartbeat : JS unit :=
  _stopHeartbeat ;;
  interval <- gets (fun w => _heartbeatInterval (this w)) ;;
  t <- setInterval HeartbeatTimer interval ;;
  modify (update_this (set_heartbeatTimer (Some t))).

(** Is [this.ws] set and its [readyState] equal to [WebSocket.OPEN]? *)
Definition ws_is_open (w : World) : bool :=
  match ws (this w) with
  | Some s =>
      match readyState_of s w with
      | Some OPEN => true
      | _ => false
      end
  | None => false
  end.

(** The body of the heartbeat interval. *)
Definition heartbeat_tick (now : num) : JS unit :=
  open <- gets ws_is_open ;;
  if open then
    s <- gets (fun w => ws (this w)) ;;
    match s with
    | Some s =>
        try_catch
          (WebSocket_send s (JSON_stringify
             (JObj [("type", JStr "ping"); ("ts", JNum now)])))
          (fun _ => ret tt)
    | None => ret tt
    end
  else ret tt.

(** [resolver.resolve(payload)], the closure stored by [send]. *)
Definition resolver_resolve (r : resolver) (payload : jsval) : JS unit :=
  clearTimeout (res_timer r) ;;
  settle (res_promise r) (Fulfilled payload).

Definition JSON_parse (data : wire) : JS jsval :=
  match data with
  | Malformed text => throw (SyntaxError text)
  | WellFormed v => ret v
  end.

(** [const { type, payload, request_id } = data]: throws on [null] and
    [undefined]; a missing property is [undefined]. *)
Definition destructure (data : jsval) : JS (jsval * jsval * jsval) :=
  match data with
  | JUndefined | JNull => throw (TypeError "Cannot destructure")
  | JObj o => ret (obj_get "type" o, obj_get "payload" o, obj_get "request_id" o)
  | _ => ret (JUndefined, JUndefined, JUndefined)
  end.

(** The four listeners [_connectOnce] attaches to the socket. *)
Definition on_open : JS unit :=
  modify (update_this (set_reconnectDelay (num_lit 1000))) ;;
  _emit (JStr "open") JUndefined JUndefined ;;
  _startHeartbeat.

Definition on_close (ev : jsval) : JS unit :=
  _emit (JStr "close") ev JUndefined ;;
  _stopHeartbeat ;;
  modify (update_this (set_ws None)) ;;
  again <- gets (fun w => _shouldReconnect (this w)) ;;
  if again then
    delay <- gets (fun w => _reconnectDelay (this w)) ;;
    setTimeout ReconnectTimer delay ;;
    modify (update_this (fun c =>
      set_reconnectDelay
        (num_min (num_mul (_reconnectDelay c) (_backoffFactor c))
                 (_maxReconnectDelay c)) c))
  else ret tt.

Definition on_error (err : jsval) : JS unit :=
  _emit (JStr "error") err JUndefined.

Definition on_message (msg : wire) : JS unit :=
  try_catch
    (data <- JSON_parse msg ;;
     fields <- destructure data ;;
     let '(type, payload, request_id) := fields in
     let dispatch :=
       _emit type payload data ;;
       _emit (JStr "*") data JUndefined in
     if strict_eq_str type "ack" && truthy request_id then
       resolver <- gets (fun w => pendingAcks_get request_id (this w)) ;;
       match resolver with
       | Some r =>
           resolver_resolve r payload ;;
           pendingAcks_delete request_id
       | None => dispatch
       end
     else dispatch)
    (fun e => _emit (JStr "error") e JUndefined).

Definition _connectOnce : JS unit :=
  u <- gets (fun w => url (this w)) ;;
  s <- new_WebSocket u ;;
  modify (update_this (set_ws (Some s))).

Definition connect : JS unit :=
  s <- gets (fun w => ws (this w)) ;;
  match s with
  | Some _ => ret tt
  | None =>
      modify (update_this (set_shouldReconnect true)) ;;
      _connectOnce
  end.

Definition disconnect : JS unit :=
  modify (update_this (set_shouldReconnect false)) ;;
  s <- gets (fun w => ws (this w)) ;;
  match s with
  | Some s =>
      WebSocket_close s ;;
      modify (update_this (set_ws None))
  | None => ret tt
  end ;;
  _stopHeartbeat.

(** The options object of [send]; an absent option is [None] and takes the
    default of the parameter list. *)
Record send_opts := {
  awaitAck : option bool;
  timeout : option num
}.

(** [send(obj, opts)], where [obj] is a reference to an object of the
    caller ([undefined] when it refers to nothing). *)
Definition send (obj : loc) (opts : send_opts) : JS promise :=
  let awaitAck := default false (awaitAck opts) in
  let timeout := default (num_lit 5000) (timeout opts) in
  open <- gets ws_is_open ;;
  if negb open then ret (Settled (Rejected (Error "WebSocket is not open")))
  else
    n <- gets (fun w => _nextRequestId (this w)) ;;
    modify (update_this (set_nextRequestId (n + 1)%N)) ;;
    let request_id := String_of_N n in
    o <- gets (fun w => heap w !! obj) ;;
    let packet := obj_set "request_id" (JStr request_id) (default [] o) in
    let json := JSON_stringify (JObj packet) in
    s <- gets (fun w => ws (this w)) ;;
    match s with
    | Some s => WebSocket_send s json
    | None => ret tt
    end ;;
    if negb awaitAck then ret (Settled (Fulfilled JUndefined))
    else
      p <- new_Promise ;;
      timer <- setTimeout (AckTimeoutTimer request_id p) timeout ;;
      modify (update_this (fun c =>
        set_pendingAcks
          (<[request_id := {| res_timer := timer; res_promise := p |}]>
             (_pendingAcks c)) c)) ;;
      ret (Deferred p).

Definition on (eventType : string) (cb : cb_id) : JS unit :=
  if String.eqb eventType "*" then
    modify (update_this (fun c => set_anyListeners (Set_add cb (_anyListeners c)) c))
  else
    modify (update_this (fun c =>
      set_listeners
        (<[eventType := Set_add cb (default [] (_listeners c !! eventType))]>
           (_listeners c)) c)).

Definition off (eventType : string) (cb : cb_id) : JS unit :=
  if String.eqb eventType "*" then
    modify (update_this (fun c => set_anyListeners (Set_delete cb (_anyListeners c)) c))
  else
    modify (update_this (fun c =>
      match _listeners c !! eventType with
      | Some s => set_listeners (<[eventType := Set_delete cb s]> (_listeners c)) c
      | None => c
      end)).

(** The callback of the timeout [send] sets up for an awaited ack. *)
Definition ack_timeout (request_id : string) (p : promise_id) : JS unit :=
  pendingAcks_delete (JStr request_id) ;;
  settle p (Rejected (Error "Ack timeout")).

(** ** The event loop

    Everything that happens to the client: a caller invokes a public
    method, the host delivers a socket event, or a timer fires.  The host
    delivers an event only to a socket in the right state, and a timer
    fires only while it is registered. *)

Inductive event :=
  | Connect
  | Disconnect
  | Send (obj : loc) (opts : send_opts)
  | On (eventType : string) (cb : cb_id)
  | Off (eventType : string) (cb : cb_id)
  | SockOpen (s : sock_id)
  | SockClose (s : sock_id) (ev : jsval)
  | SockError (s : sock_id) (err : jsval)
  | SockMessage (s : sock_id) (msg : wire)
  | TimerFire (t : timer_id) (now : num).

Definition run_timer (a : timer_action) (now : num) : JS unit :=
  match a with
  | ReconnectTimer => _connectOnce
  | AckTimeoutTimer request_id p => ack_timeout request_id p
  | HeartbeatTimer => heartbeat_tick now
  end.

Definition deliver (ev : event) : JS unit :=
  match ev with
  | Connect => connect
  | Disconnect => disconnect
  | Send obj opts => send obj opts ;; ret tt
  | On eventType cb => on eventType cb
  | Off eventType cb => off eventType cb
  | SockOpen s =>
      st <- gets (readyState_of s) ;;
      match st with
      | Some CONNECTING => modify (set_readyState s OPEN) ;; on_open
      | _ => ret tt
      end
  | SockClose s ev =>
      st <- gets (readyState_of s) ;;
      match st with
      | Some CLOSED | None => ret tt
      | Some _ => modify (set_readyState s CLOSED) ;; on_close ev
      end
  | SockError s err =>
      st <- gets (readyState_of s) ;;
      match st with
      | Some _ => on_error err
      | None => ret tt
      end
  | SockMessage s msg =>
      st <- gets (readyState_of s) ;;
      match st with
      | Some OPEN => on_message msg
      | _ => ret tt
      end
  | TimerFire t now =>
      tm <- gets (fun w => timers w !! t) ;;
      match tm with
      | Some tm =>
          (if t_repeat tm then ret tt else clearTimeout t) ;;
          run_timer (t_action tm) now
      | None => ret tt
      end
  end.

Definition step (ev : event) (w : World) : World := fst (deliver ev w).

Definition run (evs : list event) (w : World) : World :=
  fold_left (fun w ev => step ev w) evs w.

(** ** Specification vocabulary: dispatch *)

(** The invocations one pass over a snapshot makes. *)
Definition pass (args : list jsval) (cbs : list cb_id) : list (cb_id * list jsval) :=
  map (fun cb => (cb, args)) cbs.

(** The invocations [_emit(eventType, payload, full)] makes on client [c]:
    the subscribers of the type, then the wildcard subscribers. *)
Definition emit_calls (eventType payload full : jsval) (c : WsClient)
  : list (cb_id * list jsval) :=
  pass [payload; full] (default [] (listeners_get eventType c)) ++
  pass [eventType; payload; full] (_anyListeners c).

(** A world that differs from [w] in its three logs only. *)
Definition logged (em : list (jsval * jsval * jsval))
    (cl : list (cb_id * list jsval)) (co : list (string * jsval)) (w : World) : World :=
  set_console (console w ++ co) (set_calls (calls w ++ cl) (set_emitted (emitted w ++ em) w)).

(** ** Specification vocabulary: awaited acknowledgements

    A send that awaits its ack owns three things: an entry of
    [_pendingAcks], a timeout timer and a pending promise. *)

Definition awaiting (rid : string) (t : timer_id) (p : promise_id) (w : World) : Prop :=
  _pendingAcks (this w) !! rid = Some {| res_timer := t; res_promise := p |} /\
  (exists d, timers w !! t = Some {| t_action := AckTimeoutTimer rid p;
                                     t_delay := d; t_repeat := false |}) /\
  promises w !! p = Some Pending.

(** The invariant of the bookkeeping: timer handles are fresh; every entry
    of the table is keyed by the rendering of a counter value already used
    and has its timer and its pending promise; every ack timer has its
    entry; no promise is shared; the heartbeat handle names a live
    interval. *)
Record wf (w : World) : Prop := {
  wf_fresh : forall t tm, timers w !! t = Some tm -> (t < next_timer w)%positive;
  wf_entry : forall rid r, _pendingAcks (this w) !! rid = Some r ->
    (exists n, rid = String_of_N n /\ (n < _nextRequestId (this w))%N) /\
    awaiting rid (res_timer r) (res_promise r) w;
  wf_timer : forall t tm rid p, timers w !! t = Some tm ->
    t_action tm = AckTimeoutTimer rid p ->
    _pendingAcks (this w) !! rid = Some {| res_timer := t; res_promise := p |};
  wf_promise : forall rid rid' r r',
    _pendingAcks (this w) !! rid = Some r ->
    _pendingAcks (this w) !! rid' = Some r' ->
    res_promise r = res_promise r' -> rid = rid';
  wf_heartbeat : forall t, _heartbeatTimer (this w) = Some t ->
    exists d, timers w !! t = Some {| t_action := HeartbeatTimer;
                                      t_delay := d; t_repeat := true |}
}.

Definition is_ack_timer (tm : timer) : Prop :=
  match t_action tm with
  | AckTimeoutTimer _ _ => True
  | _ => False
  end.

(** A change of the world that leaves the bookkeeping alone: same table,
    same promises, same ack timers, and a counter that did not go back. *)
Record unchanged_acks (w w' : World) : Prop := {
  ua_pending : _pendingAcks (this w') = _pendingAcks (this w);
  ua_counter : (_nextRequestId (this w) <= _nextRequestId (this w'))%N;
  ua_promises : promises w' = promises w;
  ua_timers : forall t tm, is_ack_timer tm ->
    (timers w' !! t = Some tm <-> timers w !! t = Some tm)
}.

Definition quiet (w w' : World) : Prop :=
  wf w -> wf w' /\ unchanged_acks w w'.

Definition quietly {A} (m : JS A) : Prop := forall w, quiet w (fst (m w)).

(** The three bindings of the destructuring, for data it does not throw on. *)
Definition frame_fields (data : jsval) : jsval * jsval * jsval :=
  match data with
  | JObj o => (obj_get "type" o, obj_get "payload" o, obj_get "request_id" o)
  | _ => (JUndefined, JUndefined, JUndefined)
  end.

(** The table entry a frame resolves, if it is an ack that has one. *)
Definition ack_resolver (data : jsval) (c : WsClient) : option resolver :=
  let '(type, _, request_id) := frame_fields data in
  if strict_eq_str type "ack" && truthy request_id
  then pendingAcks_get request_id c
  else None.

(** The world after the ack path: timer cleared, promise fulfilled, entry
    deleted. *)
Definition resolved (r : resolver) (payload request_id : jsval) (w : World) : World :=
  fst ((resolver_resolve r payload ;; pendingAcks_delete request_id) w).

(** What the ack path and the timeout callback do to the bookkeeping:
    entry [rid] goes, its timer goes, its promise is settled with [st]. *)
Record entry_settled (rid : string) (r : resolver) (st : promise_state)
    (w w' : World) : Prop := {
  es_entry : _pendingAcks (this w) !! rid = Some r;
  es_pending : _pendingAcks (this w') = delete rid (_pendingAcks (this w));
  es_counter : _nextRequestId (this w') = _nextRequestId (this w);
  es_heartbeat : _heartbeatTimer (this w') = _heartbeatTimer (this w);
  es_timers : timers w' = delete (res_timer r) (timers w);
  es_next : next_timer w' = next_timer w;
  es_promises : promises w' = <[res_promise r := st]> (promises w)
}.

(** What a send that awaits its ack does to the bookkeeping: it takes the
    next counter value, the next timer handle and a new promise. *)
Record entry_registered (w w' : World) : Prop := {
  er_pending : _pendingAcks (this w')
    = <[String_of_N (_nextRequestId (this w)) :=
          {| res_timer := next_timer w; res_promise := length (promises w) |}]>
        (_pendingAcks (this w));
  er_counter : _nextRequestId (this w') = (_nextRequestId (this w) + 1)%N;
  er_heartbeat : _heartbeatTimer (this w') = _heartbeatTimer (this w);
  er_timers : exists d, timers w'
    = <[next_timer w :=
          {| t_action := AckTimeoutTimer (String_of_N (_nextRequestId (this w)))
                                         (length (promises w));
             t_delay := d; t_repeat := false |}]> (timers w);
  er_next : next_timer w' = Pos.succ (next_timer w);
  er_promises : promises w' = promises w ++ [Pending]
}.

(** The two events that settle the send awaiting under id [rid] with timer
    [t]: its timer fires, or an ack frame carrying [rid] arrives. *)
Definition settling (rid : string) (t : timer_id) (ev : event) : Prop :=
  match ev with
  | TimerFire t' _ => t' = t
  | SockMessage _ (WellFormed data) =>
      (frame_fields data).1.1 = JStr "ack" /\ (frame_fields data).2 = JStr rid
  | _ => False
  end.

(** A computation that completes normally from every world. *)
Definition never_throws {A} (m : JS A) : Prop :=
  forall w, exists a, snd (m w) = Normal a.

(** A computation that does not set the reconnect intent. *)
Definition keeps_intent_off {A} (m : JS A) : Prop :=
  forall w, _shouldReconnect (this w) = false ->
            _shouldReconnect (this (fst (m w))) = false.

(** A request id that was handed out and has no entry any more. *)
Definition retired (rid : string) (w : World) : Prop :=
  (exists n, rid = String_of_N n /\ (n < _nextRequestId (this w))%N) /\
  _pendingAcks (this w) !! rid = None.

(** The worlds the event loop can get to from a fresh page. *)
Definition reachable (w : World) : Prop :=
  exists u opts h evs, w = run evs (new_world u opts h).

(** ** Specification vocabulary: the registry, the timers, the configuration *)

(** The callbacks [on] has registered for an event type and [off] has not
    removed, in dispatch order; ["*"] names the wildcard set. *)
Definition subscribers (eventType : string) (c : WsClient) : list cb_id :=
  if String.eqb eventType "*" then _anyListeners c
  else default [] (_listeners c !! eventType).

Definition registry (w : World) : gmap string (list cb_id) * list cb_id :=
  (_listeners (this w), _anyListeners (this w)).

(** The two events that change the registry. *)
Definition registers (ev : event) : Prop :=
  match ev with
  | On _ _ | Off _ _ => True
  | _ => False
  end.

(** The registry holds sets: no callback twice, and no key ["*"] in the
    map, whose wildcard lives in the separate set. *)
Definition registry_ok (c : WsClient) : Prop :=
  NoDup (_anyListeners c) /\
  (forall eventType s, _listeners c !! eventType = Some s -> NoDup s) /\
  _listeners c !! "*" = None.

(** Every heartbeat timer is the one the client holds the handle of, and
    is an interval of the configured period. *)
Definition heartbeat_ok (w : World) : Prop :=
  forall t tm, timers w !! t = Some tm -> t_action tm = HeartbeatTimer ->
    _heartbeatTimer (this w) = Some t /\
    t_delay tm = _heartbeatInterval (this w) /\
    t_repeat tm = true.

(** What the constructor fixes. *)
Definition configuration (c : WsClient) : string * num * num * num :=
  (url c, _maxReconnectDelay c, _backoffFactor c, _heartbeatInterval c).

(** A computation that keeps a property of the world. *)
Definition preserves {A} (P : World -> Prop) (m : JS A) : Prop :=
  forall w, P w -> P (fst (m w)).

(** A property of the client object that is kept by the assignments the methods make to the fields of the client, the
    registry apart. *)
Record kept_by_assignments (P : WsClient -> Prop) : Prop := {
  kept_ws : forall v c, P c -> P (set_ws v c);
  kept_shouldReconnect : forall v c, P c -> P (set_shouldReconnect v c);
  kept_reconnectDelay : forall v c, P c -> P (set_reconnectDelay v c);
  kept_nextRequestId : forall v c, P c -> P (set_nextRequestId v c);
  kept_pendingAcks : forall v c, P c -> P (set_pendingAcks v c);
  kept_heartbeatTimer : forall v c, P c -> P (set_heartbeatTimer v c)
}.

(** The frame the heartbeat sends. *)
Definition ping_frame (now : num) : wire :=
  JSON_stringify (JObj [("type", JStr "ping"); ("ts", JNum now)]).

(** The socket [sk] after one more frame went out. *)
Definition transmitted (data : wire) (sk : WebSocket) : WebSocket :=
  {| sock_url := sock_url sk; sock_state := sock_state sk;
     sock_sent := sock_sent sk ++ [data] |}.

End Client.

Arguments Normal {num A} a.
Arguments Throw {num A} e.

(** * The collaborators of the client

    The callbacks the dashboard components register with [on], as the
    state updaters they pass to React, and the message handler of the mock
    server the dashboard is developed against. *)

Section Collaborators.

Context {num : Type} `{JsNumber num}.

(** [a === b] on numbers. *)
Variable num_eqb : num -> num -> bool.

(** [a === b].  Objects and arrays are equal only to themselves, and the
    values compared here are decoded from different frames. *)
Definition strict_eq (a b : @jsval num) : bool :=
  match a, b with
  | JUndefined, JUndefined => true
  | JNull, JNull => true
  | JBool x, JBool y => Bool.eqb x y
  | JNum x, JNum y => num_eqb x y
  | JStr x, JStr y => String.eqb x y
  | _, _ => false
  end.

(** [v.k] for a property name no built-in prototype defines ([id], [type],
    [payload], [request_id]): a [TypeError], here [None], on [null] and
    [undefined]; [undefined] on every other value that is not an object
    with that property. *)
Definition get_prop (v : @jsval num) (k : string) : option (@jsval num) :=
  match v with
  | JUndefined | JNull => None
  | JObj o => Some (obj_get k o)
  | _ => Some JUndefined
  end.

(** [[payload, ...prev].slice(0, n)] *)
Definition prepend_capped (n : nat) (payload : @jsval num) (prev : list (@jsval num))
  : list (@jsval num) :=
  take n (payload :: prev).

(** [LiveSignals]: the updater of [onSignal]. *)
Definition onSignal (payload : @jsval num) (prev : list (@jsval num)) : list (@jsval num) :=
  prepend_capped 30 payload prev.

(** [TradeMonitor]: the updater of [onTrade]. *)
Definition onTrade (payload : @jsval num) (prev : list (@jsval num)) : list (@jsval num) :=
  prepend_capped 100 payload prev.

(** [prev.findIndex(p => p.id === payload.id)]: [Some None] is -1, and
    [None] is the [TypeError] of reading [id] off [null] or [undefined]. *)
Fixpoint findIndex_same_id (payload : @jsval num) (prev : list (@jsval num))
  : option (option nat) :=
  match prev with
  | [] => Some None
  | p :: rest =>
      match get_prop p "id", get_prop payload "id" with
      | Some a, Some b =>
          if strict_eq a b then Some (Some 0%nat)
          else match findIndex_same_id payload rest with
               | Some (Some i) => Some (Some (S i))
               | other => other
               end
      | _, _ => None
      end
  end.

(** [null] and [undefined], the two values no property can be read off. *)
Definition is_nullish (v : @jsval num) : bool :=
  match v with
  | JUndefined | JNull => true
  | _ => false
  end.

(** [p.id === payload.id], where both can be read. *)
Definition same_id (p payload : @jsval num) : bool :=
  match get_prop p "id", get_prop payload "id" with
  | Some a, Some b => strict_eq a b
  | _, _ => false
  end.

(** [TradeMonitor]: [onPosition].  An array replaces the positions; a
    single position replaces the first one with its [id], or is put in
    front, the list cut to 50.  [None] when the updater throws. *)
Definition onPosition (payload : @jsval num) (prev : list (@jsval num))
  : option (list (@jsval num)) :=
  match payload with
  | JArr items => Some items
  | _ =>
      match findIndex_same_id payload prev with
      | None => None
      | Some None => Some (take 50 (payload :: prev))
      | Some (Some idx) => Some (<[idx := payload]> prev)
      end
  end.

(** [v || null] *)
Definition or_null (v : @jsval num) : @jsval num := if truthy v then v else JNull.

(** The properties of an object literal that [JSON.stringify] writes:
    those whose value is not [undefined]. *)
Fixpoint written (o : @props num) : @props num :=
  match o with
  | [] => []
  | (k, v) :: rest =>
      match v with
      | JUndefined => written rest
      | _ => (k, v) :: written rest
      end
  end.

(** The mock server's reply to a ping. *)
Definition pong_frame (request_id : @jsval num) (now : num) : @wire num :=
  JSON_stringify
    (JObj [("type", JStr "ack"); ("request_id", or_null request_id);
           ("payload", JObj [("pong", JNum now)])]).

(** The mock server's reply to a command. *)
Definition command_ack_frame (request_id cmd : @jsval num) : @wire num :=
  JSON_stringify
    (JObj [("type", JStr "ack"); ("request_id", or_null request_id);
           ("payload", JObj (written [("ok", JBool true); ("cmd", cmd)]))]).

(** The mock server's handler of a message from the client, on a
    connection whose frames to the client so far are [out]: it answers a
    ping and a command with an ack, and ignores everything else, what it
    cannot parse included. *)
Definition mock_on_message (msg : @wire num) (now : num) (out : list (@wire num))
  : list (@wire num) :=
  match msg with
  | Malformed _ => out
  | WellFormed data =>
      match get_prop data "type", get_prop data "request_id",
            get_prop data "payload" with
      | Some type, Some request_id, Some payload =>
          if strict_eq_str type "ping" then out ++ [pong_frame request_id now]
          else if strict_eq_str type "command"
               then out ++ [command_ack_frame request_id payload]
               else out
      | _, _, _ => out
      end
  end.

(** [broadcast(ws, type, payload = {})] of the mock server. *)
Definition broadcast (type payload : @jsval num) (out : list (@wire num))
  : list (@wire num) :=
  let payload := match payload with JUndefined => JObj [] | _ => payload end in
  out ++ [JSON_stringify (JObj (written [("type", type); ("payload", payload)]))].

End Collaborators.

(** * Scenarios

    Concrete pages over exact arithmetic, used to run the client on the
    examples of its specification. *)

(** Subscribers that always return normally. *)
Definition returns : cb_id -> list (@jsval Q) -> @World Q -> option (@jsval Q) :=
  fun _ _ _ => None.

Definition url_of_page : string := "ws://localhost:8000/ws".

(** [new WsClient(url)] without options. *)
Definition no_opts : @client_opts Q :=
  {| reconnectDelay := None; maxReconnectDelay := None;
     backoffFactor := None; heartbeatInterval := None |}.

(** [{ type: "command", payload: { action: "ping" } }], owned by the caller. *)
Definition ping_command : @props Q :=
  [("type", JStr "command"); ("payload", JObj [("action", JStr "ping")])].

(** A fresh page with a default client and the command at reference 0. *)
Definition page : @World Q := new_world url_of_page no_opts {[ 0%nat := ping_command ]}.

(** The page once the transport is open (socket 0, heartbeat timer 1). *)
Definition open_page : @World Q := run returns [Connect; SockOpen 0%nat] page.

(** [{"type":"trade","payload":{"id":1,"pnl":2.5}}] *)
Definition trade_payload : @jsval Q := JObj [("id", JNum 1%Q); ("pnl", JNum 2.5%Q)].
Definition trade_frame : @jsval Q :=
  JObj [("type", JStr "trade"); ("payload", trade_payload)].

(** One subscriber on ["trade"] (callback 7) and one on ["*"] (callback 9). *)
Definition trade_page : @World Q :=
  run returns [On "trade" 7%nat; On "*" 9%nat] open_page.

(** Subscribers of which callback 7 throws on every call. *)
Definition faulty : cb_id -> list (@jsval Q) -> @World Q -> option (@jsval Q) :=
  fun cb _ _ => if Nat.eqb cb 7 then Some (Error "boom") else None.

(** [{"payload":1}]: a JSON object without [type]. *)
Definition untyped_frame : @jsval Q := JObj [("payload", JNum 1%Q)].

(** One subscriber on ["error"] (callback 4) and one on ["*"] (callback 9). *)
Definition error_page : @World Q :=
  run returns [On "error" 4%nat; On "*" 9%nat] open_page.

(** [{"type":"ack","request_id":"1","payload":{"ok":true}}] *)
Definition ack_payload : @jsval Q := JObj [("ok", JBool true)].
Definition ack_frame : @jsval Q :=
  JObj [("type", JStr "ack"); ("request_id", JStr "1"); ("payload", ack_payload)].

(** [send(command, { awaitAck: true, timeout: 100 })] *)
Definition await_100 : @send_opts Q := {| awaitAck := Some true; timeout := Some 100%Q |}.

(** One subscriber on ["ack"] (callback 3); the command was sent awaiting
    its ack: request id ["1"], timeout timer 2, promise 0. *)
Definition awaiting_page : @World Q :=
  run returns [On "ack" 3%nat; Send 0%nat await_100] open_page.

(** [new WsClient(url, { reconnectDelay: 500 })], connecting. *)
Definition opts_500 : @client_opts Q :=
  {| reconnectDelay := Some 500%Q; maxReconnectDelay := None;
     backoffFactor := None; heartbeatInterval := None |}.
Definition page_500 : @World Q :=
  run returns [Connect] (new_world url_of_page opts_500 ∅).

(** [{ reconnectDelay: 1000, backoffFactor: 2, maxReconnectDelay: 5000 }] *)
Definition backoff_opts : @client_opts Q :=
  {| reconnectDelay := Some 1000%Q; maxReconnectDelay := Some 5000%Q;
     backoffFactor := Some 2%Q; heartbeatInterval := None |}.

(** The client connects; then each attempt fails: socket [k] closes before
    it opens, and the reconnect timer [k + 1] fires and makes socket
    [k + 1].  [closes k] is the page after [k] such closes. *)
Fixpoint failed_attempts (k : nat) (first : nat) : list (@event Q) :=
  match k with
  | O => []
  | S k' =>
      SockClose first JNull
      :: match k' with
         | O => []
         | S _ => TimerFire (Pos.of_nat (S first)) 0%Q
                  :: failed_attempts k' (S first)
         end
  end.

Definition closes (k : nat) : @World Q :=
  run returns (Connect :: failed_attempts k 0) (new_world url_of_page backoff_opts ∅).

(** The page while the first transport (socket 0) is still connecting. *)
Definition connecting_page : @World Q := run returns [Connect] page.

(** The first attempt failed and the reconnect timer (handle 1) is
    pending; then the page called [disconnect()]. *)
Definition cancelled_page : @World Q := run returns [Disconnect] (closes 1).

(** A second awaited send on top of the first: request id ["2"], timeout
    timer 3, promise 1. *)
Definition two_awaiting_page : @World Q :=
  run returns [Send 0%nat await_100] awaiting_page.

(** The heartbeat interval of the open page, under handle 1. *)
Definition heartbeat_of_page : @timer Q :=
  {| t_action := HeartbeatTimer; t_delay := 20000%Q; t_repeat := true |}.

(** The open socket of the open page, nothing sent yet. *)
Definition open_socket : @WebSocket Q :=
  {| sock_url := url_of_page; sock_state := OPEN; sock_sent := [] |}.

(** [{"id":1,"pnl":0}] held by the monitor, [{"id":1,"pnl":2.5}] coming in. *)
Definition held_position : @jsval Q := JObj [("id", JNum 1%Q); ("pnl", JNum 0%Q)].

(** The delay of the reconnect timer registered under handle [t]. *)
Definition reconnect_delay (t : timer_id) (w : @World Q) : option Q :=
  match timers w !! t with
  | Some {| t_action := ReconnectTimer; t_delay := d |} => Some d
  | _ => None
  end.

(** * Properties of the client *)

Section Properties.

Context {num : Type} `{JsNumber num}.

(** Unfolding of the operations that depend on the callbacks. *)
Ltac unfold_step := unfold step.
Ltac unfold_run := unfold run.
Ltac unfold_on_open := unfold on_open.
Ltac unfold_on_close := unfold on_close.
Ltac unfold_on_message := unfold on_message.
Ltac unfold_awaiting := unfold awaiting.

(** What the subscriber callbacks do is arbitrary. *)
Variable outcome : nat -> list (@jsval num) -> @World num -> option (@jsval num).

Local Abbreviation World := (@World num).
Local Abbreviation jsval := (@jsval num).
Local Abbreviation JS := (@JS num).
Local Abbreviation WsClient := (@WsClient num).
Local Abbreviation logged := (@logged num).
Local Abbreviation wf := (@wf num).
Local Abbreviation awaiting := (@awaiting num).
Local Abbreviation retired := (@retired num).
Local Abbreviation quiet := (@quiet num).
Local Abbreviation quietly := (@quietly num _).
Local Abbreviation never_throws := (@never_throws num _).
Local Abbreviation keeps_intent_off := (@keeps_intent_off num _).
Local Abbreviation preserves := (@preserves num _).
Local Abbreviation registry := (@registry num).
Local Abbreviation heartbeat_ok := (@heartbeat_ok num).
Local Abbreviation invoke := (invoke outcome).
Local Abbreviation _emit := (_emit outcome).
Local Abbreviation on_open := (on_open outcome).
Local Abbreviation on_close := (on_close outcome).
Local Abbreviation on_error := (on_error outcome).
Local Abbreviation on_message := (on_message outcome).
Local Abbreviation deliver := (deliver outcome).
Local Abbreviation step := (step outcome).
Local Abbreviation run := (run outcome).
Local Abbreviation reachable := (reachable outcome).

Lemma logged_logged em cl co em' cl' co' (w : World) :
  logged em' cl' co' (logged em cl co w) = logged (em ++ em') (cl ++ cl') (co ++ co') w.
Proof.
  unfold logged, set_console, set_calls, set_emitted; simpl.
  by rewrite !app_assoc.
Qed.

Lemma logged_nil (w : World) : logged [] [] [] w = w.
Proof.
  destruct w. unfold logged, set_console, set_calls, set_emitted; simpl.
  by rewrite !app_nil_r.
Qed.

(** A guarded invocation logs the call and completes normally, whether the
    callback returns or throws. *)
Lemma guarded_invoke label args cb w :
  exists co,
    try_catch (invoke cb args) (fun e => console_error label e) w
    = (logged [] [(cb, args)] co w, Normal tt).
Proof.
  unfold try_catch, invoke, console_error, modify.
  destruct (outcome cb args w) as [e|].
  - exists [(label, e)]. f_equal.
    unfold logged, set_console, set_calls, set_emitted; simpl.
    by rewrite !app_nil_r.
  - exists []. f_equal.
    unfold logged, set_console, set_calls, set_emitted; simpl.
    by rewrite !app_nil_r.
Qed.

(** One pass invokes every callback of the snapshot, in order, and
    completes normally. *)
Lemma for_each_logged args (body : cb_id -> JS unit) :
  (forall cb w, exists co, body cb w = (logged [] [(cb, args)] co w, Normal tt)) ->
  forall cbs w, exists co,
    for_each cbs body w = (logged [] (pass args cbs) co w, Normal tt).
Proof.
  intros Hbody. induction cbs as [|cb cbs IH]; intros w.
  - exists []. simpl. by rewrite logged_nil.
  - simpl. unfold bind.
    destruct (Hbody cb w) as [co1 ->].
    match goal with |- context [for_each cbs body ?w1] =>
      destruct (IH w1) as [co2 ->] end.
    exists (co1 ++ co2). by rewrite logged_logged.
Qed.

Lemma for_each_pass label args cbs w :
  exists co,
    for_each cbs (fun cb => try_catch (invoke cb args)
                                      (fun e => console_error label e)) w
    = (logged [] (pass args cbs) co w, Normal tt).
Proof.
  apply for_each_logged. intros cb w'. apply guarded_invoke.
Qed.

Lemma _emit_run eventType payload full w :
  exists co,
    _emit eventType payload full w
    = (logged [(eventType, payload, full)]
              (emit_calls eventType payload full (this w)) co w, Normal tt).
Proof.
  unfold _emit, bind, gets, modify. simpl.
  set (w1 := set_emitted _ w).
  assert (Hw1 : w1 = logged [(eventType, payload, full)] [] [] w).
  { unfold w1, logged, set_console, set_calls, set_emitted. simpl.
    by rewrite !app_nil_r. }
  destruct (listeners_get eventType (this w)) as [s|] eqn:Hs.
  - destruct (for_each_pass "listener error" [payload; full] s w1) as [co1 ->].
    match goal with |- context [for_each ?l _ ?w2] =>
      destruct (for_each_pass "any-listener error" [eventType; payload; full] l w2)
        as [co2 ->] end.
    exists (co1 ++ co2). f_equal. rewrite Hw1, !logged_logged.
    unfold emit_calls. by rewrite Hs.
  - unfold ret.
    match goal with |- context [for_each ?l _ ?w2] =>
      destruct (for_each_pass "any-listener error" [eventType; payload; full] l w2)
        as [co2 ->] end.
    exists co2. f_equal. rewrite Hw1, !logged_logged.
    unfold emit_calls. by rewrite Hs.
Qed.

Lemma quiet_refl w : quiet w w.
Proof. intros Hwf. split; [done|]. by split. Qed.

Lemma quiet_trans w1 w2 w3 : quiet w1 w2 -> quiet w2 w3 -> quiet w1 w3.
Proof.
  intros H12 H23 Hwf. destruct (H12 Hwf) as [Hwf2 U12].
  destruct (H23 Hwf2) as [Hwf3 U23]. split; [done|].
  destruct U12, U23. split.
  - congruence.
  - lia.
  - congruence.
  - intros t tm Hack. by rewrite ua_timers1, ua_timers0.
Qed.

Lemma quietly_ret {A} (a : A) : quietly (ret a).
Proof. intros w. apply quiet_refl. Qed.

Lemma quietly_gets {A} (f : World -> A) : quietly (gets f).
Proof. intros w. apply quiet_refl. Qed.

Lemma quietly_throw {A} (e : jsval) : quietly (throw e : JS A).
Proof. intros w. apply quiet_refl. Qed.

Lemma quietly_bind {A B} (m : JS A) (k : A -> JS B) :
  quietly m -> (forall a, quietly (k a)) -> quietly (bind m k).
Proof.
  intros Hm Hk w. unfold bind. specialize (Hm w).
  destruct (m w) as [w' [a|e]]; simpl in *; [|done].
  eapply quiet_trans; [done|]. apply Hk.
Qed.

Lemma quietly_try_catch {A} (m : JS A) (h : jsval -> JS A) :
  quietly m -> (forall e, quietly (h e)) -> quietly (try_catch m h).
Proof.
  intros Hm Hh w. unfold try_catch. specialize (Hm w).
  destruct (m w) as [w' [a|e]]; simpl in *; [done|].
  eapply quiet_trans; [done|]. apply Hh.
Qed.

(** The bookkeeping reads six components of the world; a change that
    keeps them is quiet. *)
Lemma quiet_same w w' :
  _pendingAcks (this w') = _pendingAcks (this w) ->
  _nextRequestId (this w') = _nextRequestId (this w) ->
  _heartbeatTimer (this w') = _heartbeatTimer (this w) ->
  timers w' = timers w -> next_timer w' = next_timer w ->
  promises w' = promises w ->
  quiet w w'.
Proof.
  intros Hp Hn Hh Ht Hnt Hps [W1 W2 W3 W4 W5]. split.
  - split.
    + rewrite Ht, Hnt. done.
    + rewrite Hp, Hn. intros rid r Hr. destruct (W2 rid r Hr) as [Hn' Ha].
      split; [done|]. unfold awaiting in *. by rewrite Hp, Ht, Hps.
    + rewrite Hp, Ht. done.
    + rewrite Hp. done.
    + rewrite Hh, Ht. done.
  - split; [done|lia|done|]. intros. by rewrite Ht.
Qed.

Lemma quietly_modify (f : World -> World) :
  (forall w, _pendingAcks (this (f w)) = _pendingAcks (this w)) ->
  (forall w, _nextRequestId (this (f w)) = _nextRequestId (this w)) ->
  (forall w, _heartbeatTimer (this (f w)) = _heartbeatTimer (this w)) ->
  (forall w, timers (f w) = timers w) ->
  (forall w, next_timer (f w) = next_timer w) ->
  (forall w, promises (f w) = promises w) ->
  quietly (modify f).
Proof. intros. intros w. simpl. by apply quiet_same. Qed.

(** Cancelling or firing a timer that is not an ack timer is quiet, as
    long as the heartbeat handle does not keep naming it. *)
Lemma quiet_delete_timer w w' t :
  (forall tm, timers w !! t = Some tm -> ~ is_ack_timer tm) ->
  _pendingAcks (this w') = _pendingAcks (this w) ->
  _nextRequestId (this w') = _nextRequestId (this w) ->
  (_heartbeatTimer (this w') = None \/
   (_heartbeatTimer (this w') = _heartbeatTimer (this w) /\
    _heartbeatTimer (this w) <> Some t)) ->
  timers w' = delete t (timers w) -> next_timer w' = next_timer w ->
  promises w' = promises w ->
  quiet w w'.
Proof.
  intros Hna Hp Hn Hh Ht Hnt Hps [W1 W2 W3 W4 W5].
  assert (Hkeep : forall t' tm, is_ack_timer tm ->
            timers w !! t' = Some tm -> delete t (timers w) !! t' = Some tm).
  { intros t' tm Hack Hl. rewrite lookup_delete_ne; [done|].
    intros ->. by apply (Hna tm). }
  split.
  - split.
    + rewrite Ht, Hnt. intros t' tm Hl.
      apply lookup_delete_Some in Hl as [_ Hl]. eauto.
    + rewrite Hp, Hn. intros rid r Hr. destruct (W2 rid r Hr) as [Hn' Ha].
      split; [done|]. destruct Ha as (Ha1 & [d Ha2] & Ha3).
      unfold awaiting. rewrite Hp, Ht, Hps. split_and!; [done| |done].
      exists d. by apply Hkeep.
    + rewrite Hp, Ht. intros t' tm rid p Hl.
      apply lookup_delete_Some in Hl as [_ Hl]. eauto.
    + rewrite Hp. done.
    + intros t' Hhb. destruct Hh as [Hh|[Hh Hne]]; [congruence|].
      rewrite Hh in Hhb. destruct (W5 t' Hhb) as [d Hd]. exists d.
      rewrite Ht, lookup_delete_ne; [done|]. congruence.
  - split; [done|lia|done|]. intros t' tm Hack. rewrite Ht. split.
    + intros Hl. by apply lookup_delete_Some in Hl as [_ Hl].
    + by apply Hkeep.
Qed.

(** Registering a timer that is not an ack timer is quiet; the heartbeat
    handle may be set to it when it is a heartbeat interval. *)
Lemma quiet_add_timer w w' tm :
  ~ is_ack_timer tm ->
  _pendingAcks (this w') = _pendingAcks (this w) ->
  _nextRequestId (this w') = _nextRequestId (this w) ->
  (_heartbeatTimer (this w') = _heartbeatTimer (this w) \/
   (_heartbeatTimer (this w') = Some (next_timer w) /\
    t_action tm = HeartbeatTimer /\ t_repeat tm = true)) ->
  timers w' = <[next_timer w := tm]> (timers w) ->
  next_timer w' = Pos.succ (next_timer w) ->
  promises w' = promises w ->
  quiet w w'.
Proof.
  intros Hna Hp Hn Hh Ht Hnt Hps [W1 W2 W3 W4 W5].
  assert (Hnone : timers w !! next_timer w = None).
  { destruct (timers w !! next_timer w) as [tm'|] eqn:E; [|done].
    apply W1 in E. lia. }
  split.
  - split.
    + rewrite Ht, Hnt. intros t' tm' Hl.
      apply lookup_insert_Some in Hl as [[<- _]|[_ Hl]]; [lia|].
      apply W1 in Hl. lia.
    + rewrite Hp, Hn. intros rid r Hr. destruct (W2 rid r Hr) as [Hn' Ha].
      split; [done|]. destruct Ha as (Ha1 & [d Ha2] & Ha3).
      unfold awaiting. rewrite Hp, Ht, Hps. split_and!; [done| |done].
      exists d. rewrite lookup_insert_ne; [done|]. congruence.
    + rewrite Hp, Ht. intros t' tm' rid p Hl Hact.
      apply lookup_insert_Some in Hl as [[_ <-]|[_ Hl]]; [|eauto].
      exfalso. apply Hna. unfold is_ack_timer. by rewrite Hact.
    + rewrite Hp. done.
    + intros t' Hhb. rewrite Ht. destruct Hh as [Hh|(Hh & Ha & Hr)].
      * rewrite Hh in Hhb. destruct (W5 t' Hhb) as [d Hd]. exists d.
        rewrite lookup_insert_ne; [done|]. congruence.
      * assert (t' = next_timer w) as -> by congruence.
        exists (t_delay tm). rewrite lookup_insert_eq.
        destruct tm; simpl in *. by subst.
  - split; [done|lia|done|]. intros t' tm' Hack. rewrite Ht. split.
    + intros Hl. apply lookup_insert_Some in Hl as [[_ <-]|[_ Hl]]; done.
    + intros Hl. rewrite lookup_insert_ne; [done|]. congruence.
Qed.

Lemma quietly_emit eventType payload full : quietly (_emit eventType payload full).
Proof.
  intros w. destruct (_emit_run eventType payload full w) as [co ->].
  by apply quiet_same.
Qed.

Lemma quietly_new_WebSocket u : quietly (new_WebSocket u).
Proof. intros w. by apply quiet_same. Qed.

Lemma quietly_set_readyState s st : quietly (modify (set_readyState s st)).
Proof.
  intros w. simpl. unfold set_readyState.
  destruct (sockets w !! s); by apply quiet_same.
Qed.

Lemma quietly_WebSocket_send s data : quietly (WebSocket_send s data).
Proof.
  intros w. unfold WebSocket_send.
  destruct (sockets w !! s) as [sk|]; [|apply quiet_refl].
  destruct (sock_state sk); simpl; by apply quiet_same.
Qed.

Lemma quietly_WebSocket_close s : quietly (WebSocket_close s).
Proof.
  intros w. unfold WebSocket_close.
  destruct (readyState_of s w) as [[]|]; simpl;
    try apply quiet_refl; apply (quietly_set_readyState s CLOSING w).
Qed.

Lemma quietly_stopHeartbeat : quietly _stopHeartbeat.
Proof.
  intros w. unfold _stopHeartbeat, bind, gets, clearInterval, clearTimeout, modify.
  destruct (_heartbeatTimer (this w)) as [t|] eqn:Hhb; simpl; [|apply quiet_refl].
  intros Hwf.
  refine (quiet_delete_timer w _ t _ _ _ _ _ _ _ Hwf); simpl; try done; [|by left].
  intros tm Hl Hack. destruct (wf_heartbeat w Hwf t Hhb) as [d Hd].
  rewrite Hd in Hl. injection Hl as <-. done.
Qed.

Lemma quietly_startHeartbeat : quietly _startHeartbeat.
Proof.
  unfold _startHeartbeat.
  apply quietly_bind; [apply quietly_stopHeartbeat|intros _].
  apply quietly_bind; [apply quietly_gets|intros d].
  intros w. unfold bind, setInterval, add_timer, modify. simpl.
  intros Hwf.
  refine (quiet_add_timer w _ {| t_action := HeartbeatTimer; t_delay := d;
                                 t_repeat := true |} _ _ _ _ _ _ _ Hwf);
    simpl; try done; [unfold is_ack_timer; simpl; tauto|by right].
Qed.

Lemma quietly_setTimeout_reconnect d : quietly (setTimeout ReconnectTimer d).
Proof.
  intros w. unfold setTimeout, add_timer. simpl. intros Hwf.
  refine (quiet_add_timer w _ {| t_action := ReconnectTimer; t_delay := d;
                                 t_repeat := false |} _ _ _ _ _ _ _ Hwf);
    simpl; try done; [unfold is_ack_timer; simpl; tauto|by left].
Qed.

Lemma quietly_heartbeat_tick now : quietly (heartbeat_tick now).
Proof.
  unfold heartbeat_tick.
  apply quietly_bind; [apply quietly_gets|intros [|]]; [|apply quietly_ret].
  apply quietly_bind; [apply quietly_gets|intros [s|]]; [|apply quietly_ret].
  apply quietly_try_catch; [apply quietly_WebSocket_send|intros; apply quietly_ret].
Qed.

Lemma quietly_connectOnce : quietly _connectOnce.
Proof.
  unfold _connectOnce.
  apply quietly_bind; [apply quietly_gets|intros u].
  apply quietly_bind; [apply quietly_new_WebSocket|intros s].
  by apply quietly_modify.
Qed.

Lemma quietly_connect : quietly connect.
Proof.
  unfold connect.
  apply quietly_bind; [apply quietly_gets|intros [s|]]; [apply quietly_ret|].
  apply quietly_bind; [by apply quietly_modify|intros _].
  apply quietly_connectOnce.
Qed.

Lemma quietly_disconnect : quietly disconnect.
Proof.
  unfold disconnect.
  apply quietly_bind; [by apply quietly_modify|intros _].
  apply quietly_bind; [apply quietly_gets|intros s].
  apply quietly_bind; [|intros _; apply quietly_stopHeartbeat].
  destruct s as [s|]; [|apply quietly_ret].
  apply quietly_bind; [apply quietly_WebSocket_close|intros _].
  by apply quietly_modify.
Qed.

Lemma quietly_on eventType cb : quietly (on eventType cb).
Proof. unfold on. destruct (String.eqb eventType "*"); by apply quietly_modify. Qed.

Lemma quietly_off eventType cb : quietly (off eventType cb).
Proof.
  unfold off. destruct (String.eqb eventType "*").
  - by apply quietly_modify.
  - apply quietly_modify; intros w; simpl;
      by destruct (_listeners (this w) !! eventType).
Qed.

Lemma quietly_on_open : quietly on_open.
Proof.
  unfold on_open.
  apply quietly_bind; [by apply quietly_modify|intros _].
  apply quietly_bind; [apply quietly_emit|intros _].
  apply quietly_startHeartbeat.
Qed.

Lemma quietly_on_close ev : quietly (on_close ev).
Proof.
  unfold on_close.
  apply quietly_bind; [apply quietly_emit|intros _].
  apply quietly_bind; [apply quietly_stopHeartbeat|intros _].
  apply quietly_bind; [by apply quietly_modify|intros _].
  apply quietly_bind; [apply quietly_gets|intros [|]]; [|apply quietly_ret].
  apply quietly_bind; [apply quietly_gets|intros d].
  apply quietly_bind; [apply quietly_setTimeout_reconnect|intros _].
  by apply quietly_modify.
Qed.

Lemma quietly_on_error err : quietly (on_error err).
Proof. apply quietly_emit. Qed.


Lemma on_message_malformed text w :
  exists co,
    on_message (Malformed text) w
    = (logged [(JStr "error", SyntaxError text, JUndefined)]
              (emit_calls (JStr "error") (SyntaxError text) JUndefined (this w))
              co w, Normal tt).
Proof.
  unfold on_message, try_catch, bind. simpl. unfold throw.
  apply _emit_run.
Qed.

Lemma on_message_nullish data w :
  data = JNull \/ data = JUndefined ->
  exists co,
    on_message (WellFormed data) w
    = (logged [(JStr "error", TypeError "Cannot destructure", JUndefined)]
              (emit_calls (JStr "error") (TypeError "Cannot destructure")
                          JUndefined (this w))
              co w, Normal tt).
Proof.
  intros [-> | ->]; unfold on_message, try_catch, bind; simpl; unfold throw;
    apply _emit_run.
Qed.

Lemma destructure_frame_fields (data : jsval) (w : World) :
  data <> JNull -> data <> JUndefined ->
  destructure data w = (w, Normal (frame_fields data)).
Proof. intros ? ?. by destruct data. Qed.

Lemma dispatch_run type payload data w :
  exists co,
    bind (_emit type payload data) (fun _ => _emit (JStr "*") data JUndefined) w
    = (logged [(type, payload, data); (JStr "*", data, JUndefined)]
              (emit_calls type payload data (this w) ++
               emit_calls (JStr "*") data JUndefined (this w))
              co w, Normal tt).
Proof.
  unfold bind. destruct (_emit_run type payload data w) as [co1 ->].
  match goal with |- context [_emit _ _ _ ?w1] =>
    destruct (_emit_run (JStr "*") data JUndefined w1) as [co2 ->] end.
  exists (co1 ++ co2). by rewrite logged_logged.
Qed.

(** A frame that resolves no entry is dispatched: to its type, and to
    ["*"]. *)
Lemma on_message_dispatch data w :
  data <> JNull -> data <> JUndefined ->
  ack_resolver data (this w) = None ->
  exists co,
    on_message (WellFormed data) w
    = (logged [((frame_fields data).1.1, (frame_fields data).1.2, data);
               (JStr "*", data, JUndefined)]
              (emit_calls (frame_fields data).1.1 (frame_fields data).1.2 data (this w) ++
               emit_calls (JStr "*") data JUndefined (this w))
              co w, Normal tt).
Proof.
  intros Hn Hu Hno. unfold on_message, try_catch. unfold bind at 1.
  unfold JSON_parse, ret. unfold bind at 1.
  rewrite destructure_frame_fields by done.
  unfold ack_resolver in Hno.
  destruct (frame_fields data) as [[type payload] request_id]. simpl.
  destruct (dispatch_run type payload data w) as [co Hd].
  destruct (strict_eq_str type "ack" && truthy request_id).
  - unfold bind at 1, gets. rewrite Hno, Hd. by exists co.
  - rewrite Hd. by exists co.
Qed.

(** An ack that has an entry resolves it and is not dispatched. *)
Lemma on_message_ack data r w :
  ack_resolver data (this w) = Some r ->
  on_message (WellFormed data) w
  = (resolved r (frame_fields data).1.2 (frame_fields data).2 w, Normal tt).
Proof.
  intros Hr. unfold on_message, try_catch. unfold bind at 1.
  unfold JSON_parse, ret. unfold bind at 1.
  assert (data <> JNull /\ data <> JUndefined) as [Hn Hu].
  { split; intros ->; discriminate. }
  rewrite destructure_frame_fields by done.
  unfold ack_resolver in Hr. unfold resolved.
  destruct (frame_fields data) as [[type payload] request_id]. simpl.
  destruct (strict_eq_str type "ack" && truthy request_id); [|done].
  unfold bind at 1, gets. rewrite Hr.
  unfold bind, resolver_resolve, clearTimeout, settle, modify, pendingAcks_delete.
  destruct request_id; done.
Qed.

(** ** Request ids *)

Lemma String_of_N_inj m n : String_of_N m = String_of_N n -> m = n.
Proof.
  unfold String_of_N. intros Heq.
  apply (f_equal NilEmpty.uint_of_string) in Heq.
  rewrite !NilEmpty.usu in Heq. injection Heq as Heq.
  apply (f_equal N.of_uint) in Heq.
  by rewrite !DecimalN.Unsigned.of_to in Heq.
Qed.

(** ** [send] *)

Lemma ws_is_open_inv (w : World) :
  ws_is_open w = true ->
  exists s sk, ws (this w) = Some s /\ sockets w !! s = Some sk /\ sock_state sk = OPEN.
Proof.
  unfold ws_is_open, readyState_of. destruct (ws (this w)) as [s|]; [|done].
  destruct (sockets w !! s) as [sk|] eqn:Hsk; simpl; [|done].
  destruct (sock_state sk) eqn:Hst; try done. intros _. by exists s, sk.
Qed.

Lemma send_not_open obj opts (w : World) :
  ws_is_open w = false ->
  send obj opts w = (w, Normal (Settled (Rejected (Error "WebSocket is not open")))).
Proof. intros Hc. unfold send, bind, gets. by rewrite Hc. Qed.

(** The world after the transmission of [send], before any ack
    bookkeeping: the counter moved on and the packet went out. *)
Lemma send_open obj opts (w : World) s sk :
  ws (this w) = Some s -> sockets w !! s = Some sk -> sock_state sk = OPEN ->
  let n := _nextRequestId (this w) in
  let rid := String_of_N n in
  let packet := obj_set "request_id" (JStr rid) (default [] (heap w !! obj)) in
  let w1 := set_sockets
              (<[s := {| sock_url := sock_url sk; sock_state := OPEN;
                         sock_sent := sock_sent sk ++ [JSON_stringify (JObj packet)] |}]>
                 (sockets w))
              (update_this (set_nextRequestId (n + 1)%N) w) in
  send obj opts w =
    if default false (awaitAck opts) then
      (update_this (fun c =>
         set_pendingAcks
           (<[rid := {| res_timer := next_timer w;
                        res_promise := length (promises w) |}]> (_pendingAcks c)) c)
         (set_timers
            (<[next_timer w :=
                 {| t_action := AckTimeoutTimer rid (length (promises w));
                    t_delay := default (num_lit 5000) (timeout opts);
                    t_repeat := false |}]> (timers w))
            (Pos.succ (next_timer w))
            (set_promises (promises w ++ [Pending]) w1)),
       Normal (Deferred (length (promises w))))
    else (w1, Normal (Settled (Fulfilled JUndefined))).
Proof.
  intros Hws Hsk Hst. simpl.
  assert (Hopen : ws_is_open w = true).
  { unfold ws_is_open, readyState_of. rewrite Hws, Hsk. simpl. by rewrite Hst. }
  destruct sk as [u st sent]. simpl in *. subst st.
  unfold send, bind, gets, modify. rewrite Hopen. simpl. rewrite Hws.
  unfold WebSocket_send. simpl. rewrite Hsk. simpl.
  by destruct (default false (awaitAck opts)).
Qed.

(** ** The invariant is kept *)

Lemma wf_no_entry_at_counter (w : World) :
  wf w -> _pendingAcks (this w) !! String_of_N (_nextRequestId (this w)) = None.
Proof.
  intros Hwf.
  destruct (_pendingAcks (this w) !! _) as [r|] eqn:E; [|done].
  destruct (wf_entry w Hwf _ _ E) as [(n & Hn & Hlt) _].
  apply String_of_N_inj in Hn. lia.
Qed.

Lemma wf_registered (w w' : World) : wf w -> entry_registered w w' -> wf w'.
Proof.
  intros Hwf [Hp Hn Hh [d Ht] Hnt Hps].
  pose proof (wf_no_entry_at_counter w Hwf) as Hnone.
  destruct Hwf as [W1 W2 W3 W4 W5].
  assert (Hold : forall rid r, _pendingAcks (this w) !! rid = Some r ->
            rid <> String_of_N (_nextRequestId (this w)) /\
            res_timer r <> next_timer w /\
            promises w !! res_promise r = Some Pending).
  { intros rid r Hr. destruct (W2 rid r Hr) as [_ (_ & [d' Hd'] & Hpr)].
    split_and!; [congruence| |done].
    apply W1 in Hd'. lia. }
  split.
  - rewrite Ht, Hnt. intros t tm Hl.
    apply lookup_insert_Some in Hl as [[<- _]|[_ Hl]]; [lia|].
    apply W1 in Hl. lia.
  - rewrite Hp, Hn. intros rid r Hr.
    apply lookup_insert_Some in Hr as [[<- <-]|[Hne Hr]].
    + split; [exists (_nextRequestId (this w)); split; [done|lia]|].
      unfold awaiting. rewrite Hp, Ht, Hps. simpl.
      rewrite !lookup_insert_eq. split_and!; [done|by eexists|].
      by rewrite lookup_app_r, Nat.sub_diag.
    + destruct (W2 rid r Hr) as [(n & Hrid & Hlt) (Ha1 & [d' Ha2] & Ha3)].
      destruct (Hold rid r Hr) as (_ & Htne & _).
      split; [exists n; split; [done|lia]|].
      unfold awaiting. rewrite Hp, Ht, Hps.
      rewrite !lookup_insert_ne by congruence. split_and!; [done|by eexists|].
      by apply lookup_app_l_Some.
  - rewrite Hp, Ht. intros t tm rid p Hl Hact.
    apply lookup_insert_Some in Hl as [[<- <-]|[Hne Hl]].
    + simpl in Hact. injection Hact as <- <-. by rewrite lookup_insert_eq.
    + pose proof (W3 t tm rid p Hl Hact) as Hr.
      destruct (Hold _ _ Hr) as (Hrne & _ & _).
      by rewrite lookup_insert_ne.
  - rewrite Hp. intros rid rid' r r' Hr Hr' Heq.
    apply lookup_insert_Some in Hr as [[<- <-]|[Hne Hr]];
      apply lookup_insert_Some in Hr' as [[<- <-]|[Hne' Hr']]; simpl in *.
    + done.
    + destruct (Hold _ _ Hr') as (_ & _ & Hpr).
      apply lookup_lt_Some in Hpr. lia.
    + destruct (Hold _ _ Hr) as (_ & _ & Hpr).
      apply lookup_lt_Some in Hpr. lia.
    + by apply (W4 rid rid' r r').
  - rewrite Hh, Ht. intros t Hhb. destruct (W5 t Hhb) as [d' Hd']. exists d'.
    rewrite lookup_insert_ne; [done|]. apply W1 in Hd'. lia.
Qed.

Lemma wf_settled rid r st (w w' : World) :
  wf w -> entry_settled rid r st w w' -> wf w'.
Proof.
  intros [W1 W2 W3 W4 W5] [Hr Hp Hn Hh Ht Hnt Hps].
  destruct (W2 rid r Hr) as [_ (_ & [d Hd] & Hpr)].
  assert (Hother : forall rid' r', rid' <> rid ->
            _pendingAcks (this w) !! rid' = Some r' ->
            res_timer r' <> res_timer r /\ res_promise r' <> res_promise r).
  { intros rid' r' Hne Hr'. split.
    - intros Heq. destruct (W2 rid' r' Hr') as [_ (_ & [d' Hd'] & _)].
      rewrite Heq, Hd in Hd'. injection Hd' as Hrid _ _. congruence.
    - intros Heq. apply Hne. by apply (W4 rid' rid r' r). }
  split.
  - rewrite Ht, Hnt. intros t tm Hl.
    apply lookup_delete_Some in Hl as [_ Hl]. eauto.
  - rewrite Hp, Hn. intros rid' r' Hr'.
    apply lookup_delete_Some in Hr' as [Hne Hr'].
    destruct (W2 rid' r' Hr') as [Hcnt (Ha1 & [d' Ha2] & Ha3)].
    destruct (Hother rid' r' (not_eq_sym Hne) Hr') as [Htne Hpne].
    split; [done|]. unfold awaiting. rewrite Hp, Ht, Hps.
    rewrite lookup_delete_ne by done. rewrite lookup_delete_ne by done.
    split_and!; [done|by eexists|]. by rewrite list_lookup_insert_ne.
  - rewrite Hp, Ht. intros t tm rid' p Hl Hact.
    apply lookup_delete_Some in Hl as [Hne Hl].
    pose proof (W3 t tm rid' p Hl Hact) as Hr'.
    rewrite lookup_delete_ne; [done|]. intros <-.
    rewrite Hr in Hr'. injection Hr' as Hr'. by subst r.
  - rewrite Hp. intros rid1 rid2 r1 r2 Hr1 Hr2.
    apply lookup_delete_Some in Hr1 as [_ Hr1].
    apply lookup_delete_Some in Hr2 as [_ Hr2]. by apply W4.
  - rewrite Hh, Ht. intros t Hhb. destruct (W5 t Hhb) as [d' Hd']. exists d'.
    rewrite lookup_delete_ne; [done|]. intros <-. rewrite Hd in Hd'. done.
Qed.

(** ** What each event does to the bookkeeping *)

Lemma ack_resolver_Some (data : jsval) (c : WsClient) r :
  ack_resolver data c = Some r ->
  exists rid, (frame_fields data).1.1 = JStr "ack" /\
              (frame_fields data).2 = JStr rid /\
              _pendingAcks c !! rid = Some r.
Proof.
  unfold ack_resolver.
  destruct (frame_fields data) as [[type payload] request_id]. simpl.
  destruct (strict_eq_str type "ack") eqn:Hty; simpl; [|done].
  destruct (truthy request_id); [|done].
  destruct request_id as [| | | |rid| | |]; simpl; try done.
  intros Hr. exists rid. split_and!; [|done|done].
  destruct type as [| | | |ty| | |]; simpl in Hty; try done.
  apply String.eqb_eq in Hty. by subst.
Qed.

Lemma ack_resolver_lookup (data : jsval) (c : WsClient) rid :
  (frame_fields data).1.1 = JStr "ack" ->
  (frame_fields data).2 = JStr rid ->
  rid <> "" ->
  ack_resolver data c = _pendingAcks c !! rid.
Proof.
  unfold ack_resolver.
  destruct (frame_fields data) as [[type payload] request_id]. simpl.
  intros -> -> Hne. simpl.
  destruct (String.eqb_spec rid ""); done.
Qed.

Lemma resolved_settles (w : World) rid r payload :
  wf w -> _pendingAcks (this w) !! rid = Some r ->
  entry_settled rid r (Fulfilled payload) w (resolved r payload (JStr rid) w).
Proof.
  intros Hwf Hr. destruct (wf_entry w Hwf rid r Hr) as [_ (_ & _ & Hpr)].
  unfold resolved, bind, resolver_resolve, clearTimeout, settle, modify,
    pendingAcks_delete. simpl. rewrite Hpr.
  by split.
Qed.

Lemma ack_timeout_settles (w : World) t tm rid p :
  wf w -> timers w !! t = Some tm -> t_action tm = AckTimeoutTimer rid p ->
  t_repeat tm = false /\
  entry_settled rid {| res_timer := t; res_promise := p |}
                (Rejected (Error "Ack timeout")) w
                (fst (bind (clearTimeout t) (fun _ => ack_timeout rid p) w)).
Proof.
  intros Hwf Ht Hact.
  pose proof (wf_timer w Hwf t tm rid p Ht Hact) as Hr.
  destruct (wf_entry w Hwf rid _ Hr) as [_ (_ & [d Hd] & Hpr)]. simpl in *.
  split; [rewrite Ht in Hd; by injection Hd as ->|].
  unfold bind, ack_timeout, bind, clearTimeout, settle, modify,
    pendingAcks_delete. simpl. rewrite Hpr.
  by split.
Qed.

Lemma quiet_fire_oneshot (w : World) t tm :
  timers w !! t = Some tm -> ~ is_ack_timer tm -> t_repeat tm = false ->
  quiet w (fst (clearTimeout t w)).
Proof.
  intros Ht Hna Hrep Hwf.
  refine (quiet_delete_timer w _ t _ _ _ _ _ _ _ Hwf); simpl; try done.
  - intros tm' Ht'. rewrite Ht in Ht'. by injection Ht' as <-.
  - right. split; [done|]. intros Hhb.
    destruct (wf_heartbeat w Hwf t Hhb) as [d Hd].
    rewrite Ht in Hd. injection Hd as ->. done.
Qed.

Lemma deliver_timer t now (w : World) tm :
  timers w !! t = Some tm ->
  deliver (TimerFire t now) w
  = bind (if t_repeat tm then ret tt else clearTimeout t)
         (fun _ => run_timer (t_action tm) now) w.
Proof. intros Ht. simpl. unfold bind at 1, gets. by rewrite Ht. Qed.

Lemma deliver_timer_cancelled t now (w : World) :
  timers w !! t = None -> deliver (TimerFire t now) w = (w, Normal tt).
Proof. intros Ht. simpl. unfold bind at 1, gets. by rewrite Ht. Qed.

Lemma quiet_bind {A B} (m : JS A) (k : A -> JS B) (w : World) :
  quiet w (fst (m w)) -> (forall a, quietly (k a)) -> quiet w (fst (bind m k w)).
Proof.
  intros Hm Hk. unfold bind.
  destruct (m w) as [w' [a|e]]; simpl in *; [|done].
  eapply quiet_trans; [done|]. apply Hk.
Qed.

Lemma bookkeeping_of_quiet (w w' : World) :
  quiet w w' -> wf w -> wf w' /\ unchanged_acks w w'.
Proof. intros Hq Hwf. by apply Hq. Qed.

(** Every event either leaves the bookkeeping alone, or is a send that
    registers an entry, or an ack that resolves one, or a timeout that
    rejects one. *)
Lemma step_cases ev (w : World) :
  wf w ->
  (wf (step ev w) /\ unchanged_acks w (step ev w)) \/
  (exists obj opts, ev = Send obj opts /\ awaitAck opts = Some true /\
     ws_is_open w = true /\ entry_registered w (step ev w)) \/
  (exists s data rid r, ev = SockMessage s (WellFormed data) /\
     readyState_of s w = Some OPEN /\
     (frame_fields data).1.1 = JStr "ack" /\ (frame_fields data).2 = JStr rid /\
     entry_settled rid r (Fulfilled (frame_fields data).1.2) w (step ev w)) \/
  (exists t now rid p, ev = TimerFire t now /\
     entry_settled rid {| res_timer := t; res_promise := p |}
                   (Rejected (Error "Ack timeout")) w (step ev w)).
Proof.
  intros Hwf. unfold step.
  destruct ev as [| |obj opts|et cb|et cb|s|s ev|s err|s msg|t now].
  - simpl. left. by apply (quietly_connect w).
  - simpl. left. by apply (quietly_disconnect w).
  - (* send *)
    simpl. unfold bind.
    destruct (ws_is_open w) eqn:Hopen.
    + destruct (ws_is_open_inv w Hopen) as (s & sk & Hws & Hsk & Hst).
      rewrite (send_open obj opts w s sk Hws Hsk Hst).
      destruct (awaitAck opts) as [[|]|] eqn:Haw; simpl.
      * right; left. exists obj, opts. split_and!; try done.
        split; simpl; try done. by eexists.
      * left. apply bookkeeping_of_quiet; [|done].
        intros [W1 W2 W3 W4 W5]. split.
        -- split; simpl; try done.
           intros rid r Hr. destruct (W2 rid r Hr) as [(n & Hn & Hlt) Ha].
           split; [exists n; split; [done|lia]|done].
        -- split; simpl; try done. lia.
      * left. apply bookkeeping_of_quiet; [|done].
        intros [W1 W2 W3 W4 W5]. split.
        -- split; simpl; try done.
           intros rid r Hr. destruct (W2 rid r Hr) as [(n & Hn & Hlt) Ha].
           split; [exists n; split; [done|lia]|done].
        -- split; simpl; try done. lia.
    + rewrite (send_not_open obj opts w Hopen). simpl. left.
      by apply (quiet_refl w).
  - simpl. left. by apply (quietly_on et cb w).
  - simpl. left. by apply (quietly_off et cb w).
  - (* open *)
    simpl. left. unfold bind, gets.
    destruct (readyState_of s w) as [[]|]; simpl; try by apply (quiet_refl w).
    apply (bookkeeping_of_quiet w); [|done].
    apply (quietly_bind (modify (set_readyState s OPEN)) (fun _ => on_open));
      [apply quietly_set_readyState|intros _; apply quietly_on_open].
  - (* close *)
    simpl. left. unfold bind, gets.
    destruct (readyState_of s w) as [[]|]; simpl; try by apply (quiet_refl w).
    all: apply (bookkeeping_of_quiet w); [|done].
    all: apply (quietly_bind (modify (set_readyState s CLOSED)) (fun _ => on_close ev));
      [apply quietly_set_readyState|intros _; apply quietly_on_close].
  - (* error *)
    simpl. left. unfold bind, gets.
    destruct (readyState_of s w) as [st|]; simpl; [|by apply (quiet_refl w)].
    by apply (quietly_on_error err w).
  - (* message *)
    simpl. unfold bind, gets.
    destruct (readyState_of s w) as [[]|] eqn:Hst; simpl;
      try (left; by apply (quiet_refl w)).
    destruct msg as [text|data].
    + left. destruct (on_message_malformed text w) as [co ->]. simpl.
      apply (bookkeeping_of_quiet w); [|done]. by apply quiet_same.
    + destruct (ack_resolver data (this w)) as [r|] eqn:Hres.
      * right; right; left.
        destruct (ack_resolver_Some data (this w) r Hres) as (rid & Hty & Hrq & Hr).
        exists s, data, rid, r. rewrite (on_message_ack data r w Hres). simpl.
        split_and!; try done. rewrite Hrq. by apply resolved_settles.
      * left.
        assert (Hcases : (data = JNull \/ data = JUndefined) \/
                         (data <> JNull /\ data <> JUndefined)).
        { destruct data; auto. }
        destruct Hcases as [Hnull|[Hn Hu]].
        -- destruct (on_message_nullish data w Hnull) as [co ->]. simpl.
           apply (bookkeeping_of_quiet w); [|done]. by apply quiet_same.
        -- destruct (on_message_dispatch data w Hn Hu Hres) as [co ->]. simpl.
           apply (bookkeeping_of_quiet w); [|done]. by apply quiet_same.
  - (* timer *)
    destruct (timers w !! t) as [tm|] eqn:Ht.
    2:{ rewrite (deliver_timer_cancelled t now w Ht). left. by apply (quiet_refl w). }
    rewrite (deliver_timer t now w tm Ht).
    destruct (t_action tm) as [|rid p|] eqn:Hact.
    + left. apply (bookkeeping_of_quiet w); [|done].
      destruct (t_repeat tm) eqn:Hrep.
      * apply (quietly_bind (ret tt) (fun _ => _connectOnce));
          [apply quietly_ret|intros _; apply quietly_connectOnce].
      * apply quiet_bind; [|intros _; apply quietly_connectOnce].
        apply (quiet_fire_oneshot w t tm); try done.
        unfold is_ack_timer. rewrite Hact. tauto.
    + right; right; right. exists t, now, rid, p. split; [done|].
      destruct (ack_timeout_settles w t tm rid p Hwf Ht Hact) as [-> Hs]. done.
    + left. apply (bookkeeping_of_quiet w); [|done].
      destruct (t_repeat tm) eqn:Hrep.
      * apply (quietly_bind (ret tt) (fun _ => heartbeat_tick now));
          [apply quietly_ret|intros _; apply quietly_heartbeat_tick].
      * apply quiet_bind; [|intros _; apply quietly_heartbeat_tick].
        apply (quiet_fire_oneshot w t tm); try done.
        unfold is_ack_timer. rewrite Hact. tauto.
Qed.

(** ** Invariants along runs *)

Lemma run_app evs evs' (w : World) : run (evs ++ evs') w = run evs' (run evs w).
Proof. unfold_run. by rewrite fold_left_app. Qed.

Lemma run_cons ev evs (w : World) : run (ev :: evs) w = run evs (step ev w).
Proof. done. Qed.

Lemma new_world_wf u opts h : wf (new_world u opts h).
Proof. split; simpl; intros; simplify_map_eq. Qed.

Lemma step_wf ev (w : World) : wf w -> wf (step ev w).
Proof.
  intros Hwf.
  destruct (step_cases ev w Hwf)
    as [[Hwf' _]|[(obj & opts & _ & _ & _ & Hreg)
       |[(s & data & rid & r & _ & _ & _ & _ & Hset)
        |(t & now & rid & p & _ & Hset)]]].
  - done.
  - by apply (wf_registered w).
  - by eapply (wf_settled rid r).
  - by eapply (wf_settled rid).
Qed.

Lemma run_wf evs (w : World) : wf w -> wf (run evs w).
Proof.
  revert w. induction evs as [|ev evs IH]; intros w Hwf; [done|].
  rewrite run_cons. apply IH. by apply step_wf.
Qed.

Lemma reachable_wf (w : World) : reachable w -> wf w.
Proof. intros (u & opts & h & evs & ->). apply run_wf, new_world_wf. Qed.

Lemma reachable_new u opts h : reachable (new_world u opts h).
Proof. by exists u, opts, h, []. Qed.

Lemma reachable_run evs (w : World) : reachable w -> reachable (run evs w).
Proof.
  intros (u & opts & h & evs0 & ->). exists u, opts, h, (evs0 ++ evs).
  by rewrite run_app.
Qed.

Lemma reachable_step ev (w : World) : reachable w -> reachable (step ev w).
Proof. apply (reachable_run [ev]). Qed.

(** An awaited ack keeps its entry, its timer and its pending promise
    until one of its two settling events happens. *)
Lemma awaiting_step ev rid t p (w : World) :
  wf w -> awaiting rid t p w -> ~ settling rid t ev ->
  awaiting rid t p (step ev w).
Proof.
  intros Hwf (Hr & [d Hd] & Hpr) Hquiet.
  assert (Hcnt : exists n, rid = String_of_N n /\ (n < _nextRequestId (this w))%N).
  { by destruct (wf_entry w Hwf rid _ Hr) as [? _]. }
  destruct (step_cases ev w Hwf)
    as [[_ [Hp _ Hps Ht]]|[(obj & opts & _ & _ & _ & [Hp _ _ [d' Ht] _ Hps])
       |[(s & data & rid' & r' & -> & _ & Hty & Hrq & [Hr' Hp _ _ Ht _ Hps])
        |(t' & now & rid' & p' & -> & [Hr' Hp _ _ Ht _ Hps])]]];
    unfold awaiting.
  - rewrite Hp, Hps. split_and!; [done| |done].
    exists d. by apply Ht.
  - destruct Hcnt as (n & -> & Hlt).
    assert (n <> _nextRequestId (this w)) by lia.
    rewrite Hp, Ht, Hps.
    rewrite lookup_insert_ne by (intros Heq; by apply String_of_N_inj in Heq).
    rewrite lookup_insert_ne by (apply (wf_fresh w Hwf) in Hd; lia).
    split_and!; [done|by eexists|]. by apply lookup_app_l_Some.
  - assert (Hne : rid' <> rid).
    { intros ->. apply Hquiet. simpl. done. }
    destruct (wf_entry w Hwf rid' r' Hr') as [_ (_ & [d' Hd'] & Hpr')].
    assert (res_timer r' <> t).
    { intros Heq. rewrite Heq, Hd in Hd'. injection Hd' as ? _ _. congruence. }
    assert (res_promise r' <> p).
    { intros Heq. apply Hne.
      by apply (wf_promise w Hwf rid' rid r' {| res_timer := t; res_promise := p |}). }
    rewrite Hp, Ht, Hps. rewrite !lookup_delete_ne by done.
    split_and!; [done|by eexists|]. by rewrite list_lookup_insert_ne.
  - simpl in *.
    assert (Hne : t' <> t) by (intros ->; by apply Hquiet).
    assert (Hrne : rid' <> rid).
    { intros ->. rewrite Hr in Hr'. by injection Hr' as ? ?. }
    assert (p' <> p).
    { intros Heq. apply Hrne.
      by apply (wf_promise w Hwf rid' rid {| res_timer := t'; res_promise := p' |}
                           {| res_timer := t; res_promise := p |}). }
    rewrite Hp, Ht, Hps. rewrite !lookup_delete_ne by done.
    split_and!; [done|by eexists|]. by rewrite list_lookup_insert_ne.
Qed.

Lemma awaiting_run evs rid t p (w : World) :
  wf w -> awaiting rid t p w -> Forall (fun ev => ~ settling rid t ev) evs ->
  awaiting rid t p (run evs w).
Proof.
  revert w. induction evs as [|ev evs IH]; intros w Hwf Ha Hq; [done|].
  apply Forall_cons in Hq as [Hev Hq].
  rewrite run_cons. apply IH; [by apply step_wf| |done].
  by apply awaiting_step.
Qed.

(** A settled promise stays as it is. *)
Lemma settled_step ev p st (w : World) :
  wf w -> promises w !! p = Some st -> st <> Pending ->
  promises (step ev w) !! p = Some st.
Proof.
  intros Hwf Hp Hst.
  assert (Hother : forall rid r st', _pendingAcks (this w) !! rid = Some r ->
            <[res_promise r := st']> (promises w) !! p = Some st).
  { intros rid r st' Hr.
    destruct (wf_entry w Hwf rid r Hr) as [_ (_ & _ & Hpr)].
    rewrite list_lookup_insert_ne; [done|]. intros <-. congruence. }
  destruct (step_cases ev w Hwf)
    as [[_ [_ _ Hps _]]|[(obj & opts & _ & _ & _ & [_ _ _ _ _ Hps])
       |[(s & data & rid' & r' & _ & _ & _ & _ & [Hr' _ _ _ _ _ Hps])
        |(t' & now & rid' & p' & _ & [Hr' _ _ _ _ _ Hps])]]]; rewrite Hps.
  - done.
  - by apply lookup_app_l_Some.
  - by apply (Hother rid' r').
  - by apply (Hother rid' _ _ Hr').
Qed.

Lemma settled_run evs p st (w : World) :
  wf w -> promises w !! p = Some st -> st <> Pending ->
  promises (run evs w) !! p = Some st.
Proof.
  revert w. induction evs as [|ev evs IH]; intros w Hwf Hp Hst; [done|].
  rewrite run_cons. apply IH; [by apply step_wf| |done].
  by apply settled_step.
Qed.

(** The counter of request ids never goes back. *)
Lemma counter_step ev (w : World) :
  wf w -> (_nextRequestId (this w) <= _nextRequestId (this (step ev w)))%N.
Proof.
  intros Hwf.
  destruct (step_cases ev w Hwf)
    as [[_ [_ Hn _ _]]|[(obj & opts & _ & _ & _ & [_ Hn _ _ _ _])
       |[(s & data & rid' & r' & _ & _ & _ & _ & [_ _ Hn _ _ _ _])
        |(t' & now & rid' & p' & _ & [_ _ Hn _ _ _ _])]]]; lia.
Qed.

Lemma counter_run evs (w : World) :
  wf w -> (_nextRequestId (this w) <= _nextRequestId (this (run evs w)))%N.
Proof.
  revert w. induction evs as [|ev evs IH]; intros w Hwf; [done|].
  rewrite run_cons. pose proof (counter_step ev w Hwf).
  pose proof (IH (step ev w) (step_wf ev w Hwf)). lia.
Qed.

(** A request id that has lost its entry never gets one again. *)
Lemma retired_step ev rid (w : World) :
  wf w -> retired rid w -> retired rid (step ev w).
Proof.
  intros Hwf [(n & -> & Hlt) Hnone].
  pose proof (counter_step ev w Hwf) as Hmono.
  split; [exists n; split; [done|lia]|].
  destruct (step_cases ev w Hwf)
    as [[_ [Hp _ _ _]]|[(obj & opts & _ & _ & _ & [Hp _ _ _ _ _])
       |[(s & data & rid' & r' & _ & _ & _ & _ & [_ Hp _ _ _ _ _])
        |(t' & now & rid' & p' & _ & [_ Hp _ _ _ _ _])]]]; rewrite Hp.
  - done.
  - rewrite lookup_insert_ne; [done|].
    intros Heq. apply String_of_N_inj in Heq. lia.
  - by apply lookup_delete_None; right.
  - by apply lookup_delete_None; right.
Qed.

Lemma retired_run evs rid (w : World) :
  wf w -> retired rid w -> retired rid (run evs w).
Proof.
  revert w. induction evs as [|ev evs IH]; intros w Hwf Hr; [done|].
  rewrite run_cons. apply IH; [by apply step_wf|by apply retired_step].
Qed.

(** ** Objects *)

Lemma obj_get_set_eq k (v : jsval) o : obj_get k (obj_set k v o) = v.
Proof.
  induction o as [|[k' v'] o IH]; simpl.
  - by rewrite String.eqb_refl.
  - destruct (String.eqb k k') eqn:E; simpl; by rewrite E.
Qed.

Lemma obj_get_set_ne k k' (v : jsval) o :
  k' <> k -> obj_get k' (obj_set k v o) = obj_get k' o.
Proof.
  intros Hne. induction o as [|[k0 v0] o IH]; simpl.
  - by apply String.eqb_neq in Hne as ->.
  - destruct (String.eqb k k0) eqn:E; simpl.
    + apply String.eqb_eq in E as <-. by apply String.eqb_neq in Hne as ->.
    + by rewrite IH.
Qed.

Lemma step_send obj opts (w : World) : step (Send obj opts) w = fst (send obj opts w).
Proof.
  unfold_step. simpl. unfold bind.
  by destruct (send obj opts w) as [w1 [a|e]].
Qed.

(** ** [send]: failure, request ids, fire and forget *)

(** C4. A [send] while no transport is open ([this.ws] is [null], or its
    socket is connecting, closing or closed) returns a promise already
    rejected with the not-connected error and changes nothing: the world
    after the call is the world before it, so nothing was transmitted, the
    counter of request ids did not move and the table of pending
    acknowledgements has no new entry. *)
Theorem send_when_not_open_fails obj opts (w : World) :
  ws_is_open w = false ->
  let result := send obj opts w in
  snd result = Normal (Settled (Rejected (Error "WebSocket is not open"))) /\
  fst result = w /\
  sockets (fst result) = sockets w /\
  _nextRequestId (this (fst result)) = _nextRequestId (this w) /\
  _pendingAcks (this (fst result)) = _pendingAcks (this w).
Proof.
  intros Hclosed. simpl. unfold send, bind, gets. by rewrite Hclosed.
Qed.

(** C10. Every [send] over an open transport, awaited or not, takes the
    current value [n] of the counter and moves the counter to [n + 1];
    what goes out is the caller's command with [request_id] set to the
    decimal rendering of [n], replacing a [request_id] the caller had put
    there and keeping every other property; the caller's object itself is
    untouched.  The id is fresh: no other counter value renders to it, and
    the counter stays above [n] whatever happens later.  Unless the caller
    asked to await the ack, no table entry and no timer is created and the
    promise returned is already fulfilled. *)
Theorem send_stamps_fresh_request_id obj opts (w : World) s sk :
  reachable w ->
  ws (this w) = Some s -> sockets w !! s = Some sk -> sock_state sk = OPEN ->
  let n := _nextRequestId (this w) in
  let command := default [] (heap w !! obj) in
  let packet := obj_set "request_id" (JStr (String_of_N n)) command in
  let w' := fst (send obj opts w) in
  _nextRequestId (this w') = (n + 1)%N /\
  sockets w' !! s
    = Some {| sock_url := sock_url sk; sock_state := OPEN;
              sock_sent := sock_sent sk ++ [JSON_stringify (JObj packet)] |} /\
  obj_get "request_id" packet = JStr (String_of_N n) /\
  (forall k, k <> "request_id" -> obj_get k packet = obj_get k command) /\
  heap w' = heap w /\
  (forall m, m <> n -> String_of_N m <> String_of_N n) /\
  (forall evs, (n < _nextRequestId (this (run evs w')))%N) /\
  (awaitAck opts <> Some true ->
     _pendingAcks (this w') = _pendingAcks (this w) /\
     timers w' = timers w /\
     snd (send obj opts w) = Normal (Settled (Fulfilled JUndefined))).
Proof.
  intros Hreach Hws Hsk Hst n command packet w'.
  assert (Hcounter : _nextRequestId (this w') = (n + 1)%N).
  { unfold w'. rewrite (send_open obj opts w s sk Hws Hsk Hst).
    by destruct (default false (awaitAck opts)). }
  split_and!.
  - done.
  - unfold w'. rewrite (send_open obj opts w s sk Hws Hsk Hst).
    apply lookup_lt_Some in Hsk as Hlt.
    destruct (default false (awaitAck opts)); simpl;
      by rewrite list_lookup_insert_eq.
  - apply obj_get_set_eq.
  - intros k Hk. by apply obj_get_set_ne.
  - unfold w'. rewrite (send_open obj opts w s sk Hws Hsk Hst).
    by destruct (default false (awaitAck opts)).
  - intros m Hm Heq. by apply String_of_N_inj in Heq.
  - intros evs.
    assert (Hwf' : wf w').
    { apply reachable_wf. unfold w'. rewrite <- step_send.
      by apply reachable_step. }
    pose proof (counter_run evs w' Hwf'). lia.
  - intros Hno. unfold w'. rewrite (send_open obj opts w s sk Hws Hsk Hst).
    destruct (awaitAck opts) as [[|]|]; done.
Qed.

(** ** Nothing escapes the handlers *)

Lemma never_throws_ret {A} (a : A) : never_throws (ret a : JS A).
Proof. intros w. by exists a. Qed.

Lemma never_throws_gets {A} (f : World -> A) : never_throws (gets f).
Proof. intros w. by eexists. Qed.

Lemma never_throws_modify (f : World -> World) : never_throws (modify f).
Proof. intros w. by eexists. Qed.

Lemma never_throws_bind {A B} (m : JS A) (k : A -> JS B) :
  never_throws m -> (forall a, never_throws (k a)) -> never_throws (bind m k).
Proof.
  intros Hm Hk w. unfold bind. destruct (Hm w) as [a Ha].
  destruct (m w) as [w' c]. simpl in Ha. subst c. apply Hk.
Qed.

Lemma never_throws_try_catch {A} (m : JS A) (h : jsval -> JS A) :
  (forall e, never_throws (h e)) -> never_throws (try_catch m h).
Proof.
  intros Hh w. unfold try_catch.
  destruct (m w) as [w' [a|e]]; [by exists a|apply Hh].
Qed.

Lemma never_throws_emit eventType payload full :
  never_throws (_emit eventType payload full).
Proof. intros w. destruct (_emit_run eventType payload full w) as [co ->]. by eexists. Qed.

Lemma never_throws_stopHeartbeat : never_throws _stopHeartbeat.
Proof.
  unfold _stopHeartbeat.
  apply never_throws_bind; [apply never_throws_gets|intros [t|]];
    [|apply never_throws_ret].
  apply never_throws_bind; [apply never_throws_modify|intros _].
  apply never_throws_modify.
Qed.

Lemma never_throws_add_timer a (d : num) b : never_throws (add_timer a d b).
Proof. intros w. by eexists. Qed.

Lemma never_throws_startHeartbeat : never_throws _startHeartbeat.
Proof.
  unfold _startHeartbeat.
  apply never_throws_bind; [apply never_throws_stopHeartbeat|intros _].
  apply never_throws_bind; [apply never_throws_gets|intros d].
  apply never_throws_bind; [apply never_throws_add_timer|intros t].
  apply never_throws_modify.
Qed.

Lemma never_throws_connectOnce : never_throws (_connectOnce : JS unit).
Proof.
  unfold _connectOnce.
  apply never_throws_bind; [apply never_throws_gets|intros u].
  apply never_throws_bind; [|intros s; apply never_throws_modify].
  intros w. by eexists.
Qed.

Lemma never_throws_on_open : never_throws on_open.
Proof.
  unfold_on_open.
  apply never_throws_bind; [apply never_throws_modify|intros _].
  apply never_throws_bind; [apply never_throws_emit|intros _].
  apply never_throws_startHeartbeat.
Qed.

Lemma never_throws_on_close ev : never_throws (on_close ev).
Proof.
  unfold_on_close.
  apply never_throws_bind; [apply never_throws_emit|intros _].
  apply never_throws_bind; [apply never_throws_stopHeartbeat|intros _].
  apply never_throws_bind; [apply never_throws_modify|intros _].
  apply never_throws_bind; [apply never_throws_gets|intros [|]];
    [|apply never_throws_ret].
  apply never_throws_bind; [apply never_throws_gets|intros d].
  apply never_throws_bind; [apply never_throws_add_timer|intros _].
  apply never_throws_modify.
Qed.

Lemma never_throws_on_message msg : never_throws (on_message msg).
Proof.
  unfold_on_message.
  apply never_throws_try_catch. intros e. apply never_throws_emit.
Qed.

Lemma never_throws_send obj opts : never_throws (send obj opts).
Proof.
  intros w. destruct (ws_is_open w) eqn:Hopen.
  - destruct (ws_is_open_inv w Hopen) as (s & sk & Hws & Hsk & Hst).
    rewrite (send_open obj opts w s sk Hws Hsk Hst).
    destruct (default false (awaitAck opts)); by eexists.
  - rewrite (send_not_open obj opts w Hopen). by eexists.
Qed.

Lemma never_throws_disconnect : never_throws (disconnect : JS unit).
Proof.
  unfold disconnect.
  apply never_throws_bind; [apply never_throws_modify|intros _].
  apply never_throws_bind; [apply never_throws_gets|intros s].
  apply never_throws_bind; [|intros _; apply never_throws_stopHeartbeat].
  destruct s as [s|]; [|apply never_throws_ret].
  apply never_throws_bind; [|intros _; apply never_throws_modify].
  intros w. unfold WebSocket_close.
  destruct (readyState_of s w) as [[]|]; by eexists.
Qed.

Lemma never_throws_run_timer a now : never_throws (run_timer a now).
Proof.
  destruct a as [|rid p|]; simpl.
  - apply never_throws_connectOnce.
  - unfold ack_timeout.
    apply never_throws_bind; [apply never_throws_modify|intros _].
    apply never_throws_modify.
  - unfold heartbeat_tick.
    apply never_throws_bind; [apply never_throws_gets|intros [|]];
      [|apply never_throws_ret].
    apply never_throws_bind; [apply never_throws_gets|intros [s|]];
      [|apply never_throws_ret].
    apply never_throws_try_catch. intros _. apply never_throws_ret.
Qed.

(** Every public method and every host callback of the client completes
    normally. *)
Lemma deliver_never_throws ev : never_throws (deliver ev).
Proof.
  destruct ev as [| |obj opts|et cb|et cb|s|s ev|s err|s msg|t now]; simpl.
  - unfold connect.
    apply never_throws_bind; [apply never_throws_gets|intros [s|]];
      [apply never_throws_ret|].
    apply never_throws_bind; [apply never_throws_modify|intros _].
    apply never_throws_connectOnce.
  - apply never_throws_disconnect.
  - apply never_throws_bind; [apply never_throws_send|intros _].
    apply never_throws_ret.
  - unfold on. destruct (String.eqb et "*"); apply never_throws_modify.
  - unfold off. destruct (String.eqb et "*"); apply never_throws_modify.
  - apply never_throws_bind; [apply never_throws_gets|intros [[]|]];
      try apply never_throws_ret.
    apply never_throws_bind; [apply never_throws_modify|intros _].
    apply never_throws_on_open.
  - apply never_throws_bind; [apply never_throws_gets|intros [[]|]];
      try apply never_throws_ret.
    all: apply never_throws_bind; [apply never_throws_modify|intros _].
    all: apply never_throws_on_close.
  - apply never_throws_bind; [apply never_throws_gets|intros [st|]];
      [|apply never_throws_ret].
    apply never_throws_emit.
  - apply never_throws_bind; [apply never_throws_gets|intros [[]|]];
      try apply never_throws_ret.
    apply never_throws_on_message.
  - apply never_throws_bind; [apply never_throws_gets|intros [tm|]];
      [|apply never_throws_ret].
    apply never_throws_bind; [|intros _; apply never_throws_run_timer].
    destruct (t_repeat tm); [apply never_throws_ret|apply never_throws_modify].
Qed.

(** ** Dispatch isolates the subscribers *)

(** C8. [_emit] invokes every subscriber of the event type and then every
    wildcard subscriber, each once and in order, whatever any of the
    callbacks does: a callback that throws is caught on its own and the
    next one is invoked all the same.  [_emit] itself completes normally,
    touches neither the client nor its sockets, and every handler the
    transport calls, and every public method, completes normally as well,
    so no exception of a subscriber reaches the transport or a caller. *)
Theorem subscriber_failures_are_isolated eventType payload full (w : World) :
  let result := _emit eventType payload full w in
  snd result = Normal tt /\
  calls (fst result)
    = calls w ++
      pass [payload; full] (default [] (listeners_get eventType (this w))) ++
      pass [eventType; payload; full] (_anyListeners (this w)) /\
  this (fst result) = this w /\
  sockets (fst result) = sockets w /\
  (forall ev w0, snd (deliver ev w0) = Normal tt).
Proof.
  simpl. destruct (_emit_run eventType payload full w) as [co ->]. simpl.
  split_and!; try done.
  intros ev w0. destruct (deliver_never_throws ev w0) as [[] Ha]. done.
Qed.

(** ** The close handler *)

Lemma step_close s ev (w : World) st :
  readyState_of s w = Some st -> st <> CLOSED ->
  step (SockClose s ev) w = fst (on_close ev (set_readyState s CLOSED w)).
Proof.
  intros Hst Hne. unfold_step. simpl. unfold bind at 1, gets.
  rewrite Hst. by destruct st.
Qed.

Lemma this_set_readyState s st (w : World) : this (set_readyState s st w) = this w.
Proof. unfold set_readyState. by destruct (sockets w !! s). Qed.

Lemma timers_set_readyState s st (w : World) :
  timers (set_readyState s st w) = timers w.
Proof. unfold set_readyState. by destruct (sockets w !! s). Qed.

Lemma next_timer_set_readyState s st (w : World) :
  next_timer (set_readyState s st w) = next_timer w.
Proof. unfold set_readyState. by destruct (sockets w !! s). Qed.

(** With reconnect intent, the close handler schedules the reconnect with
    the delay it finds and grows the delay afterwards. *)
Lemma on_close_reconnects ev (w : World) :
  _shouldReconnect (this w) = true ->
  let w' := fst (on_close ev w) in
  timers w' !! next_timer w
    = Some {| t_action := ReconnectTimer; t_delay := _reconnectDelay (this w);
              t_repeat := false |} /\
  next_timer w' = Pos.succ (next_timer w) /\
  _reconnectDelay (this w')
    = num_min (num_mul (_reconnectDelay (this w)) (_backoffFactor (this w)))
              (_maxReconnectDelay (this w)) /\
  ws (this w') = None.
Proof.
  intros Hflag. simpl. unfold_on_close; unfold bind.
  destruct (_emit_run (JStr "close") ev JUndefined w) as [co ->].
  unfold _stopHeartbeat, bind, gets, clearInterval, clearTimeout, modify,
    setTimeout, add_timer. simpl.
  destruct (_heartbeatTimer (this w)) as [hb|]; simpl; rewrite Hflag; simpl.
  - by rewrite lookup_insert_eq.
  - by rewrite lookup_insert_eq.
Qed.

(** Without reconnect intent, the close handler registers no timer. *)
Lemma on_close_stays_closed ev (w : World) :
  _shouldReconnect (this w) = false ->
  let w' := fst (on_close ev w) in
  next_timer w' = next_timer w /\
  (forall t tm, timers w' !! t = Some tm -> timers w !! t = Some tm) /\
  ws (this w') = None.
Proof.
  intros Hflag. simpl. unfold_on_close; unfold bind.
  destruct (_emit_run (JStr "close") ev JUndefined w) as [co ->].
  unfold _stopHeartbeat, bind, gets, clearInterval, clearTimeout, modify. simpl.
  destruct (_heartbeatTimer (this w)) as [hb|]; simpl; rewrite Hflag; simpl.
  - split_and!; try done. intros t tm Hl.
    by apply lookup_delete_Some in Hl as [_ Hl].
  - done.
Qed.

(** ** Settling an awaited ack *)

Lemma String_of_N_nonempty n : String_of_N n <> "".
Proof.
  unfold String_of_N. intros Heq.
  apply (f_equal NilEmpty.uint_of_string) in Heq.
  rewrite NilEmpty.usu in Heq. simpl in Heq. injection Heq as Heq.
  pose proof (f_equal N.of_uint Heq) as Hn.
  rewrite DecimalN.Unsigned.of_to in Hn. simpl in Hn. subst n. discriminate.
Qed.

Lemma awaiting_entry rid t p (w : World) :
  awaiting rid t p w ->
  _pendingAcks (this w) !! rid = Some {| res_timer := t; res_promise := p |}.
Proof. by intros [? _]. Qed.

(** What is left once an entry is settled. *)
Lemma entry_settled_after rid r st (w w' : World) :
  wf w -> entry_settled rid r st w w' ->
  promises w' !! res_promise r = Some st /\
  _pendingAcks (this w') !! rid = None /\
  timers w' !! res_timer r = None /\
  retired rid w'.
Proof.
  intros Hwf [Hr Hp Hn _ Ht _ Hps].
  destruct (wf_entry w Hwf rid r Hr) as [(n & Hrid & Hlt) (_ & _ & Hpr)].
  rewrite Hp, Ht, Hps. apply lookup_lt_Some in Hpr.
  split_and!.
  - by rewrite list_lookup_insert_eq.
  - by rewrite lookup_delete_eq.
  - by rewrite lookup_delete_eq.
  - split; [exists n; split; [done|]; by rewrite Hn|].
    by rewrite Hp, lookup_delete_eq.
Qed.

(** The timeout of an awaited ack fires. *)
Lemma timeout_fires now rid t p (w : World) :
  wf w -> awaiting rid t p w ->
  entry_settled rid {| res_timer := t; res_promise := p |}
                (Rejected (Error "Ack timeout")) w (step (TimerFire t now) w).
Proof.
  intros Hwf (Hr & [d Hd] & Hpr). unfold_step.
  rewrite (deliver_timer t now w _ Hd). simpl.
  by destruct (ack_timeout_settles w t _ rid p Hwf Hd eq_refl) as [_ Hs].
Qed.

(** The ack of an awaited send arrives. *)
Lemma ack_arrives s (data : jsval) rid t p (w : World) :
  wf w -> awaiting rid t p w ->
  readyState_of s w = Some OPEN ->
  (frame_fields data).1.1 = JStr "ack" -> (frame_fields data).2 = JStr rid ->
  entry_settled rid {| res_timer := t; res_promise := p |}
                (Fulfilled (frame_fields data).1.2) w
                (step (SockMessage s (WellFormed data)) w).
Proof.
  intros Hwf Ha Hst Hty Hrq. pose proof (awaiting_entry rid t p w Ha) as Hr.
  destruct (wf_entry w Hwf rid _ Hr) as [(n & Hrid & _) _].
  assert (Hres : ack_resolver data (this w)
                 = Some {| res_timer := t; res_promise := p |}).
  { rewrite (ack_resolver_lookup data (this w) rid Hty Hrq); [done|].
    rewrite Hrid. apply String_of_N_nonempty. }
  unfold_step. simpl. unfold bind at 1, gets. rewrite Hst.
  rewrite (on_message_ack data _ w Hres). simpl. rewrite Hrq.
  by apply resolved_settles.
Qed.

(** An ack for a retired id resolves nothing and is dispatched like any
    other frame. *)
Lemma late_ack_dispatched s (data : jsval) rid (w : World) :
  retired rid w -> readyState_of s w = Some OPEN ->
  (frame_fields data).1.1 = JStr "ack" -> (frame_fields data).2 = JStr rid ->
  exists co,
    step (SockMessage s (WellFormed data)) w
    = logged [(JStr "ack", (frame_fields data).1.2, data);
              (JStr "*", data, JUndefined)]
             (emit_calls (JStr "ack") (frame_fields data).1.2 data (this w) ++
              emit_calls (JStr "*") data JUndefined (this w)) co w.
Proof.
  intros [(n & Hrid & _) Hnone] Hst Hty Hrq.
  assert (Hres : ack_resolver data (this w) = None).
  { rewrite (ack_resolver_lookup data (this w) rid Hty Hrq); [done|].
    rewrite Hrid. apply String_of_N_nonempty. }
  assert (data <> JNull /\ data <> JUndefined) as [Hn Hu].
  { split; intros ->; discriminate. }
  destruct (on_message_dispatch data w Hn Hu Hres) as [co Hd].
  exists co. unfold_step. simpl. unfold bind at 1, gets.
  rewrite Hst, Hd. simpl. by rewrite Hty.
Qed.

(** C7, as the code has it.  A frame that is not JSON makes [JSON.parse]
    throw; the handler catches the error and emits it as a local [error]
    event, to the subscribers of ["error"] and to the wildcard subscribers,
    and that is all it does: the frame is dispatched to nobody, the handler
    completes normally, and the client and its sockets are as before.  A
    frame that parses to an object without [type] is not a parse failure:
    no [error] event is emitted for it, and it is dispatched under the type
    [undefined], which reaches every wildcard subscriber. *)
Theorem parse_failure_emits_error (w : World) :
  (forall text,
     let result := on_message (Malformed text) w in
     snd result = Normal tt /\
     emitted (fst result)
       = emitted w ++ [(JStr "error", SyntaxError text, JUndefined)] /\
     calls (fst result)
       = calls w ++
         pass [SyntaxError text; JUndefined]
              (default [] (_listeners (this w) !! "error")) ++
         pass [JStr "error"; SyntaxError text; JUndefined]
              (_anyListeners (this w)) /\
     this (fst result) = this w /\
     sockets (fst result) = sockets w) /\
  (forall o,
     obj_get "type" o = JUndefined ->
     let result := on_message (WellFormed (JObj o)) w in
     snd result = Normal tt /\
     exists em cl,
       emitted (fst result) = emitted w ++ em /\
       calls (fst result) = calls w ++ cl /\
       (forall e, e ∈ em -> e.1.1 <> JStr "error") /\
       (JUndefined, obj_get "payload" o, JObj o) ∈ em /\
       (forall cb, cb ∈ _anyListeners (this w) ->
          (cb, [JUndefined; obj_get "payload" o; JObj o]) ∈ cl)).
Proof.
  split.
  - intros text. simpl.
    destruct (on_message_malformed text w) as [co ->]. simpl. done.
  - intros o Hty. simpl.
    assert (Hres : ack_resolver (JObj o) (this w) = None).
    { unfold ack_resolver. simpl. by rewrite Hty. }
    destruct (on_message_dispatch (JObj o) w) as [co ->]; try done.
    simpl. rewrite Hty. split; [done|].
    eexists _, _. split_and!; [done|done| | |].
    + intros e He. apply elem_of_cons in He as [->|He]; [done|].
      apply elem_of_cons in He as [->|He]; [done|].
      by apply elem_of_nil in He.
    + apply elem_of_cons. by left.
    + intros cb Hcb. unfold emit_calls at 1. simpl.
      apply elem_of_app. left. unfold pass.
      apply (list_elem_of_fmap_2 (fun cb => (cb, _))). done.
Qed.

(** C5. A send that awaits its ack, over an open transport, returns a
    deferred promise and owns from then on an entry of the table under its
    request id, a timeout timer and that pending promise, until the first
    of its two settling events, whatever else happens meanwhile.  If the
    ack comes first, the promise is fulfilled with the payload of the ack,
    the entry is removed and the timer is cancelled: firing it afterwards
    does nothing, and the promise stays fulfilled for ever.  If the timer
    fires first, the promise is rejected with the timeout error, the entry
    and the timer are gone, and the promise stays rejected for ever. *)
Theorem awaited_send_settles_once obj tmo (w : World) :
  reachable w -> ws_is_open w = true ->
  let rid := String_of_N (_nextRequestId (this w)) in
  let t := next_timer w in
  let p := length (promises w) in
  let sent := send obj {| awaitAck := Some true; timeout := tmo |} w in
  snd sent = Normal (Deferred p) /\
  awaiting rid t p (fst sent) /\
  forall evs, Forall (fun ev => ~ settling rid t ev) evs ->
    let w2 := run evs (fst sent) in
    awaiting rid t p w2 /\
    (forall s data,
       readyState_of s w2 = Some OPEN ->
       (frame_fields data).1.1 = JStr "ack" ->
       (frame_fields data).2 = JStr rid ->
       let w3 := step (SockMessage s (WellFormed data)) w2 in
       promises w3 !! p = Some (Fulfilled (frame_fields data).1.2) /\
       _pendingAcks (this w3) !! rid = None /\
       timers w3 !! t = None /\
       (forall now, step (TimerFire t now) w3 = w3) /\
       (forall evs', promises (run evs' w3) !! p
                     = Some (Fulfilled (frame_fields data).1.2))) /\
    (forall now,
       let w3 := step (TimerFire t now) w2 in
       promises w3 !! p = Some (Rejected (Error "Ack timeout")) /\
       _pendingAcks (this w3) !! rid = None /\
       timers w3 !! t = None /\
       (forall evs', promises (run evs' w3) !! p
                     = Some (Rejected (Error "Ack timeout")))).
Proof.
  intros Hreach Hopen rid t p sent.
  destruct (ws_is_open_inv w Hopen) as (s0 & sk & Hws & Hsk & Hst).
  pose proof (send_open obj {| awaitAck := Some true; timeout := tmo |}
                        w s0 sk Hws Hsk Hst) as Hsent.
  simpl in Hsent. fold rid t p sent in Hsent.
  assert (Hwf1 : wf (fst sent)).
  { apply reachable_wf. unfold sent. rewrite <- step_send.
    by apply reachable_step. }
  assert (Ha1 : awaiting rid t p (fst sent)).
  { rewrite Hsent. unfold_awaiting. simpl.
    rewrite !lookup_insert_eq. split_and!; [done|by eexists|].
    by rewrite lookup_app_r, Nat.sub_diag. }
  split_and!; [by rewrite Hsent|done|].
  intros evs Hquiet w2.
  pose proof (run_wf evs _ Hwf1) as Hwf2. fold w2 in Hwf2.
  pose proof (awaiting_run evs rid t p _ Hwf1 Ha1 Hquiet) as Ha2. fold w2 in Ha2.
  split_and!; [done| |].
  - intros s data Hs Hty Hrq w3.
    pose proof (ack_arrives s data rid t p w2 Hwf2 Ha2 Hs Hty Hrq) as Hset.
    fold w3 in Hset.
    destruct (entry_settled_after _ _ _ _ _ Hwf2 Hset) as (Hp3 & Hr3 & Ht3 & _).
    simpl in *. split_and!; try done.
    + intros now. unfold_step.
      by rewrite (deliver_timer_cancelled t now w3 Ht3).
    + intros evs'. apply settled_run; [|done|done].
      by eapply (wf_settled rid).
  - intros now w3.
    pose proof (timeout_fires now rid t p w2 Hwf2 Ha2) as Hset. fold w3 in Hset.
    destruct (entry_settled_after _ _ _ _ _ Hwf2 Hset) as (Hp3 & Hr3 & Ht3 & _).
    simpl in *. split_and!; try done.
    intros evs'. apply settled_run; [|done|done].
    by eapply (wf_settled rid).
Qed.

(** C6, as the code has it.  When the timeout of an awaited send fires
    first, the promise is rejected with the timeout error and the entry is
    removed, and no entry ever appears under that request id again.  An
    ack frame carrying the id that arrives afterwards finds no entry: it
    resolves nothing and changes neither the table nor the rejected
    promise.  It is not dropped, though: it falls through to the ordinary
    dispatch, which emits it as an event of type ["ack"] and invokes every
    subscriber of ["ack"] with its payload and the frame, and every
    wildcard subscriber with the type, the payload and the frame. *)
Theorem late_ack_after_timeout_is_dispatched rid t p now (w : World) :
  reachable w -> awaiting rid t p w ->
  let w1 := step (TimerFire t now) w in
  promises w1 !! p = Some (Rejected (Error "Ack timeout")) /\
  _pendingAcks (this w1) !! rid = None /\
  forall evs,
    let w2 := run evs w1 in
    _pendingAcks (this w2) !! rid = None /\
    forall s data,
      readyState_of s w2 = Some OPEN ->
      (frame_fields data).1.1 = JStr "ack" ->
      (frame_fields data).2 = JStr rid ->
      let payload := (frame_fields data).1.2 in
      let w3 := step (SockMessage s (WellFormed data)) w2 in
      promises w3 !! p = Some (Rejected (Error "Ack timeout")) /\
      _pendingAcks (this w3) = _pendingAcks (this w2) /\
      exists em cl,
        emitted w3 = emitted w2 ++ em /\
        calls w3 = calls w2 ++ cl /\
        (JStr "ack", payload, data) ∈ em /\
        (forall cb, cb ∈ default [] (_listeners (this w2) !! "ack") ->
           (cb, [payload; data]) ∈ cl) /\
        (forall cb, cb ∈ _anyListeners (this w2) ->
           (cb, [JStr "ack"; payload; data]) ∈ cl).
Proof.
  intros Hreach Ha w1. pose proof (reachable_wf w Hreach) as Hwf.
  pose proof (timeout_fires now rid t p w Hwf Ha) as Hset. fold w1 in Hset.
  destruct (entry_settled_after _ _ _ _ _ Hwf Hset) as (Hp1 & Hr1 & _ & Hret1).
  assert (Hwf1 : wf w1) by (by eapply (wf_settled rid)).
  simpl in Hp1. split_and!; [done|done|].
  intros evs w2.
  pose proof (run_wf evs w1 Hwf1) as Hwf2. fold w2 in Hwf2.
  pose proof (retired_run evs rid w1 Hwf1 Hret1) as Hret2. fold w2 in Hret2.
  pose proof (settled_run evs p _ w1 Hwf1 Hp1) as Hp2. fold w2 in Hp2.
  split; [by destruct Hret2|].
  intros s data Hs Hty Hrq payload w3.
  destruct (late_ack_dispatched s data rid w2 Hret2 Hs Hty Hrq) as [co Hw3].
  fold w3 payload in Hw3. rewrite Hw3. simpl.
  split_and!; [by apply Hp2|done|].
  eexists _, _. split_and!; [done|done| | |].
  - apply elem_of_cons. by left.
  - intros cb Hcb. apply elem_of_app. left. unfold emit_calls. simpl.
    apply elem_of_app. left. unfold pass.
    by apply (list_elem_of_fmap_2 (fun cb => (cb, _))).
  - intros cb Hcb. apply elem_of_app. left. unfold emit_calls. simpl.
    apply elem_of_app. right. unfold pass.
    by apply (list_elem_of_fmap_2 (fun cb => (cb, _))).
Qed.

(** ** [disconnect] *)

Lemma step_close_noop s ev (w : World) :
  readyState_of s w = None \/ readyState_of s w = Some CLOSED ->
  step (SockClose s ev) w = w.
Proof.
  intros Hst. unfold_step. simpl. unfold bind at 1, gets.
  by destruct Hst as [-> | ->].
Qed.

Lemma disconnect_run (w : World) :
  let w' := step Disconnect w in
  _shouldReconnect (this w') = false /\
  _heartbeatTimer (this w') = None /\
  ws (this w') = None /\
  timers w' = match _heartbeatTimer (this w) with
              | Some hb => delete hb (timers w)
              | None => timers w
              end /\
  next_timer w' = next_timer w.
Proof.
  simpl. unfold_step. simpl.
  unfold disconnect, _stopHeartbeat, bind, gets, modify, WebSocket_close,
    clearInterval, clearTimeout, readyState_of, set_readyState. simpl.
  destruct (ws (this w)) as [s|] eqn:Ews; simpl.
  - destruct (sockets w !! s) as [sk|]; simpl.
    + destruct (sock_state sk); simpl;
        destruct (_heartbeatTimer (this w)) eqn:E; simpl; rewrite ?E;
        split_and!; done.
    + destruct (_heartbeatTimer (this w)) eqn:E; simpl; rewrite ?E;
        split_and!; done.
  - destruct (_heartbeatTimer (this w)) eqn:E; simpl; rewrite ?E, ?Ews;
      split_and!; done.
Qed.

(** ** The reconnect intent *)

Lemma keeps_intent_off_ret {A} (a : A) : keeps_intent_off (ret a : JS A).
Proof. by intros w. Qed.

Lemma keeps_intent_off_gets {A} (f : World -> A) : keeps_intent_off (gets f).
Proof. by intros w. Qed.

Lemma keeps_intent_off_modify (f : World -> World) :
  (forall w, _shouldReconnect (this (f w)) = _shouldReconnect (this w)) ->
  keeps_intent_off (modify f).
Proof. intros Hf w Hw. simpl. by rewrite Hf. Qed.

Lemma keeps_intent_off_bind {A B} (m : JS A) (k : A -> JS B) :
  keeps_intent_off m -> (forall a, keeps_intent_off (k a)) ->
  keeps_intent_off (bind m k).
Proof.
  intros Hm Hk w Hw. unfold bind. specialize (Hm w Hw).
  destruct (m w) as [w' [a|e]]; simpl in *; [|done]. by apply Hk.
Qed.

Lemma keeps_intent_off_try_catch {A} (m : JS A) (h : jsval -> JS A) :
  keeps_intent_off m -> (forall e, keeps_intent_off (h e)) ->
  keeps_intent_off (try_catch m h).
Proof.
  intros Hm Hh w Hw. unfold try_catch. specialize (Hm w Hw).
  destruct (m w) as [w' [a|e]]; simpl in *; [done|]. by apply Hh.
Qed.

Lemma keeps_intent_off_emit eventType payload full :
  keeps_intent_off (_emit eventType payload full).
Proof. intros w Hw. by destruct (_emit_run eventType payload full w) as [co ->]. Qed.

Lemma keeps_intent_off_stopHeartbeat : keeps_intent_off _stopHeartbeat.
Proof.
  unfold _stopHeartbeat.
  apply keeps_intent_off_bind; [apply keeps_intent_off_gets|intros [t|]];
    [|apply keeps_intent_off_ret].
  apply keeps_intent_off_bind; [by apply keeps_intent_off_modify|intros _].
  by apply keeps_intent_off_modify.
Qed.

Lemma keeps_intent_off_add_timer a (d : num) b : keeps_intent_off (add_timer a d b).
Proof. by intros w. Qed.

Lemma keeps_intent_off_connectOnce : keeps_intent_off (_connectOnce : JS unit).
Proof.
  unfold _connectOnce.
  apply keeps_intent_off_bind; [apply keeps_intent_off_gets|intros u].
  apply keeps_intent_off_bind; [by intros w|intros s].
  by apply keeps_intent_off_modify.
Qed.

Lemma keeps_intent_off_set_readyState s st :
  keeps_intent_off (modify (set_readyState s st)).
Proof. apply keeps_intent_off_modify. intros w. by rewrite this_set_readyState. Qed.

Lemma keeps_intent_off_WebSocket_send s (data : @wire num) :
  keeps_intent_off (WebSocket_send s data).
Proof.
  intros w Hw. unfold WebSocket_send.
  destruct (sockets w !! s) as [sk|]; [|done]. by destruct (sock_state sk).
Qed.

Lemma keeps_intent_off_on_message msg : keeps_intent_off (on_message msg).
Proof.
  intros w Hw.
  destruct msg as [text|data].
  - by destruct (on_message_malformed text w) as [co ->].
  - destruct (ack_resolver data (this w)) as [r|] eqn:Hres.
    + rewrite (on_message_ack data r w Hres). simpl.
      unfold resolved, bind, resolver_resolve, clearTimeout, settle, modify,
        pendingAcks_delete. simpl.
      destruct (frame_fields data).2; simpl;
        by destruct (promises w !! res_promise r) as [[]|].
    + assert (Hcases : (data = JNull \/ data = JUndefined) \/
                       (data <> JNull /\ data <> JUndefined)).
      { destruct data; auto. }
      destruct Hcases as [Hnull|[Hn Hu]].
      * by destruct (on_message_nullish data w Hnull) as [co ->].
      * by destruct (on_message_dispatch data w Hn Hu Hres) as [co ->].
Qed.

(** Only [connect] sets the reconnect intent. *)
Lemma step_keeps_intent_off ev (w : World) :
  ev <> Connect -> _shouldReconnect (this w) = false ->
  _shouldReconnect (this (step ev w)) = false.
Proof.
  intros Hev. revert w.
  change (keeps_intent_off (deliver ev)).
  destruct ev as [| |obj opts|et cb|et cb|s|s ev|s err|s msg|t now]; simpl.
  - done.
  - intros w _. by destruct (disconnect_run w) as [? _].
  - apply keeps_intent_off_bind; [|intros _; apply keeps_intent_off_ret].
    intros w Hw. destruct (ws_is_open w) eqn:Hopen.
    + destruct (ws_is_open_inv w Hopen) as (s & sk & Hws & Hsk & Hst).
      rewrite (send_open obj opts w s sk Hws Hsk Hst).
      by destruct (default false (awaitAck opts)).
    + by rewrite (send_not_open obj opts w Hopen).
  - unfold on. destruct (String.eqb et "*"); by apply keeps_intent_off_modify.
  - unfold off. destruct (String.eqb et "*"); apply keeps_intent_off_modify;
      intros w; simpl; [done|]. by destruct (_listeners (this w) !! et).
  - apply keeps_intent_off_bind; [apply keeps_intent_off_gets|intros [[]|]];
      try apply keeps_intent_off_ret.
    apply keeps_intent_off_bind; [apply keeps_intent_off_set_readyState|intros _].
    unfold_on_open.
    apply keeps_intent_off_bind; [by apply keeps_intent_off_modify|intros _].
    apply keeps_intent_off_bind; [apply keeps_intent_off_emit|intros _].
    unfold _startHeartbeat.
    apply keeps_intent_off_bind; [apply keeps_intent_off_stopHeartbeat|intros _].
    apply keeps_intent_off_bind; [apply keeps_intent_off_gets|intros d].
    apply keeps_intent_off_bind; [apply keeps_intent_off_add_timer|intros t].
    by apply keeps_intent_off_modify.
  - apply keeps_intent_off_bind; [apply keeps_intent_off_gets|intros [[]|]];
      try apply keeps_intent_off_ret.
    all: apply keeps_intent_off_bind;
      [apply keeps_intent_off_set_readyState|intros _].
    all: unfold_on_close.
    all: apply keeps_intent_off_bind; [apply keeps_intent_off_emit|intros _].
    all: apply keeps_intent_off_bind; [apply keeps_intent_off_stopHeartbeat|intros _].
    all: apply keeps_intent_off_bind; [by apply keeps_intent_off_modify|intros _].
    all: apply keeps_intent_off_bind; [apply keeps_intent_off_gets|intros [|]];
      [|apply keeps_intent_off_ret].
    all: apply keeps_intent_off_bind; [apply keeps_intent_off_gets|intros d].
    all: apply keeps_intent_off_bind; [apply keeps_intent_off_add_timer|intros _].
    all: by apply keeps_intent_off_modify.
  - apply keeps_intent_off_bind; [apply keeps_intent_off_gets|intros [st|]];
      [|apply keeps_intent_off_ret].
    apply keeps_intent_off_emit.
  - apply keeps_intent_off_bind; [apply keeps_intent_off_gets|intros [[]|]];
      try apply keeps_intent_off_ret.
    apply keeps_intent_off_on_message.
  - apply keeps_intent_off_bind; [apply keeps_intent_off_gets|intros [tm|]];
      [|apply keeps_intent_off_ret].
    apply keeps_intent_off_bind.
    + destruct (t_repeat tm); [apply keeps_intent_off_ret|].
      by apply keeps_intent_off_modify.
    + intros _. destruct (t_action tm) as [|rid p|]; simpl.
      * apply keeps_intent_off_connectOnce.
      * unfold ack_timeout.
        apply keeps_intent_off_bind; [by apply keeps_intent_off_modify|intros _].
        apply keeps_intent_off_modify. intros w. simpl.
        by destruct (promises w !! p) as [[]|].
      * unfold heartbeat_tick.
        apply keeps_intent_off_bind; [apply keeps_intent_off_gets|intros [|]];
          [|apply keeps_intent_off_ret].
        apply keeps_intent_off_bind; [apply keeps_intent_off_gets|intros [s|]];
          [|apply keeps_intent_off_ret].
        apply keeps_intent_off_try_catch;
          [apply keeps_intent_off_WebSocket_send|intros; apply keeps_intent_off_ret].
Qed.

Lemma run_keeps_intent_off evs (w : World) :
  Forall (fun ev => ev <> Connect) evs -> _shouldReconnect (this w) = false ->
  _shouldReconnect (this (run evs w)) = false.
Proof.
  revert w. induction evs as [|ev evs IH]; intros w Hevs Hw; [done|].
  apply Forall_cons in Hevs as [Hev Hevs]. rewrite run_cons.
  apply IH; [done|]. by apply step_keeps_intent_off.
Qed.

(** C9. [disconnect] clears the reconnect intent, so that no close event
    after it registers a reconnect timer for as long as [connect] is not
    called again, and cancels the heartbeat timer.
    It leaves the table of pending acknowledgements, the promises and every
    ack timer (handle, request id and delay) exactly as they were.  So a
    send that was awaiting its ack is still awaiting it after the
    disconnect, and when its timer fires, with no ack for it in between,
    its promise is rejected with the timeout error. *)
Theorem disconnect_keeps_pending_acks rid t p (w : World) :
  reachable w -> awaiting rid t p w ->
  let w' := step Disconnect w in
  _shouldReconnect (this w') = false /\
  _heartbeatTimer (this w') = None /\
  (forall hb, _heartbeatTimer (this w) = Some hb -> timers w' !! hb = None) /\
  (forall evs, Forall (fun ev => ev <> Connect) evs ->
     forall s ev,
       let w2 := run evs w' in
       next_timer (step (SockClose s ev) w2) = next_timer w2 /\
       forall t' tm, timers (step (SockClose s ev) w2) !! t' = Some tm ->
                     timers w2 !! t' = Some tm) /\
  _pendingAcks (this w') = _pendingAcks (this w) /\
  promises w' = promises w /\
  (forall t' tm, is_ack_timer tm ->
     (timers w' !! t' = Some tm <-> timers w !! t' = Some tm)) /\
  awaiting rid t p w' /\
  (forall evs, Forall (fun ev => ~ settling rid t ev) evs ->
     forall now,
       let w'' := step (TimerFire t now) (run evs w') in
       promises w'' !! p = Some (Rejected (Error "Ack timeout")) /\
       _pendingAcks (this w'') !! rid = None).
Proof.
  intros Hreach Ha w'. pose proof (reachable_wf w Hreach) as Hwf.
  destruct (disconnect_run w) as (Hflag & Hhb & _ & Htm & Hnt).
  fold w' in Hflag, Hhb, Htm, Hnt.
  destruct (bookkeeping_of_quiet w w' (quietly_disconnect w) Hwf)
    as [Hwf' [Hp _ Hps Hack]].
  assert (Ha' : awaiting rid t p w').
  { apply (awaiting_step Disconnect rid t p w); [done|done|simpl; tauto]. }
  split_and!; try done.
  - intros hb Hhb0. rewrite Htm, Hhb0. by rewrite lookup_delete_eq.
  - intros evs Hevs s ev w2.
    pose proof (run_keeps_intent_off evs w' Hevs Hflag) as Hflag2.
    fold w2 in Hflag2.
    destruct (readyState_of s w2) as [st|] eqn:Hst.
    2:{ rewrite (step_close_noop s ev w2); [done|by left]. }
    assert (st = CLOSED \/ st <> CLOSED) as [->|Hne]
      by (destruct st; auto).
    { rewrite (step_close_noop s ev w2); [done|by right]. }
    rewrite (step_close s ev w2 st Hst Hne).
    destruct (on_close_stays_closed ev (set_readyState s CLOSED w2))
      as (Hnt' & Htm' & _).
    { by rewrite this_set_readyState. }
    rewrite next_timer_set_readyState in Hnt'.
    split; [done|]. intros t' tm Hl. apply Htm' in Hl.
    by rewrite timers_set_readyState in Hl.
  - intros evs Hquiet now w''.
    pose proof (run_wf evs w' Hwf') as Hwf2.
    pose proof (awaiting_run evs rid t p w' Hwf' Ha' Hquiet) as Ha2.
    pose proof (timeout_fires now rid t p _ Hwf2 Ha2) as Hset. fold w'' in Hset.
    destruct (entry_settled_after _ _ _ _ _ Hwf2 Hset) as (Hp3 & Hr3 & _ & _).
    done.
Qed.

(** ** Backoff *)

(** Every close under reconnect intent schedules the reconnect with the
    delay as it is, and grows the delay afterwards. *)
Lemma close_schedules_then_grows s st ev (w : World) :
  readyState_of s w = Some st -> st <> CLOSED ->
  _shouldReconnect (this w) = true ->
  let w' := step (SockClose s ev) w in
  timers w' !! next_timer w
    = Some {| t_action := ReconnectTimer; t_delay := _reconnectDelay (this w);
              t_repeat := false |} /\
  _reconnectDelay (this w')
    = num_min (num_mul (_reconnectDelay (this w)) (_backoffFactor (this w)))
              (_maxReconnectDelay (this w)).
Proof.
  intros Hst Hne Hflag. simpl. rewrite (step_close s ev w st Hst Hne).
  destruct (on_close_reconnects ev (set_readyState s CLOSED w))
    as (Htm & _ & Hd & _).
  { by rewrite this_set_readyState. }
  rewrite next_timer_set_readyState, this_set_readyState in Htm.
  rewrite this_set_readyState in Hd. done.
Qed.

(** The open handler sets the delay to the literal 1000. *)
Lemma open_sets_delay_1000 s (w : World) :
  readyState_of s w = Some CONNECTING ->
  _reconnectDelay (this (step (SockOpen s) w)) = num_lit 1000.
Proof.
  intros Hst. unfold_step. simpl. unfold bind at 1, gets. rewrite Hst.
  unfold_on_open; unfold bind, modify.
  match goal with |- context [_emit ?a ?b ?c ?w1] =>
    destruct (_emit_run a b c w1) as [co ->] end.
  unfold _startHeartbeat, _stopHeartbeat, bind, gets, clearInterval,
    clearTimeout, modify, setInterval, add_timer. simpl.
  rewrite this_set_readyState.
  by destruct (_heartbeatTimer (this w)).
Qed.

(** * Further properties of the client *)

(** ** Sets of callbacks *)

Lemma elem_of_Set_add x cb (s : list cb_id) : x ∈ Set_add cb s <-> x ∈ s \/ x = cb.
Proof.
  unfold Set_add. case_bool_decide as Hin.
  - split; [auto|]. intros [?| ->]; done.
  - rewrite elem_of_app, list_elem_of_singleton. done.
Qed.

Lemma Set_add_idem cb (s : list cb_id) : Set_add cb (Set_add cb s) = Set_add cb s.
Proof.
  unfold Set_add at 1. rewrite bool_decide_eq_true_2; [done|].
  apply elem_of_Set_add. by right.
Qed.

Lemma NoDup_Set_add cb (s : list cb_id) : NoDup s -> NoDup (Set_add cb s).
Proof.
  intros Hs. unfold Set_add. case_bool_decide as Hin; [done|].
  apply NoDup_app. split_and!; [done| |apply NoDup_singleton].
  intros x Hx Hx'. apply list_elem_of_singleton in Hx'. by subst.
Qed.

Lemma elem_of_Set_delete x cb (s : list cb_id) :
  x ∈ Set_delete cb s <-> x ∈ s /\ x <> cb.
Proof. unfold Set_delete. rewrite list_elem_of_filter. tauto. Qed.

Lemma Set_delete_absent cb (s : list cb_id) : cb ∉ s -> Set_delete cb s = s.
Proof.
  unfold Set_delete. induction s as [|x s IH]; intros Hnotin; [done|].
  apply not_elem_of_cons in Hnotin as [Hne Hnotin].
  rewrite filter_cons_True by done. by rewrite IH.
Qed.


Lemma NoDup_Set_delete cb (s : list cb_id) : NoDup s -> NoDup (Set_delete cb s).
Proof. apply NoDup_filter. Qed.

(** ** [on] and [off] *)

Lemma step_on et cb (w : World) :
  step (On et cb) w
  = if String.eqb et "*" then
      update_this (fun c => set_anyListeners (Set_add cb (_anyListeners c)) c) w
    else
      update_this (fun c =>
        set_listeners (<[et := Set_add cb (default [] (_listeners c !! et))]>
                         (_listeners c)) c) w.
Proof. unfold_step. simpl. unfold on. by destruct (String.eqb et "*"). Qed.

Lemma step_off et cb (w : World) :
  step (Off et cb) w
  = if String.eqb et "*" then
      update_this (fun c => set_anyListeners (Set_delete cb (_anyListeners c)) c) w
    else
      update_this (fun c =>
        match _listeners c !! et with
        | Some s => set_listeners (<[et := Set_delete cb s]> (_listeners c)) c
        | None => c
        end) w.
Proof. unfold_step. simpl. unfold off. by destruct (String.eqb et "*"). Qed.

Lemma subscribers_on et cb et' (w : World) :
  subscribers et' (this (step (On et cb) w))
  = if String.eqb et' et then Set_add cb (subscribers et' (this w))
    else subscribers et' (this w).
Proof.
  rewrite step_on. unfold subscribers.
  destruct (String.eqb_spec et "*") as [->|Hstar].
  - by destruct (String.eqb et' "*").
  - destruct (String.eqb_spec et' "*") as [->|Hstar'].
    + rewrite (proj2 (String.eqb_neq "*" et)) by congruence. done.
    + cbn [this update_this set_listeners _listeners].
      destruct (String.eqb_spec et' et) as [->|Hne].
      * by rewrite lookup_insert_eq.
      * by rewrite lookup_insert_ne.
Qed.

Lemma subscribers_off et cb et' (w : World) :
  subscribers et' (this (step (Off et cb) w))
  = if String.eqb et' et then Set_delete cb (subscribers et' (this w))
    else subscribers et' (this w).
Proof.
  rewrite step_off. unfold subscribers.
  destruct (String.eqb_spec et "*") as [->|Hstar].
  - by destruct (String.eqb et' "*").
  - destruct (String.eqb_spec et' "*") as [->|Hstar'].
    + rewrite (proj2 (String.eqb_neq "*" et)) by congruence.
      cbn [this update_this]. by destruct (_listeners (this w) !! et).
    + cbn [this update_this].
      destruct (String.eqb_spec et' et) as [->|Hne].
      * destruct (_listeners (this w) !! et) as [s|] eqn:Hs.
        -- cbn [set_listeners _listeners]. by rewrite lookup_insert_eq.
        -- by rewrite Hs.
      * destruct (_listeners (this w) !! et) as [s|] eqn:Hs; [|done].
        cbn [set_listeners _listeners]. by rewrite lookup_insert_ne.
Qed.

(** X1. [on(eventType, cb)] adds [cb] to the subscribers of that event
    type and to no other: a callback already registered there keeps its
    place, a new one goes last, so that dispatch follows the order of
    registration.  Registering the same callback for the same type a second
    time changes nothing at all. *)
Theorem on_registers_once et cb (w : World) :
  (forall et' cb',
     cb' ∈ subscribers et' (this (step (On et cb) w)) <->
     cb' ∈ subscribers et' (this w) \/ (et' = et /\ cb' = cb)) /\
  subscribers et (this (step (On et cb) w))
    = (if bool_decide (cb ∈ subscribers et (this w))
       then subscribers et (this w)
       else subscribers et (this w) ++ [cb]) /\
  step (On et cb) (step (On et cb) w) = step (On et cb) w.
Proof.
  split_and!.
  - intros et' cb'. rewrite subscribers_on.
    destruct (String.eqb_spec et' et) as [->|Hne].
    + rewrite elem_of_Set_add. intuition (subst; eauto).
    + intuition (subst; eauto).
  - rewrite subscribers_on, String.eqb_refl. done.
  - rewrite !step_on. destruct w as [c sk tm nt ps h co cl em].
    destruct c. unfold update_this. simpl.
    destruct (String.eqb et "*"); simpl; f_equal; unfold set_anyListeners,
      set_listeners; simpl; f_equal.
    + apply Set_add_idem.
    + rewrite lookup_insert_eq. simpl. rewrite insert_insert_eq.
      by rewrite Set_add_idem.
Qed.

(** X2. [off(eventType, cb)] removes [cb] from the subscribers of that
    event type and touches nothing else: the other callbacks of the type
    stay, in their order, and the subscribers of every other type, the
    wildcard set included, are as before. *)
Theorem off_removes_only_that_callback et cb (w : World) :
  (forall et' cb',
     cb' ∈ subscribers et' (this (step (Off et cb) w)) <->
     cb' ∈ subscribers et' (this w) /\ ~ (et' = et /\ cb' = cb)) /\
  subscribers et (this (step (Off et cb) w))
    = filter (fun x => x <> cb) (subscribers et (this w)) /\
  (forall et', et' <> et ->
     subscribers et' (this (step (Off et cb) w)) = subscribers et' (this w)).
Proof.
  split_and!.
  - intros et' cb'. rewrite subscribers_off.
    destruct (String.eqb_spec et' et) as [->|Hne].
    + rewrite elem_of_Set_delete. intuition (subst; eauto).
    + intuition (subst; eauto).
  - rewrite subscribers_off, String.eqb_refl. done.
  - intros et' Hne. rewrite subscribers_off.
    by apply String.eqb_neq in Hne as ->.
Qed.

(** X3. [off] of a callback that is not subscribed to the event type, be
    it that the type has no subscribers at all, changes nothing. *)
Theorem off_of_absent_callback_is_noop et cb (w : World) :
  cb ∉ subscribers et (this w) -> step (Off et cb) w = w.
Proof.
  intros Hnotin. rewrite step_off. unfold subscribers in Hnotin.
  destruct w as [c sk tm nt ps h co cl em]. destruct c. simpl in *.
  unfold update_this. simpl.
  destruct (String.eqb et "*"); simpl.
  - unfold set_anyListeners. simpl. by rewrite Set_delete_absent.
  - destruct (_listeners0 !! et) as [s|] eqn:Hs; simpl in *; [|done].
    unfold set_listeners. simpl. rewrite Set_delete_absent by done.
    by rewrite insert_id.
Qed.


(** ** Keeping a property of the world *)

Lemma preserves_ret {A} P (a : A) : preserves P (ret a : JS A).
Proof. by intros w. Qed.

Lemma preserves_gets {A} P (f : World -> A) : preserves P (gets f).
Proof. by intros w. Qed.

Lemma preserves_modify P (f : World -> World) :
  (forall w, P w -> P (f w)) -> preserves P (modify f).
Proof. intros Hf w Hw. by apply Hf. Qed.

Lemma preserves_bind {A B} P (m : JS A) (k : A -> JS B) :
  preserves P m -> (forall a, preserves P (k a)) -> preserves P (bind m k).
Proof.
  intros Hm Hk w Hw. unfold bind. specialize (Hm w Hw).
  destruct (m w) as [w' [a|e]]; simpl in *; [|done]. by apply Hk.
Qed.

Lemma preserves_try_catch {A} P (m : JS A) (h : jsval -> JS A) :
  preserves P m -> (forall e, preserves P (h e)) -> preserves P (try_catch m h).
Proof.
  intros Hm Hh w Hw. unfold try_catch. specialize (Hm w Hw).
  destruct (m w) as [w' [a|e]]; simpl in *; [done|]. by apply Hh.
Qed.

(** A property of the client object is kept by whatever leaves the
    client object alone. *)
Lemma preserves_client_same {A} (P : WsClient -> Prop) (m : JS A) :
  (forall w, this (fst (m w)) = this w) -> preserves (fun w => P (this w)) m.
Proof. intros Hm w Hw. by rewrite Hm. Qed.

Lemma this_emit eventType payload full (w : World) :
  this (fst (_emit eventType payload full w)) = this w.
Proof. by destruct (_emit_run eventType payload full w) as [co ->]. Qed.

Lemma this_WebSocket_send s (data : @wire num) (w : World) :
  this (fst (WebSocket_send s data w)) = this w.
Proof.
  unfold WebSocket_send. destruct (sockets w !! s) as [sk|]; [|done].
  by destruct (sock_state sk).
Qed.

Lemma this_WebSocket_close s (w : World) :
  this (fst (WebSocket_close s w)) = this w.
Proof.
  unfold WebSocket_close. destruct (readyState_of s w) as [[]|]; simpl;
    try done; apply this_set_readyState.
Qed.

Section ClientProperty.

Variable P : WsClient -> Prop.
Hypothesis HP : kept_by_assignments P.

Local Abbreviation PW := (fun w : World => P (this w)).

Lemma kept_stopHeartbeat : preserves PW _stopHeartbeat.
Proof.
  unfold _stopHeartbeat.
  apply preserves_bind; [apply preserves_gets|intros [t|]];
    [|apply preserves_ret].
  apply preserves_bind; [by apply preserves_client_same|intros _].
  apply preserves_modify. intros w Hw. by apply HP.
Qed.

Lemma kept_startHeartbeat : preserves PW _startHeartbeat.
Proof.
  unfold _startHeartbeat.
  apply preserves_bind; [apply kept_stopHeartbeat|intros _].
  apply preserves_bind; [apply preserves_gets|intros d].
  apply preserves_bind; [by apply preserves_client_same|intros t].
  apply preserves_modify. intros w Hw. by apply HP.
Qed.

Lemma kept_connectOnce : preserves PW _connectOnce.
Proof.
  unfold _connectOnce.
  apply preserves_bind; [apply preserves_gets|intros u].
  apply preserves_bind; [by apply preserves_client_same|intros s].
  apply preserves_modify. intros w Hw. by apply HP.
Qed.

Lemma kept_on_open : preserves PW on_open.
Proof.
  unfold_on_open.
  apply preserves_bind; [|intros _].
  { apply preserves_modify. intros w Hw. by apply HP. }
  apply preserves_bind;
    [apply preserves_client_same; intros w; apply this_emit|intros _].
  apply kept_startHeartbeat.
Qed.

Lemma kept_on_close ev : preserves PW (on_close ev).
Proof.
  unfold_on_close.
  apply preserves_bind;
    [apply preserves_client_same; intros w; apply this_emit|intros _].
  apply preserves_bind; [apply kept_stopHeartbeat|intros _].
  apply preserves_bind; [|intros _].
  { apply preserves_modify. intros w Hw. by apply HP. }
  apply preserves_bind; [apply preserves_gets|intros [|]];
    [|apply preserves_ret].
  apply preserves_bind; [apply preserves_gets|intros d].
  apply preserves_bind; [by apply preserves_client_same|intros _].
  apply preserves_modify. intros w Hw. by apply HP.
Qed.

Lemma kept_on_message msg : preserves PW (on_message msg).
Proof.
  intros w Hw.
  destruct msg as [text|data].
  - by destruct (on_message_malformed text w) as [co ->].
  - destruct (ack_resolver data (this w)) as [r|] eqn:Hres.
    + rewrite (on_message_ack data r w Hres). simpl.
      unfold resolved, bind, resolver_resolve, clearTimeout, settle, modify,
        pendingAcks_delete. simpl.
      destruct (frame_fields data).2; simpl;
        destruct (promises w !! res_promise r) as [[]|]; simpl;
        try done; by apply HP.
    + assert (Hcases : (data = JNull \/ data = JUndefined) \/
                       (data <> JNull /\ data <> JUndefined)).
      { destruct data; auto. }
      destruct Hcases as [Hnull|[Hn Hu]].
      * by destruct (on_message_nullish data w Hnull) as [co ->].
      * by destruct (on_message_dispatch data w Hn Hu Hres) as [co ->].
Qed.

Lemma kept_send obj opts : preserves PW (send obj opts).
Proof.
  intros w Hw. destruct (ws_is_open w) eqn:Hopen.
  - destruct (ws_is_open_inv w Hopen) as (s & sk & Hws & Hsk & Hst).
    rewrite (send_open obj opts w s sk Hws Hsk Hst).
    destruct (default false (awaitAck opts)); simpl; repeat apply HP; done.
  - by rewrite (send_not_open obj opts w Hopen).
Qed.

Lemma kept_disconnect : preserves PW disconnect.
Proof.
  unfold disconnect.
  apply preserves_bind; [|intros _].
  { apply preserves_modify. intros w Hw. by apply HP. }
  apply preserves_bind; [apply preserves_gets|intros s].
  apply preserves_bind; [|intros _; apply kept_stopHeartbeat].
  destruct s as [s|]; [|apply preserves_ret].
  apply preserves_bind;
    [apply preserves_client_same; intros w; apply this_WebSocket_close|intros _].
  apply preserves_modify. intros w Hw. by apply HP.
Qed.

Lemma kept_run_timer a now : preserves PW (run_timer a now).
Proof.
  destruct a as [|rid p|]; simpl.
  - apply kept_connectOnce.
  - unfold ack_timeout.
    apply preserves_bind; [|intros _].
    { apply preserves_modify. intros w Hw. by apply HP. }
    apply preserves_client_same. intros w. simpl.
    by destruct (promises w !! p) as [[]|].
  - unfold heartbeat_tick.
    apply preserves_bind; [apply preserves_gets|intros [|]];
      [|apply preserves_ret].
    apply preserves_bind; [apply preserves_gets|intros [s|]];
      [|apply preserves_ret].
    apply preserves_try_catch; [|intros; apply preserves_ret].
    apply preserves_client_same. intros w. apply this_WebSocket_send.
Qed.

(** Every event but a change of the registry keeps a property of the
    client object that the assignments keep. *)
Lemma kept_deliver ev : ~ registers ev -> preserves PW (deliver ev).
Proof.
  intros Hev.
  destruct ev as [| |obj opts|et cb|et cb|s|s ev|s err|s msg|t now]; simpl.
  - unfold connect.
    apply preserves_bind; [apply preserves_gets|intros [s|]];
      [apply preserves_ret|].
    apply preserves_bind; [|intros _; apply kept_connectOnce].
    apply preserves_modify. intros w Hw. by apply HP.
  - apply kept_disconnect.
  - apply preserves_bind; [apply kept_send|intros _; apply preserves_ret].
  - by destruct Hev.
  - by destruct Hev.
  - apply preserves_bind; [apply preserves_gets|intros [[]|]];
      try apply preserves_ret.
    apply preserves_bind; [|intros _; apply kept_on_open].
    apply preserves_client_same. intros w. apply this_set_readyState.
  - apply preserves_bind; [apply preserves_gets|intros [[]|]];
      try apply preserves_ret.
    all: apply preserves_bind; [|intros _; apply kept_on_close].
    all: apply preserves_client_same; intros w; apply this_set_readyState.
  - apply preserves_bind; [apply preserves_gets|intros [st|]];
      [|apply preserves_ret].
    apply preserves_client_same. intros w. apply this_emit.
  - apply preserves_bind; [apply preserves_gets|intros [[]|]];
      try apply preserves_ret.
    apply kept_on_message.
  - apply preserves_bind; [apply preserves_gets|intros [tm|]];
      [|apply preserves_ret].
    apply preserves_bind; [|intros _; apply kept_run_timer].
    destruct (t_repeat tm); [apply preserves_ret|].
    by apply preserves_client_same.
Qed.

End ClientProperty.

(** ** The registry and the configuration along runs *)

Lemma step_keeps_registry ev (w : World) :
  ~ registers ev -> registry (step ev w) = registry w.
Proof.
  intros Hev.
  apply (kept_deliver (fun c => (_listeners c, _anyListeners c) = registry w));
    [by split|done|done].
Qed.

(** X5. Subscriptions belong to the client, not to a transport: nothing
    but [on] and [off] changes the subscribers of any event type.  They
    survive [connect] and [disconnect], every open, close, error and
    message of any socket, every send and every timer, reconnects
    included. *)
Theorem subscriptions_survive_reconnects evs (w : World) :
  Forall (fun ev => ~ registers ev) evs ->
  _listeners (this (run evs w)) = _listeners (this w) /\
  _anyListeners (this (run evs w)) = _anyListeners (this w) /\
  forall et, subscribers et (this (run evs w)) = subscribers et (this w).
Proof.
  intros Hevs.
  assert (Hreg : registry (run evs w) = registry w).
  { revert w. induction evs as [|ev evs IH]; intros w; [done|].
    apply Forall_cons in Hevs as [Hev Hevs]. rewrite run_cons.
    rewrite (IH Hevs). by apply step_keeps_registry. }
  injection Hreg as Hl Ha. split_and!; [done|done|].
  intros et. unfold subscribers. by rewrite Hl, Ha.
Qed.

Lemma registry_ok_step ev (w : World) :
  registry_ok (this w) -> registry_ok (this (step ev w)).
Proof.
  intros (Hany & Htyped & Hstar).
  assert (Hcases : registers ev \/ ~ registers ev) by (destruct ev; simpl; auto).
  destruct Hcases as [Hreg|Hreg].
  - destruct ev as [| | |et cb|et cb| | | | |]; try done.
    + rewrite step_on. destruct (String.eqb_spec et "*") as [->|Hne];
        cbn [this update_this].
      * split_and!; [by apply NoDup_Set_add|done|done].
      * split_and!; [done| |].
        -- intros et' s Hs. cbn [set_listeners _listeners] in Hs.
           apply lookup_insert_Some in Hs as [[_ <-]|[_ Hs]]; [|by eapply Htyped].
           apply NoDup_Set_add.
           destruct (_listeners (this w) !! et) as [s0|] eqn:Hs0; simpl;
             [by eapply Htyped|apply NoDup_nil_2].
        -- cbn [set_listeners _listeners]. by rewrite lookup_insert_ne.
    + rewrite step_off. destruct (String.eqb_spec et "*") as [->|Hne];
        cbn [this update_this].
      * split_and!; [by apply NoDup_Set_delete|done|done].
      * destruct (_listeners (this w) !! et) as [s0|] eqn:Hs0; [|done].
        split_and!; [done| |].
        -- intros et' s Hs. cbn [set_listeners _listeners] in Hs.
           apply lookup_insert_Some in Hs as [[_ <-]|[_ Hs]]; [|by eapply Htyped].
           apply NoDup_Set_delete. by eapply Htyped.
        -- cbn [set_listeners _listeners]. by rewrite lookup_insert_ne.
  - pose proof (step_keeps_registry ev w Hreg) as Heq.
    injection Heq as Hl Ha. unfold registry_ok. by rewrite Hl, Ha.
Qed.

(** X6. The registry holds sets.  In every world the client can get to,
    no callback is twice among the subscribers of an event type, so one
    [_emit] invokes each subscriber of the type once and each wildcard
    subscriber once; and the map of typed subscribers has no key ["*"],
    so an [_emit("*", ...)] reaches the wildcard subscribers only. *)
Theorem registry_holds_sets (w : World) :
  reachable w ->
  (forall et, NoDup (subscribers et (this w))) /\
  listeners_get (JStr "*") (this w) = None /\
  forall eventType payload full,
    NoDup (pass [payload; full] (default [] (listeners_get eventType (this w)))) /\
    NoDup (pass [eventType; payload; full] (_anyListeners (this w))).
Proof.
  intros (u & opts & h & evs & ->).
  assert (Hok : registry_ok (this (run evs (new_world u opts h)))).
  { assert (H0 : registry_ok (this (new_world u opts h))).
    { split_and!; [apply NoDup_nil_2| |done]. intros et s Hs. simpl in Hs.
      by rewrite lookup_empty in Hs. }
    revert H0. generalize (new_world u opts h).
    induction evs as [|ev evs IH]; intros w Hw; [done|].
    rewrite run_cons. apply IH. by apply registry_ok_step. }
  destruct Hok as (Hany & Htyped & Hstar).
  assert (Hpass : forall (args : list jsval) (s : list cb_id),
            NoDup s -> NoDup (pass args s)).
  { intros args s Hs. unfold pass.
    induction Hs as [|x s Hx Hs IH]; simpl; constructor; [|done].
    intros Hin. apply list_elem_of_In, in_map_iff in Hin as (y & Heq & Hy).
    injection Heq as ->. apply Hx. by apply list_elem_of_In. }
  split_and!.
  - intros et. unfold subscribers. destruct (String.eqb et "*"); [done|].
    destruct (_listeners _ !! et) as [s|] eqn:Hs; simpl;
      [by eapply Htyped|apply NoDup_nil_2].
  - done.
  - intros eventType payload full. split; apply Hpass; [|done].
    destruct eventType as [| | | |et| | |]; simpl; try apply NoDup_nil_2.
    destruct (_listeners _ !! et) as [s|] eqn:Hs; simpl;
      [by eapply Htyped|apply NoDup_nil_2].
Qed.

(** X7. What the constructor fixes stays fixed: no method, no event of a
    socket and no timer ever changes the url, the maximal reconnect delay,
    the backoff factor or the heartbeat interval of the client. *)
Theorem configuration_is_fixed evs (w : World) :
  configuration (this (run evs w)) = configuration (this w).
Proof.
  revert w. induction evs as [|ev evs IH]; intros w; [done|].
  rewrite run_cons, IH.
  assert (Hcases : registers ev \/ ~ registers ev) by (destruct ev; simpl; auto).
  destruct Hcases as [Hreg|Hreg].
  - destruct ev as [| | |et cb|et cb| | | | |]; try done.
    + rewrite step_on. by destruct (String.eqb et "*").
    + rewrite step_off. destruct (String.eqb et "*"); [done|].
      cbn [this update_this]. by destruct (_listeners (this w) !! et).
  - apply (kept_deliver (fun c => configuration c = configuration (this w)));
      [by split|done|done].
Qed.

(** ** [connect] and [disconnect] *)

Lemma step_connect_connected s (w : World) :
  ws (this w) = Some s -> step Connect w = w.
Proof. intros Hws. unfold_step. simpl. unfold connect, bind, gets. by rewrite Hws. Qed.

Lemma step_connect_fresh (w : World) :
  ws (this w) = None ->
  step Connect w
  = update_this (set_ws (Some (length (sockets w))))
      (set_sockets (sockets w ++ [{| sock_url := url (this w);
                                     sock_state := CONNECTING; sock_sent := [] |}])
         (update_this (set_shouldReconnect true) w)).
Proof. intros Hws. unfold_step. simpl. unfold connect, bind, gets. by rewrite Hws. Qed.

(** X8. [connect] is idempotent.  With a transport handle in place it
    does nothing at all.  Without one it constructs exactly one socket,
    connecting to the url of the client, makes it the current handle and
    sets the reconnect intent; a second [connect] right after changes
    nothing. *)
Theorem connect_is_idempotent (w : World) :
  (forall s, ws (this w) = Some s -> step Connect w = w) /\
  (ws (this w) = None ->
     sockets (step Connect w)
       = sockets w ++ [{| sock_url := url (this w); sock_state := CONNECTING;
                          sock_sent := [] |}] /\
     ws (this (step Connect w)) = Some (length (sockets w)) /\
     _shouldReconnect (this (step Connect w)) = true) /\
  step Connect (step Connect w) = step Connect w.
Proof.
  split_and!.
  - intros s. apply step_connect_connected.
  - intros Hws. by rewrite step_connect_fresh.
  - destruct (ws (this w)) as [s|] eqn:Hws.
    + by rewrite !(step_connect_connected s w Hws).
    + apply (step_connect_connected (length (sockets w))).
      by rewrite step_connect_fresh.
Qed.

Lemma step_disconnect_disconnected (w : World) :
  ws (this w) = None -> _heartbeatTimer (this w) = None ->
  _shouldReconnect (this w) = false ->
  step Disconnect w = w.
Proof.
  intros Hws Hhb Hflag.
  destruct w as [c sk tm nt ps h co cl em]. destruct c. simpl in *. subst.
  reflexivity.
Qed.

(** X9. [disconnect] is idempotent, and it closes the door: after it the
    client has no transport handle, no heartbeat and no reconnect intent,
    the socket it held has started closing, a second [disconnect] changes
    nothing, and every [send] fails with the not-connected error. *)
Theorem disconnect_is_idempotent (w : World) :
  let w' := step Disconnect w in
  step Disconnect w' = w' /\
  ws (this w') = None /\
  (forall s st, ws (this w) = Some s -> readyState_of s w = Some st ->
     readyState_of s w'
       = Some (match st with CONNECTING | OPEN => CLOSING | _ => st end)) /\
  forall obj opts,
    send obj opts w'
    = (w', Normal (Settled (Rejected (Error "WebSocket is not open")))).
Proof.
  intros w'. destruct (disconnect_run w) as (Hflag & Hhb & Hws & _ & _).
  fold w' in Hflag, Hhb, Hws.
  split_and!.
  - by apply step_disconnect_disconnected.
  - done.
  - intros s st Hs Hst. unfold w'. unfold_step. simpl.
    unfold readyState_of in Hst.
    destruct (sockets w !! s) as [sk|] eqn:Hsk; [|done]. simpl in Hst.
    injection Hst as <-. apply lookup_lt_Some in Hsk as Hlt.
    unfold disconnect, _stopHeartbeat, bind, gets, modify, WebSocket_close,
      clearInterval, clearTimeout, readyState_of, set_readyState. simpl.
    rewrite Hs. simpl. rewrite Hsk. simpl.
    destruct (sock_state sk) eqn:Hstate; simpl; rewrite ?Hsk; simpl;
      destruct (_heartbeatTimer (this w)); simpl;
      rewrite ?list_lookup_insert_eq by done; simpl; rewrite ?Hsk; simpl;
      by rewrite ?Hstate.
  - intros obj opts. apply send_not_open. unfold ws_is_open. by rewrite Hws.
Qed.

(** X10. A reconnect timer that fires always opens a transport: it
    constructs a new socket to the url of the client and makes it the
    current handle, whatever the reconnect intent says and whether or not
    a handle is in place.  A reconnect scheduled before [disconnect] is not
    suppressed by it. *)
Theorem reconnect_timer_opens_regardless t tm now (w : World) :
  timers w !! t = Some tm -> t_action tm = ReconnectTimer -> t_repeat tm = false ->
  let w' := step (TimerFire t now) w in
  sockets w'
    = sockets w ++ [{| sock_url := url (this w); sock_state := CONNECTING;
                       sock_sent := [] |}] /\
  ws (this w') = Some (length (sockets w)) /\
  _shouldReconnect (this w') = _shouldReconnect (this w) /\
  timers w' = delete t (timers w).
Proof.
  intros Ht Hact Hrep. simpl. unfold_step.
  rewrite (deliver_timer t now w tm Ht), Hact, Hrep. done.
Qed.

(** ** The open and close handlers *)

Lemma readyState_set s st (w : World) :
  is_Some (sockets w !! s) -> readyState_of s (set_readyState s st w) = Some st.
Proof.
  intros [sk Hsk]. unfold readyState_of, set_readyState. rewrite Hsk. simpl.
  rewrite list_lookup_insert_eq; [done|]. by apply lookup_lt_Some in Hsk.
Qed.

Lemma readyState_is_Some s st (w : World) :
  readyState_of s w = Some st -> is_Some (sockets w !! s).
Proof. unfold readyState_of. by destruct (sockets w !! s); [eexists|]. Qed.

(** X11. The close event of any socket that is not closed yet, the
    current one or an older one, is emitted to the subscribers of
    ["close"] with the details of the close, stops the heartbeat and clears
    the transport handle of the client. *)
Theorem close_clears_handle_and_heartbeat s st ev (w : World) :
  reachable w -> readyState_of s w = Some st -> st <> CLOSED ->
  let w' := step (SockClose s ev) w in
  ws (this w') = None /\
  _heartbeatTimer (this w') = None /\
  (forall hb, _heartbeatTimer (this w) = Some hb -> timers w' !! hb = None) /\
  readyState_of s w' = Some CLOSED /\
  emitted w' = emitted w ++ [(JStr "close", ev, JUndefined)] /\
  calls w' = calls w ++ emit_calls (JStr "close") ev JUndefined (this w).
Proof.
  intros Hreach Hst Hne. simpl. rewrite (step_close s ev w st Hst Hne).
  pose proof (reachable_wf w Hreach) as Hwf.
  pose proof (readyState_set s CLOSED w (readyState_is_Some s st w Hst)) as Hclosed.
  pose proof (this_set_readyState s CLOSED w) as Hthis.
  pose proof (timers_set_readyState s CLOSED w) as Htm.
  pose proof (next_timer_set_readyState s CLOSED w) as Hnt.
  assert (Hlogs : emitted (set_readyState s CLOSED w) = emitted w /\
                  calls (set_readyState s CLOSED w) = calls w).
  { unfold set_readyState. by destruct (sockets w !! s). }
  destruct Hlogs as [Hem Hcl].
  revert Hclosed Hthis Htm Hnt Hem Hcl. generalize (set_readyState s CLOSED w).
  intros w1 Hclosed Hthis Htm Hnt Hem Hcl.
  unfold_on_close; unfold bind.
  destruct (_emit_run (JStr "close") ev JUndefined w1) as [co ->].
  unfold _stopHeartbeat, bind, gets, clearInterval, clearTimeout, modify,
    setTimeout, add_timer. simpl. rewrite Hthis.
  destruct (_heartbeatTimer (this w)) as [hb|] eqn:Hhb; simpl; rewrite ?Hthis;
    destruct (_shouldReconnect (this w)); simpl;
    rewrite ?Hem, ?Hcl, ?Hthis; split_and!; try done.
  - intros hb' [= <-]. rewrite Htm, Hnt.
    destruct (wf_heartbeat w Hwf hb Hhb) as [d Hd].
    apply (wf_fresh w Hwf) in Hd.
    rewrite lookup_insert_ne by lia. by rewrite lookup_delete_eq.
  - intros hb' [= <-]. rewrite Htm. by rewrite lookup_delete_eq.
Qed.

Lemma step_open s (w : World) :
  readyState_of s w = Some CONNECTING ->
  step (SockOpen s) w = fst (on_open (set_readyState s OPEN w)).
Proof.
  intros Hst. unfold_step. simpl. unfold bind at 1, gets. by rewrite Hst.
Qed.

(** X12. The open event of a connecting socket marks it open, emits
    ["open"] to the subscribers and starts the heartbeat afresh: a
    heartbeat timer left from before is cancelled, and one interval of the
    configured period is registered and remembered.  The transport handle
    of the client is not touched. *)
Theorem open_starts_one_heartbeat s (w : World) :
  reachable w -> readyState_of s w = Some CONNECTING ->
  let w' := step (SockOpen s) w in
  readyState_of s w' = Some OPEN /\
  _heartbeatTimer (this w') = Some (next_timer w) /\
  timers w' !! next_timer w
    = Some {| t_action := HeartbeatTimer; t_delay := _heartbeatInterval (this w);
              t_repeat := true |} /\
  (forall hb, _heartbeatTimer (this w) = Some hb -> timers w' !! hb = None) /\
  ws (this w') = ws (this w) /\
  emitted w' = emitted w ++ [(JStr "open", JUndefined, JUndefined)] /\
  calls w' = calls w ++ emit_calls (JStr "open") JUndefined JUndefined (this w).
Proof.
  intros Hreach Hst. simpl.
  pose proof (reachable_wf w Hreach) as Hwf.
  pose proof (readyState_set s OPEN w (readyState_is_Some s _ w Hst)) as Hopen.
  pose proof (this_set_readyState s OPEN w) as Hthis.
  pose proof (timers_set_readyState s OPEN w) as Htm.
  pose proof (next_timer_set_readyState s OPEN w) as Hnt.
  assert (Hlogs : emitted (set_readyState s OPEN w) = emitted w /\
                  calls (set_readyState s OPEN w) = calls w).
  { unfold set_readyState. by destruct (sockets w !! s). }
  destruct Hlogs as [Hem Hcl].
  rewrite (step_open s w Hst).
  revert Hopen Hthis Htm Hnt Hem Hcl. generalize (set_readyState s OPEN w).
  intros w1 Hopen Hthis Htm Hnt Hem Hcl.
  unfold_on_open; unfold bind, modify.
  match goal with |- context [_emit ?a ?b ?c ?w2] =>
    destruct (_emit_run a b c w2) as [co ->] end.
  unfold _startHeartbeat, _stopHeartbeat, bind, gets, clearInterval,
    clearTimeout, modify, setInterval, add_timer. simpl. rewrite Hthis.
  destruct (_heartbeatTimer (this w)) as [hb|] eqn:Hhb; simpl;
    rewrite ?Hem, ?Hcl, ?Hthis, ?Hnt, ?Htm; split_and!; try done;
    try (by rewrite lookup_insert_eq).
  intros hb' [= <-].
  destruct (wf_heartbeat w Hwf hb Hhb) as [d Hd].
  apply (wf_fresh w Hwf) in Hd.
  rewrite lookup_insert_ne by lia. by rewrite lookup_delete_eq.
Qed.

(** ** The heartbeat *)

Lemma heartbeat_ok_same (w w' : World) :
  timers w' = timers w -> this w' = this w -> heartbeat_ok w -> heartbeat_ok w'.
Proof. intros Ht Hc Hw t tm. rewrite Ht, Hc. apply Hw. Qed.

Lemma heartbeat_ok_handle (w w' : World) :
  timers w' = timers w ->
  _heartbeatTimer (this w') = _heartbeatTimer (this w) ->
  _heartbeatInterval (this w') = _heartbeatInterval (this w) ->
  heartbeat_ok w -> heartbeat_ok w'.
Proof. intros Ht Hh Hi Hw t tm. rewrite Ht, Hh, Hi. apply Hw. Qed.

Lemma heartbeat_ok_fields (f : WsClient -> WsClient) (w : World) :
  (forall c, _heartbeatTimer (f c) = _heartbeatTimer c) ->
  (forall c, _heartbeatInterval (f c) = _heartbeatInterval c) ->
  heartbeat_ok w -> heartbeat_ok (update_this f w).
Proof. intros Hh Hi Hw t tm. simpl. rewrite Hh, Hi. apply Hw. Qed.

Lemma heartbeat_ok_delete t (w : World) :
  heartbeat_ok w ->
  heartbeat_ok (set_timers (delete t (timers w)) (next_timer w) w).
Proof.
  intros Hw t' tm Hl. simpl in *.
  apply lookup_delete_Some in Hl as [_ Hl]. by apply Hw.
Qed.

Lemma heartbeat_ok_add tm (w : World) :
  t_action tm <> HeartbeatTimer -> heartbeat_ok w ->
  heartbeat_ok (set_timers (<[next_timer w := tm]> (timers w))
                           (Pos.succ (next_timer w)) w).
Proof.
  intros Hna Hw t' tm' Hl Hact. simpl in *.
  apply lookup_insert_Some in Hl as [[_ <-]|[_ Hl]]; [done|]. by apply Hw.
Qed.

Lemma heartbeat_ok_stop : preserves heartbeat_ok _stopHeartbeat.
Proof.
  intros w Hw. unfold _stopHeartbeat, bind, gets, clearInterval, clearTimeout,
    modify.
  destruct (_heartbeatTimer (this w)) as [hb|] eqn:Hhb; simpl; [|done].
  intros t tm Hl Hact. simpl in *.
  apply lookup_delete_Some in Hl as [Hne Hl].
  destruct (Hw t tm Hl Hact) as [Hnamed _]. congruence.
Qed.

Lemma heartbeat_ok_start : preserves heartbeat_ok _startHeartbeat.
Proof.
  intros w Hw.
  unfold _startHeartbeat, _stopHeartbeat, bind, gets, clearInterval,
    clearTimeout, modify, setInterval, add_timer.
  destruct (_heartbeatTimer (this w)) as [hb|] eqn:Hhb; simpl;
    intros t tm Hl Hact; simpl in *.
  - apply lookup_insert_Some in Hl as [[<- <-]|[_ Hl]]; [done|].
    apply lookup_delete_Some in Hl as [Hne Hl].
    destruct (Hw t tm Hl Hact) as [Hnamed _]. congruence.
  - apply lookup_insert_Some in Hl as [[<- <-]|[_ Hl]]; [done|].
    destruct (Hw t tm Hl Hact) as [Hnamed _]. congruence.
Qed.

Lemma heartbeat_ok_logged em cl co (w : World) :
  heartbeat_ok w -> heartbeat_ok (logged em cl co w).
Proof. by apply heartbeat_ok_same. Qed.

Lemma heartbeat_ok_emit eventType payload full :
  preserves heartbeat_ok (_emit eventType payload full).
Proof.
  intros w Hw. destruct (_emit_run eventType payload full w) as [co ->].
  by apply heartbeat_ok_logged.
Qed.

Lemma heartbeat_ok_set_readyState s st :
  preserves heartbeat_ok (modify (set_readyState s st)).
Proof.
  intros w Hw. simpl. apply (heartbeat_ok_same w); [| |done].
  - apply timers_set_readyState.
  - apply this_set_readyState.
Qed.

Lemma heartbeat_ok_connectOnce : preserves heartbeat_ok _connectOnce.
Proof.
  intros w Hw. unfold _connectOnce, bind, gets, new_WebSocket, modify. simpl.
  by apply heartbeat_ok_fields.
Qed.

Lemma heartbeat_ok_step ev (w : World) :
  heartbeat_ok w -> heartbeat_ok (step ev w).
Proof.
  revert w. change (preserves heartbeat_ok (deliver ev)).
  destruct ev as [| |obj opts|et cb|et cb|s|s ev|s err|s msg|t now]; simpl.
  - unfold connect.
    apply preserves_bind; [apply preserves_gets|intros [s|]];
      [apply preserves_ret|].
    apply preserves_bind; [|intros _; apply heartbeat_ok_connectOnce].
    apply preserves_modify. intros w Hw. by apply heartbeat_ok_fields.
  - unfold disconnect.
    apply preserves_bind; [|intros _].
    { apply preserves_modify. intros w Hw. by apply heartbeat_ok_fields. }
    apply preserves_bind; [apply preserves_gets|intros s].
    apply preserves_bind; [|intros _; apply heartbeat_ok_stop].
    destruct s as [s|]; [|apply preserves_ret].
    apply preserves_bind; [|intros _].
    { intros w Hw. unfold WebSocket_close.
      destruct (readyState_of s w) as [[]|]; simpl; try done;
        by apply heartbeat_ok_set_readyState. }
    apply preserves_modify. intros w Hw. by apply heartbeat_ok_fields.
  - apply preserves_bind; [|intros _; apply preserves_ret].
    intros w Hw. destruct (ws_is_open w) eqn:Hopen.
    + destruct (ws_is_open_inv w Hopen) as (s & sk & Hws & Hsk & Hst).
      rewrite (send_open obj opts w s sk Hws Hsk Hst).
      destruct (default false (awaitAck opts)); simpl.
      * intros t tm Hl Hact. simpl in *.
        apply lookup_insert_Some in Hl as [[_ <-]|[_ Hl]]; [done|].
        by apply Hw.
      * by apply (heartbeat_ok_handle w).
    + by rewrite (send_not_open obj opts w Hopen).
  - unfold on. destruct (String.eqb et "*"); apply preserves_modify;
      intros w Hw; by apply heartbeat_ok_fields.
  - unfold off. destruct (String.eqb et "*"); apply preserves_modify;
      intros w Hw; apply heartbeat_ok_fields; try done;
      intros c; by destruct (_listeners c !! et).
  - apply preserves_bind; [apply preserves_gets|intros [[]|]];
      try apply preserves_ret.
    apply preserves_bind; [apply heartbeat_ok_set_readyState|intros _].
    unfold_on_open.
    apply preserves_bind; [|intros _].
    { apply preserves_modify. intros w Hw. by apply heartbeat_ok_fields. }
    apply preserves_bind; [apply heartbeat_ok_emit|intros _].
    apply heartbeat_ok_start.
  - apply preserves_bind; [apply preserves_gets|intros [[]|]];
      try apply preserves_ret.
    all: apply preserves_bind; [apply heartbeat_ok_set_readyState|intros _].
    all: unfold_on_close.
    all: apply preserves_bind; [apply heartbeat_ok_emit|intros _].
    all: apply preserves_bind; [apply heartbeat_ok_stop|intros _].
    all: apply preserves_bind; [|intros _].
    1,3,5: apply preserves_modify; intros w Hw; by apply heartbeat_ok_fields.
    all: apply preserves_bind; [apply preserves_gets|intros [|]];
      [|apply preserves_ret].
    all: apply preserves_bind; [apply preserves_gets|intros d].
    all: apply preserves_bind; [|intros _].
    1,3,5: intros w Hw; by apply heartbeat_ok_add.
    all: apply preserves_modify; intros w Hw; by apply heartbeat_ok_fields.
  - apply preserves_bind; [apply preserves_gets|intros [st|]];
      [|apply preserves_ret].
    apply heartbeat_ok_emit.
  - apply preserves_bind; [apply preserves_gets|intros [[]|]];
      try apply preserves_ret.
    intros w Hw. destruct msg as [text|data].
    + destruct (on_message_malformed text w) as [co ->].
      by apply heartbeat_ok_logged.
    + destruct (ack_resolver data (this w)) as [r|] eqn:Hres.
      * rewrite (on_message_ack data r w Hres). simpl.
        unfold resolved, bind, resolver_resolve, clearTimeout, settle, modify,
          pendingAcks_delete. simpl.
        destruct (frame_fields data).2; simpl;
          destruct (promises w !! res_promise r) as [[]|]; simpl;
          intros t tm Hl Hact; simpl in *;
          apply lookup_delete_Some in Hl as [_ Hl]; by apply Hw.
      * assert (Hcases : (data = JNull \/ data = JUndefined) \/
                         (data <> JNull /\ data <> JUndefined)).
        { destruct data; auto. }
        destruct Hcases as [Hnull|[Hn Hu]].
        -- destruct (on_message_nullish data w Hnull) as [co ->].
           by apply heartbeat_ok_logged.
        -- destruct (on_message_dispatch data w Hn Hu Hres) as [co ->].
           by apply heartbeat_ok_logged.
  - apply preserves_bind; [apply preserves_gets|intros [tm|]];
      [|apply preserves_ret].
    apply preserves_bind.
    + destruct (t_repeat tm); [apply preserves_ret|].
      intros w Hw. by apply heartbeat_ok_delete.
    + intros _. destruct (t_action tm) as [|rid p|]; simpl.
      * apply heartbeat_ok_connectOnce.
      * unfold ack_timeout.
        apply preserves_bind; [|intros _].
        { apply preserves_modify. intros w Hw. by apply heartbeat_ok_fields. }
        apply preserves_modify. intros w Hw.
        destruct (promises w !! p) as [[]|]; try done;
          by apply (heartbeat_ok_same w).
      * unfold heartbeat_tick.
        apply preserves_bind; [apply preserves_gets|intros [|]];
          [|apply preserves_ret].
        apply preserves_bind; [apply preserves_gets|intros [s|]];
          [|apply preserves_ret].
        apply preserves_try_catch; [|intros; apply preserves_ret].
        intros w Hw. unfold WebSocket_send.
        destruct (sockets w !! s) as [sk|]; [|done].
        destruct (sock_state sk); simpl; try done;
          by apply (heartbeat_ok_same w).
Qed.

Lemma reachable_heartbeat_ok (w : World) : reachable w -> heartbeat_ok w.
Proof.
  intros (u & opts & h & evs & ->).
  assert (H0 : heartbeat_ok (new_world u opts h)).
  { intros t tm Hl. simpl in Hl. by rewrite lookup_empty in Hl. }
  revert H0. generalize (new_world u opts h).
  induction evs as [|ev evs IH]; intros w Hw; [done|].
  rewrite run_cons. apply IH. by apply heartbeat_ok_step.
Qed.

(** X13. Heartbeat timers do not pile up.  In every world the client can
    get to there is at most one heartbeat timer; it is the one whose handle
    the client holds, an interval of the configured period.  And the handle
    the client holds always names a live heartbeat timer. *)
Theorem at_most_one_heartbeat (w : World) :
  reachable w ->
  (forall t tm, timers w !! t = Some tm -> t_action tm = HeartbeatTimer ->
     _heartbeatTimer (this w) = Some t /\
     t_delay tm = _heartbeatInterval (this w) /\ t_repeat tm = true) /\
  (forall t t' tm tm',
     timers w !! t = Some tm -> t_action tm = HeartbeatTimer ->
     timers w !! t' = Some tm' -> t_action tm' = HeartbeatTimer -> t = t') /\
  (forall t, _heartbeatTimer (this w) = Some t ->
     timers w !! t = Some {| t_action := HeartbeatTimer;
                             t_delay := _heartbeatInterval (this w);
                             t_repeat := true |}).
Proof.
  intros Hreach. pose proof (reachable_wf w Hreach) as Hwf.
  pose proof (reachable_heartbeat_ok w Hreach) as Hok.
  split_and!.
  - done.
  - intros t t' tm tm' Hl Hact Hl' Hact'.
    destruct (Hok t tm Hl Hact) as [Hn _].
    destruct (Hok t' tm' Hl' Hact') as [Hn' _]. congruence.
  - intros t Hhb. destruct (wf_heartbeat w Hwf t Hhb) as [d Hd].
    destruct (Hok t _ Hd eq_refl) as (_ & Hdelay & _). simpl in Hdelay.
    by rewrite Hd, Hdelay.
Qed.

(** X14. A heartbeat tick sends one frame or does nothing.  When the
    current socket is open it transmits [{type: "ping", ts: now}] on it and
    changes nothing else: no request id is taken, nothing is awaited and the
    timer stays.  When the client has no socket, or its socket is not open,
    the tick leaves the world exactly as it is. *)
Theorem heartbeat_tick_pings_when_open t tm now (w : World) :
  timers w !! t = Some tm -> t_action tm = HeartbeatTimer -> t_repeat tm = true ->
  (forall s sk,
     ws (this w) = Some s -> sockets w !! s = Some sk -> sock_state sk = OPEN ->
     step (TimerFire t now) w
     = set_sockets (<[s := transmitted (ping_frame now) sk]> (sockets w)) w) /\
  (ws_is_open w = false -> step (TimerFire t now) w = w).
Proof.
  intros Ht Hact Hrep. unfold_step.
  rewrite (deliver_timer t now w tm Ht), Hact, Hrep.
  unfold bind at 1, ret. simpl. unfold heartbeat_tick.
  split.
  - intros s sk Hws Hsk Hst.
    assert (Hopen : ws_is_open w = true).
    { unfold ws_is_open, readyState_of. rewrite Hws, Hsk. simpl. by rewrite Hst. }
    unfold bind, gets, try_catch. rewrite Hopen, Hws.
    unfold WebSocket_send. rewrite Hsk, Hst. simpl.
    unfold transmitted, ping_frame. by rewrite Hst.
  - intros Hclosed. unfold bind, gets. by rewrite Hclosed.
Qed.

(** ** Acknowledgements: what else holds of the table *)

(** X15. An ack that finds its entry is consumed.  It is delivered to no
    subscriber, typed or wildcard, leaves no trace in the console and sends
    nothing; it removes its own entry only, and every other promise and
    every other timer is as before. *)
Theorem matched_ack_is_consumed s (data : jsval) rid r (w : World) :
  reachable w -> readyState_of s w = Some OPEN ->
  (frame_fields data).1.1 = JStr "ack" -> (frame_fields data).2 = JStr rid ->
  _pendingAcks (this w) !! rid = Some r ->
  let w' := step (SockMessage s (WellFormed data)) w in
  calls w' = calls w /\ emitted w' = emitted w /\ console w' = console w /\
  sockets w' = sockets w /\
  _pendingAcks (this w') = delete rid (_pendingAcks (this w)) /\
  (forall p, p <> res_promise r -> promises w' !! p = promises w !! p) /\
  (forall t, t <> res_timer r -> timers w' !! t = timers w !! t).
Proof.
  intros Hreach Hst Hty Hrq Hr w'.
  pose proof (reachable_wf w Hreach) as Hwf.
  destruct (wf_entry w Hwf rid r Hr) as [(n & Hrid & _) (_ & _ & Hpr)].
  assert (Hres : ack_resolver data (this w) = Some r).
  { rewrite (ack_resolver_lookup data (this w) rid Hty Hrq); [done|].
    rewrite Hrid. apply String_of_N_nonempty. }
  assert (Hw' : w' = resolved r (frame_fields data).1.2 (JStr rid) w).
  { unfold w'. unfold_step. simpl. unfold bind at 1, gets. rewrite Hst.
    rewrite (on_message_ack data _ w Hres). simpl. by rewrite Hrq. }
  rewrite Hw'.
  unfold resolved, bind, resolver_resolve, clearTimeout, settle, modify,
    pendingAcks_delete. simpl. rewrite Hpr. simpl.
  split_and!; try done.
  - intros p Hp. by rewrite list_lookup_insert_ne.
  - intros t Ht. by rewrite lookup_delete_ne.
Qed.

(** X16. Nothing else settles an awaited send.  If an event takes a promise
    out of the pending state, then that promise belonged to an entry of the
    table, and the event was that entry's timer firing or a frame of type
    ["ack"] carrying that entry's request id as a string.  Closing,
    disconnecting, reconnecting and every other frame leave pending
    promises pending. *)
Theorem only_ack_or_timeout_settles ev p (w : World) :
  reachable w -> promises w !! p = Some Pending ->
  promises (step ev w) !! p <> Some Pending ->
  exists rid t, awaiting rid t p w /\ settling rid t ev.
Proof.
  intros Hreach Hp Hchg. pose proof (reachable_wf w Hreach) as Hwf.
  destruct (step_cases ev w Hwf)
    as [[_ [_ _ Hps _]]|[(obj & opts & _ & _ & _ & [_ _ _ _ _ Hps])
       |[(s & data & rid & r & -> & _ & Hty & Hrq & [Hr _ _ _ _ _ Hps])
        |(t & now & rid & p0 & -> & [Hr _ _ _ _ _ Hps])]]].
  - rewrite Hps in Hchg. done.
  - rewrite Hps in Hchg. destruct Hchg.
    rewrite lookup_app_l; [done|]. by apply lookup_lt_Some in Hp.
  - destruct (decide (p = res_promise r)) as [->|Hne].
    + exists rid, (res_timer r). split; [|done].
      destruct (wf_entry w Hwf rid r Hr) as [_ Ha]. done.
    + rewrite Hps, list_lookup_insert_ne in Hchg; done.
  - simpl in Hps. destruct (decide (p = p0)) as [->|Hne].
    + exists rid, t. split; [|done].
      destruct (wf_entry w Hwf rid _ Hr) as [_ Ha]. done.
    + rewrite Hps, list_lookup_insert_ne in Hchg; done.
Qed.

(** X17. The table, the ack timers and the promises stay in step.  In every
    world the client can get to, each entry of the table is keyed by the
    text of a request id already handed out and has its own live one-shot
    timeout timer and its own pending promise; each ack timeout timer has
    its entry; and two different entries never share a timer or a
    promise.  So no timer is leaked and no entry is orphaned. *)
Theorem table_matches_timers (w : World) :
  reachable w ->
  (forall rid r, _pendingAcks (this w) !! rid = Some r ->
     (exists n, rid = String_of_N n /\ (n < _nextRequestId (this w))%N) /\
     (exists d, timers w !! res_timer r
                = Some {| t_action := AckTimeoutTimer rid (res_promise r);
                          t_delay := d; t_repeat := false |}) /\
     promises w !! res_promise r = Some Pending) /\
  (forall t tm rid p, timers w !! t = Some tm ->
     t_action tm = AckTimeoutTimer rid p ->
     _pendingAcks (this w) !! rid = Some {| res_timer := t; res_promise := p |}) /\
  (forall rid rid' r r',
     _pendingAcks (this w) !! rid = Some r ->
     _pendingAcks (this w) !! rid' = Some r' -> rid <> rid' ->
     res_timer r <> res_timer r' /\ res_promise r <> res_promise r').
Proof.
  intros Hreach. pose proof (reachable_wf w Hreach) as Hwf. split_and!.
  - intros rid r Hr. destruct (wf_entry w Hwf rid r Hr) as [Hn Ha].
    split; [done|]. destruct r as [t p]. by destruct Ha as (_ & Hd & Hp).
  - apply (wf_timer w Hwf).
  - intros rid rid' r r' Hr Hr' Hne. split.
    + intros Heq.
      destruct (wf_entry w Hwf rid r Hr) as [_ (_ & [d Hd] & _)].
      destruct (wf_entry w Hwf rid' r' Hr') as [_ (_ & [d' Hd'] & _)].
      rewrite Heq, Hd' in Hd. by injection Hd as ? ? ?.
    + intros Heq. by apply Hne, (wf_promise w Hwf rid rid' r r').
Qed.

(** X18. Awaited sends do not interfere.  Two sends awaiting under
    different request ids have different timers and different promises, and
    whatever settles one of them, its ack or its timeout, leaves the other
    one awaiting with its entry, its timer and its pending promise. *)
Theorem awaited_sends_are_independent ev rid t p rid' t' p' (w : World) :
  reachable w -> awaiting rid t p w -> awaiting rid' t' p' w -> rid <> rid' ->
  t <> t' /\ p <> p' /\
  (settling rid' t' ev -> awaiting rid t p (step ev w)).
Proof.
  intros Hreach Ha Ha' Hne. pose proof (reachable_wf w Hreach) as Hwf.
  assert (Ht : t <> t').
  { intros <-. destruct Ha as (_ & [d Hd] & _), Ha' as (_ & [d' Hd'] & _).
    rewrite Hd' in Hd. by injection Hd as ? ? ?. }
  split_and!; [done| |].
  - intros <-. apply Hne.
    by apply (wf_promise w Hwf rid rid' _ _ (awaiting_entry _ _ _ _ Ha)
                         (awaiting_entry _ _ _ _ Ha')).
  - intros Hset. apply awaiting_step; [done..|].
    destruct ev as [| |obj opts|et cb|et cb|s|s e|s err|s [text|data]|t0 now];
      simpl in *; try done.
    + intros [_ Hrq]. destruct Hset as [_ Hrq']. congruence.
    + congruence.
Qed.

(** ** The client against the mock server *)


(** X20. The answer to a heartbeat surfaces as an event.  The heartbeat
    ping carries no request id, so the mock server answers it with an ack
    whose [request_id] is [null]; the client takes no such frame for the
    acknowledgement of a send and dispatches it: every subscriber of
    ["ack"] is called with [{ pong: <server time> }], and the table, the
    timers and the promises are untouched. *)
Theorem heartbeat_answer_is_dispatched s now now' (w : World) :
  readyState_of s w = Some OPEN ->
  let pong := JObj [("pong", JNum now')] in
  let data := JObj [("type", JStr "ack"); ("request_id", JNull);
                    ("payload", pong)] in
  mock_on_message (ping_frame now) now' [] = [WellFormed data] /\
  exists co,
    step (SockMessage s (WellFormed data)) w
    = logged [(JStr "ack", pong, data); (JStr "*", data, JUndefined)]
             (emit_calls (JStr "ack") pong data (this w) ++
              emit_calls (JStr "*") data JUndefined (this w)) co w.
Proof.
  intros Hst pong data. split; [done|].
  assert (Hres : ack_resolver data (this w) = None) by done.
  assert (data <> JNull /\ data <> JUndefined) as [Hn Hu] by done.
  destruct (on_message_dispatch data w Hn Hu Hres) as [co Hd].
  exists co. unfold_step. simpl. unfold bind at 1, gets.
  by rewrite Hst, Hd.
Qed.

(** X21. What the mock server broadcasts is dispatched under its type.  A
    frame made by [broadcast] has a type and a payload and no request id
    (the payload is [{}] when none is given), so the client never takes it
    for an acknowledgement, whatever its type, ["ack"] included: it emits
    the payload to the subscribers of that type and leaves table, timers
    and promises as they are. *)
Theorem broadcast_is_dispatched s ty (payload : jsval) (w : World) :
  readyState_of s w = Some OPEN ->
  let payload' := match payload with JUndefined => JObj [] | _ => payload end in
  let data := JObj [("type", JStr ty); ("payload", payload')] in
  broadcast (JStr ty) payload [] = [WellFormed data] /\
  exists co,
    step (SockMessage s (WellFormed data)) w
    = logged [(JStr ty, payload', data); (JStr "*", data, JUndefined)]
             (emit_calls (JStr ty) payload' data (this w) ++
              emit_calls (JStr "*") data JUndefined (this w)) co w.
Proof.
  intros Hst payload' data. split.
  { unfold broadcast, data, payload'. by destruct payload. }
  assert (Hres : ack_resolver data (this w) = None).
  { unfold ack_resolver. simpl. by rewrite andb_false_r. }
  assert (data <> JNull /\ data <> JUndefined) as [Hn Hu] by done.
  destruct (on_message_dispatch data w Hn Hu Hres) as [co Hd].
  exists co. unfold_step. simpl. unfold bind at 1, gets.
  by rewrite Hst, Hd.
Qed.

End Properties.

(** * The dashboard's feeds *)

Section Feeds.

Context {num : Type} `{JsNumber num}.
Variable num_eqb : num -> num -> bool.

Ltac unfold_same_id := unfold same_id.

#[local] Abbreviation jsval := (@jsval num).
#[local] Abbreviation onPosition := (onPosition num_eqb).
#[local] Abbreviation same_id := (same_id num_eqb).
#[local] Abbreviation findIndex_same_id := (findIndex_same_id num_eqb).

Lemma take_app_take {A} n (a l : list A) :
  take n (a ++ take n l) = take n (a ++ l).
Proof.
  rewrite !take_app, take_take. do 2 f_equal. lia.
Qed.

Lemma prepend_capped_fold n (stream st0 : list jsval) :
  length st0 <= n ->
  fold_left (fun st x => prepend_capped n x st) stream st0
  = take n (rev stream ++ st0).
Proof.
  revert st0. induction stream as [|x xs IH]; intros st0 Hlen; simpl.
  - by rewrite take_ge.
  - rewrite IH.
    + unfold prepend_capped. by rewrite take_app_take, <- app_assoc.
    + unfold prepend_capped. rewrite length_take. lia.
Qed.

(** X22. The feeds show the latest items, newest first.  Starting empty,
    after any stream of [signal] payloads the list of [LiveSignals] holds
    the last 30 of them in reverse order of arrival, and after any stream
    of [trade] payloads the list of [TradeMonitor] holds the last 100; so
    they never grow beyond 30 and 100 items. *)
Theorem feeds_keep_latest (stream : list jsval) :
  let signals := fold_left (fun st x => onSignal x st) stream [] in
  let trades := fold_left (fun st x => onTrade x st) stream [] in
  signals = take 30 (rev stream) /\ trades = take 100 (rev stream) /\
  length signals <= 30 /\ length trades <= 100.
Proof.
  unfold onSignal, onTrade. simpl.
  rewrite !prepend_capped_fold, !app_nil_r by (simpl; lia).
  rewrite !length_take. split_and!; try done; lia.
Qed.

Lemma get_prop_is_Some (v : jsval) k :
  is_nullish v = false -> exists a, get_prop v k = Some a.
Proof. destruct v; simpl; try done; by eexists. Qed.

Lemma findIndex_same_id_spec (payload : jsval) (prev : list jsval) :
  is_nullish payload = false ->
  Forall (fun p => is_nullish p = false) prev ->
  (exists i p,
     findIndex_same_id payload prev = Some (Some i) /\
     prev !! i = Some p /\ same_id p payload = true /\
     forall j q, j < i -> prev !! j = Some q -> same_id q payload = false) \/
  (findIndex_same_id payload prev = Some None /\
   Forall (fun q => same_id q payload = false) prev).
Proof.
  intros Hpay. induction 1 as [|p prev Hp Hprev IH]; [by right|].
  destruct (get_prop_is_Some p "id" Hp) as [a Ha].
  destruct (get_prop_is_Some payload "id" Hpay) as [b Hb].
  assert (Hsame : same_id p payload = strict_eq num_eqb a b).
  { unfold_same_id. by rewrite Ha, Hb. }
  simpl. rewrite Ha, Hb.
  destruct (strict_eq num_eqb a b) eqn:Heq.
  - left. exists 0, p. split_and!; try done. intros j q Hj. lia.
  - destruct IH as [(i & q & -> & Hq & Hs & Hfirst)|[-> Hall]].
    + left. exists (S i), q. split_and!; try done.
      intros [|j] q' Hj Hq'; simpl in Hq'.
      * by injection Hq' as <-.
      * apply (Hfirst j); [lia|done].
    + right. split; [done|]. by constructor.
Qed.

(** X23. [onPosition] inserts or replaces.  No position and no payload
    being [null] or [undefined], the update does not throw.  An array
    payload becomes the list.  Any other payload replaces, in place, the
    first position whose [id] is strictly equal to its own, the list
    keeping its length and all its other items; when there is no such
    position it is put in front and the list is cut to 50. *)
Theorem onPosition_upserts (payload : jsval) (prev : list jsval) :
  is_nullish payload = false ->
  Forall (fun p => is_nullish p = false) prev ->
  exists next, onPosition payload prev = Some next /\
    match payload with
    | JArr items => next = items
    | _ =>
        (exists i p,
           prev !! i = Some p /\ same_id p payload = true /\
           (forall j q, j < i -> prev !! j = Some q -> same_id q payload = false) /\
           next = <[i := payload]> prev /\
           length next = length prev /\ next !! i = Some payload /\
           (forall j, j <> i -> next !! j = prev !! j)) \/
        (Forall (fun q => same_id q payload = false) prev /\
         next = take 50 (payload :: prev))
    end.
Proof.
  intros Hpay Hprev.
  assert (Hmain : forall next_of,
    (next_of = match findIndex_same_id payload prev with
               | None => None
               | Some None => Some (take 50 (payload :: prev))
               | Some (Some idx) => Some (<[idx := payload]> prev)
               end) ->
    exists next, next_of = Some next /\
      ((exists i p,
           prev !! i = Some p /\ same_id p payload = true /\
           (forall j q, j < i -> prev !! j = Some q -> same_id q payload = false) /\
           next = <[i := payload]> prev /\
           length next = length prev /\ next !! i = Some payload /\
           (forall j, j <> i -> next !! j = prev !! j)) \/
        (Forall (fun q => same_id q payload = false) prev /\
         next = take 50 (payload :: prev)))).
  { intros next_of ->.
    destruct (findIndex_same_id_spec payload prev Hpay Hprev)
      as [(i & p & -> & Hp & Hs & Hfirst)|[-> Hall]].
    - eexists. split; [done|]. left. exists i, p.
      split_and!; try done.
      + by rewrite length_insert.
      + apply list_lookup_insert_eq. by apply lookup_lt_Some in Hp.
      + intros j Hj. by apply list_lookup_insert_ne.
    - eexists. split; [done|]. by right. }
  destruct payload; try (by apply Hmain).
  by eexists.
Qed.

End Feeds.

(** * The specification's examples, run *)

(** C1, evaluated on its own example.  The frame
    [{"type":"trade","payload":{"id":1,"pnl":2.5}}] arrives with one
    subscriber on ["trade"] (callback 7) and one on ["*"] (callback 9).
    The subscriber on ["trade"] is invoked once, with the payload and the
    frame.  The wildcard subscriber is invoked twice: [_emit(type, ...)]
    already calls it with the type, the payload and the frame, and the
    handler's second [_emit("*", data)] calls it again, with ["*"], the
    frame and [undefined]. *)
Theorem wildcard_subscriber_invoked_twice :
  calls trade_page = [] /\
  calls (step returns (SockMessage 0%nat (WellFormed trade_frame)) trade_page)
  = [(7%nat, [trade_payload; trade_frame]);
     (9%nat, [JStr "trade"; trade_payload; trade_frame]);
     (9%nat, [JStr "*"; trade_frame; JUndefined])].
Proof. split; vm_compute; reflexivity. Qed.

(** The same frame when the subscriber on ["trade"] throws: the error is
    logged and the wildcard subscriber is invoked all the same. *)
Example faulty_subscriber_does_not_stop_dispatch :
  let after := step faulty (SockMessage 0%nat (WellFormed trade_frame)) trade_page in
  calls after
  = [(7%nat, [trade_payload; trade_frame]);
     (9%nat, [JStr "trade"; trade_payload; trade_frame]);
     (9%nat, [JStr "*"; trade_frame; JUndefined])] /\
  console after = [("listener error", Error "boom")].
Proof. split; vm_compute; reflexivity. Qed.

(** C2, evaluated on a client constructed with [reconnectDelay: 500].  The
    base delay of the client is 500, and after the transport opens the
    delay is 1000, the literal of the open handler, not the configured
    500. *)
Theorem open_resets_delay_to_literal_1000 :
  _reconnectDelay (this page_500) = 500%Q /\
  _reconnectDelay (this (step returns (SockOpen 0%nat) page_500)) = 1000%Q /\
  ~ (1000 == 500)%Q.
Proof.
  split_and!; [vm_compute; reflexivity|vm_compute; reflexivity|].
  intros Heq. vm_compute in Heq. discriminate.
Qed.

(** C3. For every close event that reaches the handler while the reconnect
    intent is set, the reconnect timer is registered with the delay as it
    was before the handler ran, and afterwards the delay is
    [min(delay * backoffFactor, maxReconnectDelay)].  In particular, with
    [{reconnectDelay: 1000, backoffFactor: 2, maxReconnectDelay: 5000}] and
    no successful open, the first three closes schedule their reconnects
    after 1000, 2000 and 4000 ms, and the closes after them after 5000 ms. *)
Theorem close_schedules_with_old_delay_then_grows :
  (forall (num : Type) (N : JsNumber num)
          (outcome : cb_id -> list (@jsval num) -> @World num -> option (@jsval num))
          (s : sock_id) (st : readyState) (ev : @jsval num) (w : @World num),
     readyState_of s w = Some st -> st <> CLOSED ->
     _shouldReconnect (this w) = true ->
     let w' := step outcome (SockClose s ev) w in
     timers w' !! next_timer w
       = Some {| t_action := ReconnectTimer; t_delay := _reconnectDelay (this w);
                 t_repeat := false |} /\
     _reconnectDelay (this w')
       = num_min (num_mul (_reconnectDelay (this w)) (_backoffFactor (this w)))
                 (_maxReconnectDelay (this w))) /\
  reconnect_delay 1 (closes 1) = Some 1000%Q /\
  reconnect_delay 2 (closes 2) = Some 2000%Q /\
  reconnect_delay 3 (closes 3) = Some 4000%Q /\
  reconnect_delay 4 (closes 4) = Some 5000%Q /\
  reconnect_delay 5 (closes 5) = Some 5000%Q.
Proof.
  split_and!; try (vm_compute; reflexivity).
  intros num N outcome s st ev w Hst Hne Hflag.
  by apply (close_schedules_then_grows outcome s st ev w).
Qed.

Lemma close_schedules_with_old_delay_then_grows_witness :
  readyState_of 0%nat (closes 0) = Some CONNECTING /\
  _shouldReconnect (this (closes 0)) = true /\
  timers (step returns (SockClose 0%nat JNull) (closes 0)) !! next_timer (closes 0)
    = Some {| t_action := ReconnectTimer;
              t_delay := _reconnectDelay (this (closes 0));
              t_repeat := false |} /\
  _reconnectDelay (this (step returns (SockClose 0%nat JNull) (closes 0)))
    = Qmin (_reconnectDelay (this (closes 0)) * _backoffFactor (this (closes 0)))
           (_maxReconnectDelay (this (closes 0))).
Proof.
  split; [reflexivity|]. split; [reflexivity|].
  apply (proj1 close_schedules_with_old_delay_then_grows
               Q Q_JsNumber returns 0%nat CONNECTING JNull (closes 0)).
  - reflexivity.
  - discriminate.
  - reflexivity.
Defined.

(** The page of [page_500] has a socket that is still connecting: a send
    there fails and changes nothing. *)
Lemma send_when_not_open_fails_witness :
  ws_is_open page_500 = false /\
  snd (send 0%nat await_100 page_500)
    = Normal (Settled (Rejected (Error "WebSocket is not open"))) /\
  fst (send 0%nat await_100 page_500) = page_500.
Proof.
  assert (Hclosed : ws_is_open page_500 = false) by (vm_compute; reflexivity).
  split; [exact Hclosed|].
  destruct (send_when_not_open_fails 0%nat await_100 page_500 Hclosed)
    as (Hfail & Hsame & _).
  split; assumption.
Defined.

Lemma open_page_reachable : reachable returns open_page.
Proof.
  exists url_of_page, no_opts, {[ 0%nat := ping_command ]},
         [Connect; SockOpen 0%nat].
  vm_compute; reflexivity.
Defined.

Lemma awaiting_page_reachable : reachable returns awaiting_page.
Proof.
  exists url_of_page, no_opts, {[ 0%nat := ping_command ]},
         [Connect; SockOpen 0%nat; On "ack" 3%nat; Send 0%nat await_100].
  vm_compute; reflexivity.
Defined.

Lemma awaiting_page_awaits : awaiting "1" 2%positive 0%nat awaiting_page.
Proof.
  split; [vm_compute; reflexivity|]. split; [|vm_compute; reflexivity].
  exists 100%Q. vm_compute; reflexivity.
Defined.

(** On the open page the first send takes the id ["1"] and moves the
    counter to 2; the caller's command is as it was. *)
Lemma send_stamps_fresh_request_id_witness :
  reachable returns open_page /\
  ws (this open_page) = Some 0%nat /\
  _nextRequestId (this (fst (send 0%nat await_100 open_page)))
    = (_nextRequestId (this open_page) + 1)%N /\
  heap (fst (send 0%nat await_100 open_page)) = heap open_page.
Proof.
  assert (Hws : ws (this open_page) = Some 0%nat) by (vm_compute; reflexivity).
  assert (Hsk : sockets open_page !! 0%nat
                = Some {| sock_url := url_of_page; sock_state := OPEN;
                          sock_sent := [] |}) by (vm_compute; reflexivity).
  split; [exact open_page_reachable|]. split; [exact Hws|].
  destruct (send_stamps_fresh_request_id returns 0%nat await_100 open_page 0%nat
              {| sock_url := url_of_page; sock_state := OPEN; sock_sent := [] |}
              open_page_reachable Hws Hsk eq_refl)
    as (Hcounter & _ & _ & _ & Hheap & _).
  split; assumption.
Defined.

(** On the open page the awaited send returns promise 0 and owns entry
    ["1"], timer 2 and that promise. *)
Lemma awaited_send_settles_once_witness :
  reachable returns open_page /\
  ws_is_open open_page = true /\
  snd (send 0%nat {| awaitAck := Some true; timeout := Some 100%Q |} open_page)
    = Normal (Deferred (length (promises open_page))) /\
  awaiting (String_of_N (_nextRequestId (this open_page)))
           (next_timer open_page) (length (promises open_page))
           (fst (send 0%nat {| awaitAck := Some true; timeout := Some 100%Q |}
                      open_page)).
Proof.
  assert (Hopen : ws_is_open open_page = true) by (vm_compute; reflexivity).
  split; [exact open_page_reachable|]. split; [exact Hopen|].
  destruct (awaited_send_settles_once returns 0%nat (Some 100%Q) open_page
              open_page_reachable Hopen)
    as (Hpromise & Hawaiting & _).
  split; assumption.
Defined.

(** C6, as stated, fails on the code.  The command was sent awaiting its
    ack under id ["1"] and a subscriber (callback 3) listens on ["ack"].
    The timeout fires: the promise is rejected and the entry removed,
    nobody has been called.  Then the ack for ["1"] arrives: it is not
    dropped, the subscriber is invoked with its payload and the frame. *)
Lemma late_ack_reaches_subscribers :
  let timed_out := step returns (TimerFire 2%positive 0%Q) awaiting_page in
  promises timed_out !! 0%nat = Some (Rejected (Error "Ack timeout")) /\
  _pendingAcks (this timed_out) !! "1" = None /\
  calls timed_out = [] /\
  calls (step returns (SockMessage 0%nat (WellFormed ack_frame)) timed_out)
    = [(3%nat, [ack_payload; ack_frame])].
Proof. split_and!; vm_compute; reflexivity. Qed.

Lemma late_ack_after_timeout_is_dispatched_witness :
  reachable returns awaiting_page /\
  awaiting "1" 2%positive 0%nat awaiting_page /\
  promises (step returns (TimerFire 2%positive 0%Q) awaiting_page) !! 0%nat
    = Some (Rejected (Error "Ack timeout")) /\
  _pendingAcks (this (step returns (TimerFire 2%positive 0%Q) awaiting_page)) !! "1"
    = None.
Proof.
  split; [exact awaiting_page_reachable|]. split; [exact awaiting_page_awaits|].
  destruct (late_ack_after_timeout_is_dispatched returns "1" 2%positive 0%nat 0%Q
              awaiting_page awaiting_page_reachable awaiting_page_awaits)
    as (Hrejected & Hremoved & _).
  split; assumption.
Defined.

(** C7, as stated, fails on the code.  The frame [{"payload":1}] is a JSON
    object without [type].  With a subscriber on ["error"] (callback 4) and
    a wildcard subscriber (callback 9), the handler emits no [error] event
    and never calls the subscriber on ["error"]; it dispatches the frame,
    and the wildcard subscriber receives it under the type [undefined]. *)
Lemma untyped_frame_is_dispatched_not_reported :
  let after := step returns (SockMessage 0%nat (WellFormed untyped_frame)) error_page in
  calls error_page = [] /\
  emitted after
    = emitted error_page ++
      [(JUndefined, JNum 1%Q, untyped_frame); (JStr "*", untyped_frame, JUndefined)] /\
  calls after
    = [(9%nat, [JUndefined; JNum 1%Q; untyped_frame]);
       (9%nat, [JStr "*"; untyped_frame; JUndefined])].
Proof. split_and!; vm_compute; reflexivity. Qed.

Lemma parse_failure_emits_error_witness :
  obj_get "type" [("payload", @JNum Q 1%Q)] = JUndefined /\
  snd (on_message returns (WellFormed untyped_frame) error_page) = Normal tt.
Proof.
  split; [reflexivity|].
  destruct (proj2 (parse_failure_emits_error returns error_page)
                  [("payload", JNum 1%Q)] eq_refl) as (Hnormal & _).
  exact Hnormal.
Defined.

(** On the page that awaits the ack of ["1"], [disconnect] leaves the
    entry, its timer and its promise in place. *)
Lemma disconnect_keeps_pending_acks_witness :
  reachable returns awaiting_page /\
  awaiting "1" 2%positive 0%nat awaiting_page /\
  _shouldReconnect (this (step returns Disconnect awaiting_page)) = false /\
  awaiting "1" 2%positive 0%nat (step returns Disconnect awaiting_page).
Proof.
  split; [exact awaiting_page_reachable|]. split; [exact awaiting_page_awaits|].
  destruct (disconnect_keeps_pending_acks returns "1" 2%positive 0%nat
              awaiting_page awaiting_page_reachable awaiting_page_awaits)
    as (Hflag & _ & _ & _ & _ & _ & _ & Hawaiting & _).
  split; assumption.
Defined.

(** * The further properties on the scenarios *)

Lemma trade_page_reachable : reachable returns trade_page.
Proof.
  exists url_of_page, no_opts, {[ 0%nat := ping_command ]},
         [Connect; SockOpen 0%nat; On "trade" 7%nat; On "*" 9%nat].
  vm_compute; reflexivity.
Defined.

Lemma connecting_page_reachable : reachable returns connecting_page.
Proof.
  exists url_of_page, no_opts, {[ 0%nat := ping_command ]}, [Connect].
  vm_compute; reflexivity.
Defined.

Lemma two_awaiting_page_reachable : reachable returns two_awaiting_page.
Proof.
  exists url_of_page, no_opts, {[ 0%nat := ping_command ]},
         [Connect; SockOpen 0%nat; On "ack" 3%nat; Send 0%nat await_100;
          Send 0%nat await_100].
  vm_compute; reflexivity.
Defined.

Lemma two_awaiting_page_first : awaiting "1" 2%positive 0%nat two_awaiting_page.
Proof.
  split; [vm_compute; reflexivity|]. split; [|vm_compute; reflexivity].
  exists 100%Q. vm_compute; reflexivity.
Defined.

Lemma two_awaiting_page_second : awaiting "2" 3%positive 1%nat two_awaiting_page.
Proof.
  split; [vm_compute; reflexivity|]. split; [|vm_compute; reflexivity].
  exists 100%Q. vm_compute; reflexivity.
Defined.

Lemma open_page_socket : sockets open_page !! 0%nat = Some open_socket.
Proof. vm_compute; reflexivity. Defined.

Lemma open_page_readyState : readyState_of 0%nat open_page = Some OPEN.
Proof. vm_compute; reflexivity. Defined.

(** Callback 5 is not subscribed to ["trade"]: removing it changes nothing. *)
Lemma off_of_absent_callback_is_noop_witness :
  (5%nat ∉ subscribers "trade" (this trade_page)) /\
  step returns (Off "trade" 5%nat) trade_page = trade_page.
Proof.
  assert (Habsent : 5%nat ∉ subscribers "trade" (this trade_page)).
  { refine (bool_decide_eq_false_1 _ _). vm_compute; reflexivity. }
  split; [exact Habsent|].
  exact (off_of_absent_callback_is_noop returns "trade" 5%nat trade_page Habsent).
Defined.


(** The page disconnects, connects again and the new transport opens: the
    subscriptions are as before. *)
Lemma subscriptions_survive_reconnects_witness :
  Forall (fun ev => ~ @registers Q ev) [Disconnect; Connect; SockOpen 1%nat] /\
  _listeners (this (run returns [Disconnect; Connect; SockOpen 1%nat] trade_page))
  = _listeners (this trade_page).
Proof.
  assert (Hevs : Forall (fun ev => ~ @registers Q ev)
                        [Disconnect; Connect; SockOpen 1%nat]).
  { repeat constructor; intros []. }
  split; [exact Hevs|].
  destruct (subscriptions_survive_reconnects returns
              [Disconnect; Connect; SockOpen 1%nat] trade_page Hevs)
    as [Hsame _].
  exact Hsame.
Defined.

Lemma registry_holds_sets_witness :
  reachable returns trade_page /\
  NoDup (subscribers "trade" (this trade_page)).
Proof.
  split; [exact trade_page_reachable|].
  destruct (registry_holds_sets returns trade_page trade_page_reachable)
    as [Hsets _].
  exact (Hsets "trade").
Defined.

(** The reconnect timer set up by a close fires after [disconnect()]: a
    transport is opened all the same, the intent staying off. *)
Lemma reconnect_timer_opens_regardless_witness :
  timers cancelled_page !! 1%positive
  = Some {| t_action := ReconnectTimer; t_delay := 1000%Q; t_repeat := false |} /\
  ws (this (step returns (TimerFire 1%positive 0%Q) cancelled_page))
  = Some (length (sockets cancelled_page)) /\
  _shouldReconnect (this (step returns (TimerFire 1%positive 0%Q) cancelled_page))
  = _shouldReconnect (this cancelled_page).
Proof.
  assert (Htimer : timers cancelled_page !! 1%positive
                   = Some {| t_action := ReconnectTimer; t_delay := 1000%Q;
                             t_repeat := false |}) by (vm_compute; reflexivity).
  split; [exact Htimer|].
  destruct (reconnect_timer_opens_regardless returns 1%positive _ 0%Q
              cancelled_page Htimer eq_refl eq_refl) as (_ & Hws & Hflag & _).
  split; assumption.
Defined.

Lemma close_clears_handle_and_heartbeat_witness :
  reachable returns open_page /\
  readyState_of 0%nat open_page = Some OPEN /\
  ws (this (step returns (SockClose 0%nat JNull) open_page)) = None /\
  _heartbeatTimer (this (step returns (SockClose 0%nat JNull) open_page)) = None.
Proof.
  split; [exact open_page_reachable|]. split; [exact open_page_readyState|].
  assert (Hnot : OPEN <> CLOSED) by discriminate.
  destruct (close_clears_handle_and_heartbeat returns 0%nat OPEN JNull open_page
              open_page_reachable open_page_readyState Hnot)
    as (Hws & Hhb & _).
  split; assumption.
Defined.

Lemma open_starts_one_heartbeat_witness :
  reachable returns connecting_page /\
  readyState_of 0%nat connecting_page = Some CONNECTING /\
  readyState_of 0%nat (step returns (SockOpen 0%nat) connecting_page) = Some OPEN /\
  _heartbeatTimer (this (step returns (SockOpen 0%nat) connecting_page))
  = Some (next_timer connecting_page).
Proof.
  assert (Hst : readyState_of 0%nat connecting_page = Some CONNECTING)
    by (vm_compute; reflexivity).
  split; [exact connecting_page_reachable|]. split; [exact Hst|].
  destruct (open_starts_one_heartbeat returns 0%nat connecting_page
              connecting_page_reachable Hst) as (Hopen & Hhb & _).
  split; assumption.
Defined.

(** On the open page the handle 1 names the one heartbeat interval. *)
Lemma at_most_one_heartbeat_witness :
  reachable returns open_page /\
  _heartbeatTimer (this open_page) = Some 1%positive /\
  timers open_page !! 1%positive
  = Some {| t_action := HeartbeatTimer;
            t_delay := _heartbeatInterval (this open_page);
            t_repeat := true |}.
Proof.
  assert (Hhb : _heartbeatTimer (this open_page) = Some 1%positive)
    by (vm_compute; reflexivity).
  split; [exact open_page_reachable|]. split; [exact Hhb|].
  destruct (at_most_one_heartbeat returns open_page open_page_reachable)
    as (_ & _ & Hlive).
  exact (Hlive 1%positive Hhb).
Defined.

(** The heartbeat of the open page ticks at time 7. *)
Lemma heartbeat_tick_pings_when_open_witness :
  timers open_page !! 1%positive = Some heartbeat_of_page /\
  step returns (TimerFire 1%positive 7%Q) open_page
  = set_sockets (<[0%nat := transmitted (ping_frame 7%Q) open_socket]>
                   (sockets open_page)) open_page.
Proof.
  assert (Htimer : timers open_page !! 1%positive = Some heartbeat_of_page)
    by (vm_compute; reflexivity).
  assert (Hws : ws (this open_page) = Some 0%nat) by (vm_compute; reflexivity).
  split; [exact Htimer|].
  destruct (heartbeat_tick_pings_when_open returns 1%positive heartbeat_of_page
              7%Q open_page Htimer eq_refl eq_refl) as [Hping _].
  exact (Hping 0%nat open_socket Hws open_page_socket eq_refl).
Defined.

(** The ack for ["1"] arrives while the send is awaiting: the subscriber of
    ["ack"] is not called. *)
Lemma matched_ack_is_consumed_witness :
  reachable returns awaiting_page /\
  _pendingAcks (this awaiting_page) !! "1"
  = Some {| res_timer := 2%positive; res_promise := 0%nat |} /\
  calls (step returns (SockMessage 0%nat (WellFormed ack_frame)) awaiting_page)
  = calls awaiting_page.
Proof.
  assert (Hst : readyState_of 0%nat awaiting_page = Some OPEN)
    by (vm_compute; reflexivity).
  assert (Hentry : _pendingAcks (this awaiting_page) !! "1"
                   = Some {| res_timer := 2%positive; res_promise := 0%nat |})
    by (vm_compute; reflexivity).
  split; [exact awaiting_page_reachable|]. split; [exact Hentry|].
  destruct (matched_ack_is_consumed returns 0%nat ack_frame "1" _ awaiting_page
              awaiting_page_reachable Hst eq_refl eq_refl Hentry)
    as (Hcalls & _).
  exact Hcalls.
Defined.

(** The timeout of the awaited send fires: promise 0 is no longer pending,
    and it was the promise of an entry whose timer this was. *)
Lemma only_ack_or_timeout_settles_witness :
  reachable returns awaiting_page /\
  promises awaiting_page !! 0%nat = Some Pending /\
  promises (step returns (TimerFire 2%positive 0%Q) awaiting_page) !! 0%nat
  = Some (Rejected (Error "Ack timeout")) /\
  exists rid t, awaiting rid t 0%nat awaiting_page /\
                settling rid t (TimerFire 2%positive 0%Q).
Proof.
  assert (Hp : promises awaiting_page !! 0%nat = Some Pending)
    by (vm_compute; reflexivity).
  assert (Hp' : promises (step returns (TimerFire 2%positive 0%Q) awaiting_page)
                  !! 0%nat = Some (Rejected (Error "Ack timeout")))
    by (vm_compute; reflexivity).
  assert (Hchg : promises (step returns (TimerFire 2%positive 0%Q) awaiting_page)
                   !! 0%nat <> Some Pending).
  { rewrite Hp'. discriminate. }
  split; [exact awaiting_page_reachable|]. split; [exact Hp|].
  split; [exact Hp'|].
  exact (only_ack_or_timeout_settles returns (TimerFire 2%positive 0%Q) 0%nat
           awaiting_page awaiting_page_reachable Hp Hchg).
Defined.

Lemma table_matches_timers_witness :
  reachable returns awaiting_page /\
  _pendingAcks (this awaiting_page) !! "1"
  = Some {| res_timer := 2%positive; res_promise := 0%nat |} /\
  promises awaiting_page !! 0%nat = Some Pending.
Proof.
  assert (Hentry : _pendingAcks (this awaiting_page) !! "1"
                   = Some {| res_timer := 2%positive; res_promise := 0%nat |})
    by (vm_compute; reflexivity).
  split; [exact awaiting_page_reachable|]. split; [exact Hentry|].
  destruct (table_matches_timers returns awaiting_page awaiting_page_reachable)
    as (Hentries & _).
  destruct (Hentries "1" _ Hentry) as (_ & _ & Hp).
  exact Hp.
Defined.

(** Two sends are awaiting; the timeout of the second fires; the first is
    still awaiting. *)
Lemma awaited_sends_are_independent_witness :
  reachable returns two_awaiting_page /\
  awaiting "1" 2%positive 0%nat two_awaiting_page /\
  awaiting "2" 3%positive 1%nat two_awaiting_page /\
  awaiting "1" 2%positive 0%nat
    (step returns (TimerFire 3%positive 0%Q) two_awaiting_page).
Proof.
  assert (Hne : "1" <> "2") by discriminate.
  split; [exact two_awaiting_page_reachable|].
  split; [exact two_awaiting_page_first|].
  split; [exact two_awaiting_page_second|].
  destruct (awaited_sends_are_independent returns (TimerFire 3%positive 0%Q)
              "1" 2%positive 0%nat "2" 3%positive 1%nat two_awaiting_page
              two_awaiting_page_reachable two_awaiting_page_first
              two_awaiting_page_second Hne) as (_ & _ & Hkeeps).
  exact (Hkeeps eq_refl).
Defined.


Lemma heartbeat_answer_is_dispatched_witness :
  readyState_of 0%nat open_page = Some OPEN /\
  mock_on_message (ping_frame 7%Q) 8%Q []
  = [WellFormed (JObj [("type", JStr "ack"); ("request_id", JNull);
                       ("payload", JObj [("pong", JNum 8%Q)])])].
Proof.
  split; [exact open_page_readyState|].
  destruct (heartbeat_answer_is_dispatched returns 0%nat 7%Q 8%Q open_page
              open_page_readyState) as [Hreply _].
  exact Hreply.
Defined.

Lemma broadcast_is_dispatched_witness :
  readyState_of 0%nat open_page = Some OPEN /\
  broadcast (JStr "trade") trade_payload []
  = [WellFormed (JObj [("type", JStr "trade"); ("payload", trade_payload)])].
Proof.
  split; [exact open_page_readyState|].
  destruct (broadcast_is_dispatched returns 0%nat "trade" trade_payload open_page
              open_page_readyState) as [Hframe _].
  exact Hframe.
Defined.

(** The monitor holds position 1 and an update of position 1 comes in. *)
Lemma onPosition_upserts_witness :
  is_nullish trade_payload = false /\
  exists next, onPosition Qeq_bool trade_payload [held_position] = Some next.
Proof.
  assert (Hprev : Forall (fun p : @jsval Q => is_nullish p = false) [held_position]).
  { repeat constructor. }
  split; [reflexivity|].
  destruct (onPosition_upserts Qeq_bool trade_payload [held_position]
              eq_refl Hprev) as (next & Hnext & _).
  exists next. exact Hnext.
Defined.
